(** * Judge Panel evaluation engine: a shallow embedding

    Embeds [core/judge_panel.py] and the three judges of [core/judges/]
    and proves the panel's consensus, vote, agreement and error
    behaviour.

    Numbers.  Python floats are embedded as exact numbers: rationals [Q]
    wherever the code only adds, subtracts, multiplies, divides, compares
    or sorts, and reals [R] for the two places where a square root is
    taken ([statistics.stdev] and [** 0.5]).  Rounding, overflow, NaN and
    infinities are outside that embedding: it says what the panel
    computes, not to which double a result rounds nor what happens when
    a result leaves the range of doubles.  Where the range decides
    whether a call returns, the code is embedded once more over IEEE
    doubles ([Binary64], for [_pearson_correlation]).

    Types.  The panel is embedded on results of the declared types
    (winner and provider names are strings), and once more on the
    decoded values a judge really stores ([Decoded]), where a winner can
    be any JSON value.

    Exceptions.  A Python call either returns or raises; [result] makes
    that explicit and [x <- c ;; k] sequences calls the way statements
    follow one another in the source.

    Dictionaries.  A Python [dict] keeps its keys in insertion order, and
    the panel depends on that order (arrival order of the judges, first
    seen winner); [Dict] is an association list with that behaviour. *)

From Stdlib Require Import String Ascii.
From Stdlib Require Import List Bool Arith ZArith Lia.
From Stdlib Require Import QArith Reals Qreals Lra Lqa.
From Stdlib Require Import Permutation Sorted.
From Stdlib Require Floats.
Import ListNotations.

Set Implicit Arguments.
Set Warnings "-register-all".

(** ** Exceptions *)

Inductive exn : Set :=
| KeyError
| TypeError
| ValueError
| AttributeError
| JSONDecodeError
| StatisticsError
| ZeroDivisionError
| IndexError
| OverflowError
| APIError.

Inductive result (A : Type) : Type :=
| Returned (a : A)
| Raised (e : exn).

Arguments Returned {A} a.
Arguments Raised {A} e.

Definition bind {A B : Type} (c : result A) (k : A -> result B) : result B :=
  match c with
  | Returned a => k a
  | Raised e => Raised e
  end.

Notation "x <- c ;; k" := (bind c (fun x => k))
  (at level 61, c at next level, right associativity).

Definition returns {A : Type} (c : result A) : Prop :=
  exists a, c = Returned a.

(** A [for] loop whose body may raise: the first exception ends it. *)
Fixpoint for_each {A St : Type} (body : St -> A -> result St) (xs : list A)
  (s : St) : result St :=
  match xs with
  | [] => Returned s
  | x :: xs' => s' <- body s x ;; for_each body xs' s'
  end.

(** ** Python dictionaries with string keys *)

Module Dict.

Definition t (V : Type) : Type := list (string * V).

Definition empty {V : Type} : t V := [].

Fixpoint get {V : Type} (d : t V) (k : string) : option V :=
  match d with
  | [] => None
  | (k', v) :: d' => if String.eqb k' k then Some v else get d' k
  end.

(** [d.get(k, default)] *)
Definition get_default {V : Type} (d : t V) (k : string) (default : V) : V :=
  match get d k with
  | Some v => v
  | None => default
  end.

(** [d[k]] *)
Definition getitem {V : Type} (d : t V) (k : string) : result V :=
  match get d k with
  | Some v => Returned v
  | None => Raised KeyError
  end.

(** [d[k] = v]: an existing key keeps its position, a new key goes last. *)
Fixpoint set {V : Type} (d : t V) (k : string) (v : V) : t V :=
  match d with
  | [] => [(k, v)]
  | (k', v') :: d' =>
      if String.eqb k' k then (k', v) :: d' else (k', v') :: set d' k v
  end.

Definition keys {V : Type} (d : t V) : list string := map fst d.
Definition values {V : Type} (d : t V) : list V := map snd d.
Definition items {V : Type} (d : t V) : list (string * V) := d.

End Dict.

(** ** The [statistics] module and arithmetic on floats *)

Open Scope Q_scope.

(** [sum(xs)]: Python adds from the left, starting at 0.  The sum is
    exact here; on floats every addition rounds, and the result can
    depend on the order of the terms. *)
Definition Qsum (xs : list Q) : Q := fold_left Qplus xs 0.

Definition Qlen (xs : list Q) : Q := inject_Z (Z.of_nat (length xs)).

(** [statistics.mean] *)
Definition mean (xs : list Q) : result Q :=
  match xs with
  | [] => Raised StatisticsError
  | _ => Returned (Qsum xs / Qlen xs)
  end.

(** [sorted(xs)]: a stable sort. *)
Fixpoint insert (x : Q) (l : list Q) : list Q :=
  match l with
  | [] => [x]
  | y :: l' => if Qle_bool y x then y :: insert x l' else x :: y :: l'
  end.

Definition sorted (xs : list Q) : list Q :=
  fold_left (fun acc x => insert x acc) xs [].

(** [statistics.median] *)
Definition median (xs : list Q) : result Q :=
  let data := sorted xs in
  let n := length data in
  if Nat.eqb n 0 then Raised StatisticsError
  else if Nat.eqb (n mod 2) 1 then Returned (nth (n / 2) data 0)
  else let i := (n / 2)%nat in
       Returned ((nth (i - 1) data 0 + nth i data 0) / 2).

(** Sum of squared deviations from the mean, and the sample variance
    (divide by [n - 1]) whose square root [statistics.stdev] returns.
    (The library raises on an infinity or a NaN; neither is a [Q].) *)
Definition sum_sq_dev (xs : list Q) : Q :=
  let m := Qsum xs / Qlen xs in
  Qsum (map (fun x => (x - m) * (x - m)) xs).

Definition sample_variance (xs : list Q) : Q :=
  sum_sq_dev xs / (Qlen xs - 1).

Definition stdev (xs : list Q) : result R :=
  if Nat.ltb (length xs) 2 then Raised StatisticsError
  else Returned (sqrt (Q2R (sample_variance xs))).

Close Scope Q_scope.

(** ** Decoded JSON

    What [json.loads] returns: [None], [bool], a number, [str], [list] or
    [dict] (keys distinct, in the order of the text). *)

Inductive json : Type :=
| JNull
| JBool (b : bool)
| JNum (q : Q)
| JStr (s : string)
| JArr (items : list json)
| JObj (members : list (string * json)).

(** An event record of a provider: [Dict[str, Any]]. *)
Definition event_record : Type := Dict.t json.

(** [provider_outputs]: provider name to its extracted events. *)
Definition provider_outputs_t : Type := Dict.t (list event_record).

(** ** Data model ([base_judge.py], [judge_panel.py])

    The dataclasses annotate [provider], [reasoning] and [winner] as
    [str] but nothing checks it: a judge stores there whatever the decoded
    response holds.  The records take the type of those three fields as a
    parameter: [json] where a judge builds them from a response, [string]
    (the declared type) where the panel consumes them. *)

Module ProviderScore.
Record t (text : Type) : Type := mk {
  provider : text;
  document_name : string;
  completeness : Q;
  accuracy : Q;
  hallucinations : Q;
  citation_quality : Q;
  overall_quality : Q;
  reasoning : text;
  event_count : nat
}.
End ProviderScore.

Module JudgeResult.
Record t (text : Type) : Type := mk {
  judge_name : string;
  model : string;
  document_name : string;
  provider_scores : list (ProviderScore.t text);
  winner : text;
  timestamp : string;
  cost : Q;
  thinking_tokens : Q
}.
End JudgeResult.

Module ConsensusScore.
Record t : Type := mk {
  provider : string;
  completeness : Q;
  accuracy : Q;
  hallucinations : Q;
  citation_quality : Q;
  overall_quality : Q;
  score_variance : Dict.t R
}.
End ConsensusScore.

Module InterJudgeAgreement.
Record t : Type := mk {
  pearson_correlation : Dict.t R;
  average_correlation : R;
  score_std_dev_per_provider : Dict.t (Dict.t R);
  winner_consensus_percentage : Q;
  confidence_level : string
}.
End InterJudgeAgreement.

Module PanelResult.
Record t : Type := mk {
  document_name : string;
  timestamp : string;
  judges_used : list string;
  individual_results : Dict.t (JudgeResult.t string);
  consensus_method : string;
  consensus_scores : Dict.t ConsensusScore.t;
  consensus_winner : string;
  winner_votes : Dict.t nat;
  agreement : InterJudgeAgreement.t;
  total_cost : Q;
  total_thinking_tokens : Q
}.
End PanelResult.

(** The panel on results of the declared types.  ([Decoded], below, is
    the panel on what a judge stores.) *)
Abbreviation Score := (ProviderScore.t string).
Abbreviation Judged := (JudgeResult.t string).

(** ** The three judges *)

Inductive Judge : Set := GPT5Judge | ClaudeOpusJudge | GeminiProJudge.

(** The [judge_name] each class writes into its [JudgeResult]. *)
Definition judge_name_of (j : Judge) : string :=
  match j with
  | GPT5Judge => "gpt-5"
  | ClaudeOpusJudge => "claude-opus-4-1"
  | GeminiProJudge => "gemini-2.5-pro"
  end.

(** [self.model], as [JudgePanel.__init__] constructs the judges. *)
Definition model_of (j : Judge) : string :=
  match j with
  | GPT5Judge => "gpt-5"
  | ClaudeOpusJudge => "claude-opus-4-1"
  | GeminiProJudge => "gemini-2.5-pro"
  end.

Definition Judge_eqb (a b : Judge) : bool :=
  match a, b with
  | GPT5Judge, GPT5Judge
  | ClaudeOpusJudge, ClaudeOpusJudge
  | GeminiProJudge, GeminiProJudge => true
  | _, _ => false
  end.

(** ** [JudgePanel]: running the judges

    [as_completed] hands the futures over in the order the judges finish.
    [completed] is that sequence: each dispatched judge with what its
    [judge_providers] call did. *)

Definition completion : Type := (Judge * result Judged)%type.

Definition _run_judges_parallel (completed : list completion) : Dict.t Judged :=
  fold_left
    (fun results (c : completion) =>
       match snd c with
       | Returned r => Dict.set results (JudgeResult.judge_name r) r
       | Raised _ => results
       end)
    completed Dict.empty.

(** ** Consensus scores *)

Record score_lists : Type := mk_score_lists {
  completeness_scores : list Q;
  accuracy_scores : list Q;
  hallucination_scores : list Q;
  citation_scores : list Q;
  overall_scores : list Q
}.

Definition no_scores : score_lists := mk_score_lists [] [] [] [] [].

Definition append_score (acc : score_lists) (score : Score) : score_lists :=
  {| completeness_scores := completeness_scores acc ++ [ProviderScore.completeness score];
     accuracy_scores := accuracy_scores acc ++ [ProviderScore.accuracy score];
     hallucination_scores := hallucination_scores acc ++ [ProviderScore.hallucinations score];
     citation_scores := citation_scores acc ++ [ProviderScore.citation_quality score];
     overall_scores := overall_scores acc ++ [ProviderScore.overall_quality score] |}.

(** The two nested loops that gather one provider's scores. *)
Definition collect_scores (provider : string) (individual_results : Dict.t Judged)
  : score_lists :=
  fold_left
    (fun acc judge_result =>
       fold_left
         (fun acc score =>
            if String.eqb (ProviderScore.provider score) provider
            then append_score acc score else acc)
         (JudgeResult.provider_scores judge_result) acc)
    (Dict.values individual_results) no_scores.

(** [statistics.stdev(xs) if len(xs) > 1 else 0.0] *)
Definition stdev_or_zero (xs : list Q) : result R :=
  if Nat.ltb 1 (length xs) then stdev xs else Returned 0%R.

Definition make_consensus (provider : string) (c : score_lists)
  : result ConsensusScore.t :=
  m_completeness <- median (completeness_scores c) ;;
  m_accuracy <- median (accuracy_scores c) ;;
  m_hallucinations <- median (hallucination_scores c) ;;
  m_citation <- median (citation_scores c) ;;
  m_overall <- median (overall_scores c) ;;
  v_completeness <- stdev_or_zero (completeness_scores c) ;;
  v_accuracy <- stdev_or_zero (accuracy_scores c) ;;
  v_hallucinations <- stdev_or_zero (hallucination_scores c) ;;
  v_citation <- stdev_or_zero (citation_scores c) ;;
  v_overall <- stdev_or_zero (overall_scores c) ;;
  Returned
    {| ConsensusScore.provider := provider;
       ConsensusScore.completeness := m_completeness;
       ConsensusScore.accuracy := m_accuracy;
       ConsensusScore.hallucinations := m_hallucinations;
       ConsensusScore.citation_quality := m_citation;
       ConsensusScore.overall_quality := m_overall;
       ConsensusScore.score_variance :=
         [("completeness", v_completeness);
          ("accuracy", v_accuracy);
          ("hallucinations", v_hallucinations);
          ("citation_quality", v_citation);
          ("overall_quality", v_overall)]%string |}.

Definition _calculate_consensus_scores
  (individual_results : Dict.t Judged) (provider_outputs : provider_outputs_t)
  : result (Dict.t ConsensusScore.t) :=
  for_each
    (fun consensus_scores provider =>
       let c := collect_scores provider individual_results in
       match completeness_scores c with
       | [] => Returned consensus_scores
       | _ :: _ =>
           score <- make_consensus provider c ;;
           Returned (Dict.set consensus_scores provider score)
       end)
    (Dict.keys provider_outputs) Dict.empty.

(** ** Majority vote *)

Definition count_votes (individual_results : Dict.t Judged) : Dict.t nat :=
  fold_left
    (fun winner_votes judge_result =>
       let winner := JudgeResult.winner judge_result in
       Dict.set winner_votes winner (Dict.get_default winner_votes winner 0 + 1))
    (Dict.values individual_results) Dict.empty.

(** [max(items, key=lambda x: x[1])]: the first item whose count no other
    exceeds; [ValueError] on an empty sequence. *)
Fixpoint max_from (best : string * nat) (rest : list (string * nat))
  : string * nat :=
  match rest with
  | [] => best
  | x :: rest' =>
      if Nat.ltb (snd best) (snd x) then max_from x rest' else max_from best rest'
  end.

Definition max_by_votes (items : list (string * nat)) : result (string * nat) :=
  match items with
  | [] => Raised ValueError
  | x :: rest => Returned (max_from x rest)
  end.

Definition _determine_consensus_winner (individual_results : Dict.t Judged)
  : result (string * Dict.t nat) :=
  let winner_votes := count_votes individual_results in
  best <- max_by_votes (Dict.items winner_votes) ;;
  Returned (fst best, winner_votes).

(** ** Inter-judge agreement *)

(** [num / den ** 0.5] over exact numbers: the division raises exactly
    when the divisor is zero, and a square root is zero exactly when its
    argument is.  ([den] is a product of two sums of squares, never
    negative.)  On doubles the product of two non-zero sums can round to
    zero: [Binary64] has that case. *)
Definition div_by_root (num den : Q) : result R :=
  if Qeq_bool den 0 then Raised ZeroDivisionError
  else Returned (Q2R num / sqrt (Q2R den))%R.

Definition _pearson_correlation (x y : list Q) : result R :=
  if negb (Nat.eqb (length x) (length y)) || Nat.ltb (length x) 2
  then Returned 0%R
  else
    let n := length x in
    mean_x <- mean x ;;
    mean_y <- mean y ;;
    let numerator :=
      Qsum (map (fun i => (nth i x 0 - mean_x) * (nth i y 0 - mean_y))%Q (seq 0 n)) in
    let denominator_x :=
      Qsum (map (fun i => (nth i x 0 - mean_x) ^ 2)%Q (seq 0 n)) in
    let denominator_y :=
      Qsum (map (fun i => (nth i y 0 - mean_y) ^ 2)%Q (seq 0 n)) in
    if Qeq_bool denominator_x 0 || Qeq_bool denominator_y 0
    then Returned 0%R
    else div_by_root numerator (denominator_x * denominator_y)%Q.

(** [statistics.mean] on the correlations. *)
Definition Rsum (xs : list R) : R := fold_left Rplus xs 0%R.

Definition meanR (xs : list R) : result R :=
  match xs with
  | [] => Raised StatisticsError
  | _ => Returned (Rsum xs / INR (length xs))%R
  end.

Definition overall_vector (r : Judged) : list Q :=
  map (@ProviderScore.overall_quality string) (JudgeResult.provider_scores r).

Definition pair_key (judge1 judge2 : string) : string :=
  (judge1 ++ "_vs_" ++ judge2)%string.

(** The body of the double loop over [i < j]. *)
Definition correlate_pair (individual_results : Dict.t Judged)
  (judge_names : list string) (i : nat) (correlations : Dict.t R) (j : nat)
  : result (Dict.t R) :=
  let judge1 := nth i judge_names EmptyString in
  let judge2 := nth j judge_names EmptyString in
  r1 <- Dict.getitem individual_results judge1 ;;
  let scores1 := overall_vector r1 in
  r2 <- Dict.getitem individual_results judge2 ;;
  let scores2 := overall_vector r2 in
  if Nat.eqb (length scores1) (length scores2) && Nat.ltb 1 (length scores1)
  then corr <- _pearson_correlation scores1 scores2 ;;
       Returned (Dict.set correlations (pair_key judge1 judge2) corr)
  else Returned correlations.

Definition pairwise_correlations (individual_results : Dict.t Judged)
  : result (Dict.t R) :=
  let judge_names := Dict.keys individual_results in
  let n := length judge_names in
  for_each
    (fun correlations i =>
       for_each (correlate_pair individual_results judge_names i)
         (seq (i + 1) (n - (i + 1))) correlations)
    (seq 0 n) Dict.empty.

(** The loop counting the judges that named the first judge's winner. *)
Definition count_first_winner (individual_results : Dict.t Judged) : result nat :=
  let values := Dict.values individual_results in
  for_each
    (fun winner_votes_count r =>
       match nth_error values 0 with
       | None => Raised IndexError
       | Some first =>
           if String.eqb (JudgeResult.winner r) (JudgeResult.winner first)
           then Returned (winner_votes_count + 1)%nat
           else Returned winner_votes_count
       end)
    values 0%nat.

Definition Qnat (n : nat) : Q := inject_Z (Z.of_nat n).

Definition Rge_bool (a b : R) : bool := if Rle_dec b a then true else false.

Definition confidence (average_correlation : R) (winner_consensus_pct : Q) : string :=
  if Rge_bool average_correlation (8 / 10) && Qeq_bool winner_consensus_pct 100
  then "HIGH"
  else if Rge_bool average_correlation (6 / 10) && Qle_bool 67 winner_consensus_pct
  then "MEDIUM"
  else "LOW".

Definition _calculate_agreement (individual_results : Dict.t Judged)
  (consensus_scores : Dict.t ConsensusScore.t) : result InterJudgeAgreement.t :=
  correlations <- pairwise_correlations individual_results ;;
  average_correlation <-
    match correlations with
    | [] => Returned 0%R
    | _ :: _ => meanR (Dict.values correlations)
    end ;;
  let score_std_dev :=
    fold_left
      (fun d (item : string * ConsensusScore.t) =>
         Dict.set d (fst item) (ConsensusScore.score_variance (snd item)))
      (Dict.items consensus_scores) Dict.empty in
  let total_judges := length individual_results in
  winner_votes_count <- count_first_winner individual_results ;;
  let winner_consensus_pct :=
    if Nat.ltb 0 total_judges
    then (Qnat winner_votes_count / Qnat total_judges * 100)%Q
    else 0%Q in
  Returned
    {| InterJudgeAgreement.pearson_correlation := correlations;
       InterJudgeAgreement.average_correlation := average_correlation;
       InterJudgeAgreement.score_std_dev_per_provider := score_std_dev;
       InterJudgeAgreement.winner_consensus_percentage := winner_consensus_pct;
       InterJudgeAgreement.confidence_level :=
         confidence average_correlation winner_consensus_pct |}.

(** ** [judge_document]

    [now] is what [datetime.now().isoformat()] yields.  The summary that
    [_log_panel_summary] writes to the log does not change the result. *)

Definition judge_document (completed : list completion) (now : string)
  (document_name : string) (provider_outputs : provider_outputs_t)
  : result PanelResult.t :=
  let individual_results := _run_judges_parallel completed in
  consensus_scores <- _calculate_consensus_scores individual_results provider_outputs ;;
  wv <- _determine_consensus_winner individual_results ;;
  agreement <- _calculate_agreement individual_results consensus_scores ;;
  let total_cost :=
    Qsum (map (@JudgeResult.cost string) (Dict.values individual_results)) in
  let total_thinking_tokens :=
    Qsum (map (@JudgeResult.thinking_tokens string) (Dict.values individual_results)) in
  Returned
    {| PanelResult.document_name := document_name;
       PanelResult.timestamp := now;
       PanelResult.judges_used :=
         map (@JudgeResult.judge_name string) (Dict.values individual_results);
       PanelResult.individual_results := individual_results;
       PanelResult.consensus_method := "median_scores_majority_winner";
       PanelResult.consensus_scores := consensus_scores;
       PanelResult.consensus_winner := fst wv;
       PanelResult.winner_votes := snd wv;
       PanelResult.agreement := agreement;
       PanelResult.total_cost := total_cost;
       PanelResult.total_thinking_tokens := total_thinking_tokens |}.

(** ** [JudgePanel.__init__]

    [construct j key] is what the constructor of judge class [j] does with
    a non-empty key: it creates the vendor's client object and may raise
    (a missing library, a rejected argument).  No request is sent there. *)

Definition truthy (s : option string) : bool :=
  match s with
  | Some (String _ _) => true
  | _ => false
  end.

(** [a or b] *)
Definition py_or (a b : option string) : option string :=
  if truthy a then a else b.

Record api_keys : Type := mk_api_keys {
  gpt5_api_key : option string;
  claude_api_key : option string;
  gemini_api_key : option string
}.

Section Construction.

Variable getenv : string -> option string.
Variable construct : Judge -> string -> result unit.

(** [if key: try: judges.append(J(api_key=key)) except Exception: warn] *)
Definition try_append (judges : list Judge) (j : Judge) (key : option string)
  : list Judge :=
  match key with
  | Some (String c k) =>
      match construct j (String c k) with
      | Returned _ => judges ++ [j]
      | Raised _ => judges
      end
  | _ => judges
  end.

Definition initialized_judges (args : api_keys) : list Judge :=
  let gpt5_key := py_or (gpt5_api_key args) (getenv "OPENAI_API_KEY") in
  let claude_key := py_or (claude_api_key args) (getenv "ANTHROPIC_API_KEY") in
  let gemini_key := py_or (gemini_api_key args) (getenv "GEMINI_API_KEY") in
  let judges := [] in
  let judges := try_append judges GPT5Judge gpt5_key in
  let judges := try_append judges ClaudeOpusJudge claude_key in
  let judges := try_append judges GeminiProJudge gemini_key in
  judges.

(** Returns [self.judges] or raises [ValueError]. *)
Definition JudgePanel_init (args : api_keys) : result (list Judge) :=
  let judges := initialized_judges args in
  if Nat.ltb (length judges) 2 then Raised ValueError else Returned judges.

End Construction.

(** ** The judges' [judge_providers]

    The three classes share the method up to the judge name and the source
    of [thinking_tokens].  [api] is what building the prompt and
    [self._call_api(prompt)] did: an exception, or the response text with
    the [_last_cost] and thinking-token count the call left on [self]. *)

Record api_reply : Type := mk_api_reply {
  response_text : string;
  last_cost : Q;
  last_thinking_tokens : Q
}.

(** [v[k]] on a decoded value *)
Definition subscript (v : json) (k : string) : result json :=
  match v with
  | JObj m => Dict.getitem m k
  | _ => Raised TypeError
  end.

(** [v.get(k, default)] on a decoded value: only a [dict] has [get]. *)
Definition dict_get (v : json) (k : string) (default : json) : result json :=
  match v with
  | JObj m => Returned (Dict.get_default m k default)
  | _ => Raised AttributeError
  end.

(** [for x in v] *)
Definition iterate (v : json) : result (list json) :=
  match v with
  | JArr items => Returned items
  | JObj m => Returned (map (fun kv => JStr (fst kv)) m)
  | JStr s => Returned (map (fun c => JStr (String c EmptyString)) (list_ascii_of_string s))
  | _ => Raised TypeError
  end.

(** [provider_outputs.get(key, [])]: a [list] or [dict] key cannot be
    hashed; any other key that is not a string is simply not found. *)
Definition outputs_get (provider_outputs : provider_outputs_t) (key : json)
  : result (list event_record) :=
  match key with
  | JStr s => Returned (Dict.get_default provider_outputs s [])
  | JArr _ | JObj _ => Raised TypeError
  | _ => Returned []
  end.

Section Judges.

(** [json.loads]; [None] stands for [JSONDecodeError]. *)
Variable json_loads : string -> option json.
(** [float(s)] on a [str]; [None] stands for [ValueError]. *)
Variable float_of_str : string -> option Q.

(** [float(v)].  (An integer beyond the range of doubles, on which
    Python raises [OverflowError], is outside the embedding.) *)
Definition float (v : json) : result Q :=
  match v with
  | JNum q => Returned q
  | JBool b => Returned (if b then 1%Q else 0%Q)
  | JStr s =>
      match float_of_str s with
      | Some q => Returned q
      | None => Raised ValueError
      end
  | _ => Raised TypeError
  end.

Definition make_score (document_name : string)
  (provider_outputs : provider_outputs_t) (provider_data : json)
  : result (ProviderScore.t json) :=
  provider <- subscript provider_data "provider" ;;
  completeness <- (v <- subscript provider_data "completeness" ;; float v) ;;
  accuracy <- (v <- subscript provider_data "accuracy" ;; float v) ;;
  hallucinations <- (v <- subscript provider_data "hallucinations" ;; float v) ;;
  citation_quality <- (v <- subscript provider_data "citation_quality" ;; float v) ;;
  overall_quality <- (v <- subscript provider_data "overall_quality" ;; float v) ;;
  reasoning <- subscript provider_data "reasoning" ;;
  key <- subscript provider_data "provider" ;;
  events <- outputs_get provider_outputs key ;;
  Returned
    {| ProviderScore.provider := provider;
       ProviderScore.document_name := document_name;
       ProviderScore.completeness := completeness;
       ProviderScore.accuracy := accuracy;
       ProviderScore.hallucinations := hallucinations;
       ProviderScore.citation_quality := citation_quality;
       ProviderScore.overall_quality := overall_quality;
       ProviderScore.reasoning := reasoning;
       ProviderScore.event_count := length events |}.

Definition judge_providers (self : Judge) (api : result api_reply) (now : string)
  (document_name : string) (provider_outputs : provider_outputs_t)
  : result (JudgeResult.t json) :=
  reply <- api ;;
  result <-
    match json_loads (response_text reply) with
    | Some v => Returned v
    | None => Raised JSONDecodeError
    end ;;
  let thinking_tokens :=
    match self with
    | GeminiProJudge => 0%Q
    | _ => last_thinking_tokens reply
    end in
  providers <- dict_get result "providers" (JArr []) ;;
  entries <- iterate providers ;;
  provider_scores <-
    for_each
      (fun provider_scores provider_data =>
         score <- make_score document_name provider_outputs provider_data ;;
         Returned (provider_scores ++ [score]))
      entries [] ;;
  let cost := last_cost reply in
  winner <- dict_get result "winner" (JStr "unknown") ;;
  Returned
    {| JudgeResult.judge_name := judge_name_of self;
       JudgeResult.model := model_of self;
       JudgeResult.document_name := document_name;
       JudgeResult.provider_scores := provider_scores;
       JudgeResult.winner := winner;
       JudgeResult.timestamp := now;
       JudgeResult.cost := cost;
       JudgeResult.thinking_tokens := thinking_tokens |}.

End Judges.

(** * Vocabulary of the properties *)

(** The results of the judges that returned, in the order they arrived. *)
Definition survivors (completed : list completion) : list Judged :=
  flat_map
    (fun c : completion =>
       match snd c with
       | Returned r => [r]
       | Raised _ => []
       end)
    completed.

(** What [_run_judges_parallel] can meet: [self.judges] holds each judge
    class at most once ([JudgePanel.__init__]), every judge is submitted
    once, and a result carries the name its class writes
    ([judge_providers]). *)
Definition dispatched (completed : list completion) : Prop :=
  NoDup (map fst completed) /\
  Forall
    (fun c : completion =>
       forall r, snd c = Returned r ->
                 JudgeResult.judge_name r = judge_name_of (fst c))
    completed.

Definition winner_of : Judged -> string := @JudgeResult.winner string.
Definition name_of : Judged -> string := @JudgeResult.judge_name string.

(** Votes for [p] among the winners, and the place where [p] is first seen
    ([length ws] when it never is). *)
Definition votes_for (p : string) (ws : list string) : nat :=
  count_occ string_dec ws p.

Fixpoint first_seen (p : string) (ws : list string) : nat :=
  match ws with
  | [] => 0
  | w :: ws' => if String.eqb w p then 0 else S (first_seen p ws')
  end.

(** The entries, over all results, that score provider [p]: judge by
    judge in arrival order, each judge's entries in list order. *)
Definition scores_provider (p : string) (s : Score) : bool :=
  String.eqb (ProviderScore.provider s) p.

Definition entries_for (p : string) (rs : list Judged) : list Score :=
  flat_map (fun r => filter (scores_provider p) (JudgeResult.provider_scores r)) rs.

Definition lists_of (ss : list Score) : score_lists :=
  {| completeness_scores := map (@ProviderScore.completeness string) ss;
     accuracy_scores := map (@ProviderScore.accuracy string) ss;
     hallucination_scores := map (@ProviderScore.hallucinations string) ss;
     citation_scores := map (@ProviderScore.citation_quality string) ss;
     overall_scores := map (@ProviderScore.overall_quality string) ss |}.

(** The judges that scored [p], and the value a judge gave [p] for a
    criterion (its first entry for [p]). *)
Definition scored_by (p : string) (r : Judged) : bool :=
  existsb (scores_provider p) (JudgeResult.provider_scores r).

Definition scorers (p : string) (rs : list Judged) : list Judged :=
  filter (scored_by p) rs.

Definition judge_value (criterion : Score -> Q) (p : string) (r : Judged) : Q :=
  match find (scores_provider p) (JudgeResult.provider_scores r) with
  | Some s => criterion s
  | None => 0
  end.

(** A judge has at most one entry per provider. *)
Definition scores_once (p : string) (r : Judged) : Prop :=
  (length (filter (scores_provider p) (JudgeResult.provider_scores r)) <= 1)%nat.

(** The spread the panel reports for [k] values [vs] of a criterion. *)
Definition spread (vs : list Q) : R :=
  if Nat.eqb (length vs) 1 then 0%R else sqrt (Q2R (sample_variance vs)).

Definition criteria : list string :=
  ["completeness"; "accuracy"; "hallucinations"; "citation_quality";
   "overall_quality"]%string.

(** The consensus entry of provider [p]: none when no entry scores [p]. *)
Definition consensus_for (p : string) (rs : list Judged) : option ConsensusScore.t :=
  match entries_for p rs with
  | [] => None
  | _ :: _ =>
      match make_consensus p (lists_of (entries_for p rs)) with
      | Returned c => Some c
      | Raised _ => None
      end
  end.

Definition member (p : string) (l : list string) : bool :=
  existsb (String.eqb p) l.

(** The winners in the order they are first seen. *)
Fixpoint first_occurrences (ws : list string) : list string :=
  match ws with
  | [] => []
  | w :: ws' => w :: filter (fun x => negb (String.eqb x w)) (first_occurrences ws')
  end.

(** The vote table the loop of [_determine_consensus_winner] builds from
    the winners [ws], starting from the table [acc]. *)
Definition tally (ws : list string) (acc : Dict.t nat) : Dict.t nat :=
  fold_left
    (fun winner_votes winner =>
       Dict.set winner_votes winner (Dict.get_default winner_votes winner 0 + 1))
    ws acc.

(** A vector whose entries are all the same number has zero variance. *)
Definition constant (x : list Q) : Prop :=
  forall a b, In a x -> In b x -> (a == b)%Q.

(** The number [_pearson_correlation] returns. *)
Definition pearson_value (x y : list Q) : R :=
  match _pearson_correlation x y with
  | Returned r => r
  | Raised _ => 0%R
  end.

(** The two sums of [_pearson_correlation], read over the lists rather
    than over their indices. *)
Definition dev_sq (x : list Q) : Q :=
  let m := (Qsum x / Qlen x)%Q in
  Qsum (map (fun v => (v - m) ^ 2)%Q x).

Definition co_dev (x y : list Q) : Q :=
  let mx := (Qsum x / Qlen x)%Q in
  let my := (Qsum y / Qlen y)%Q in
  Qsum (map (fun ab => (fst ab - mx) * (snd ab - my))%Q (combine x y)).

(** The unordered pairs of a list, each element with every later one, in
    the order the double loop over [i < j] visits them. *)
Fixpoint pairs_of {A : Type} (l : list A) : list (A * A) :=
  match l with
  | [] => []
  | a :: rest => map (pair a) rest ++ pairs_of rest
  end.

(** Two judges' score lists can be correlated: same length, at least 2. *)
Definition comparable (r1 r2 : Judged) : bool :=
  Nat.eqb (length (overall_vector r1)) (length (overall_vector r2))
  && Nat.ltb 1 (length (overall_vector r1)).

(** What one round of the double loop does to [correlations], for the
    dictionary items [(judge1, r1)] and [(judge2, r2)]. *)
Definition correlate (correlations : Dict.t R)
  (pq : (string * Judged) * (string * Judged)) : Dict.t R :=
  let r1 := snd (fst pq) in
  let r2 := snd (snd pq) in
  if comparable r1 r2
  then Dict.set correlations (pair_key (fst (fst pq)) (fst (snd pq)))
         (pearson_value (overall_vector r1) (overall_vector r2))
  else correlations.

(** The entry of a comparable pair of judges. *)
Definition correlation_entry (pq : Judged * Judged) : string * R :=
  (pair_key (name_of (fst pq)) (name_of (snd pq)),
   pearson_value (overall_vector (fst pq)) (overall_vector (snd pq))).

Definition comparable_pairs (rs : list Judged) : list (Judged * Judged) :=
  filter (fun pq => comparable (fst pq) (snd pq)) (pairs_of rs).

(** Arithmetic mean, 0.0 for no value. *)
Definition mean_or_zero (vs : list R) : R :=
  match vs with
  | [] => 0%R
  | _ :: _ => (Rsum vs / INR (length vs))%R
  end.

(** The judges whose winner is the first judge's. *)
Definition agree_with_first (rs : list Judged) : list Judged :=
  match rs with
  | [] => []
  | first :: _ => filter (fun r => String.eqb (winner_of r) (winner_of first)) rs
  end.

(** The dictionary key of a pair of judges' results. *)
Definition key_of_pair (pq : Judged * Judged) : string :=
  pair_key (name_of (fst pq)) (name_of (snd pq)).

(** A result filed under its judge name, as [results[result.judge_name]]. *)
Definition filed (r : Judged) : string * Judged := (name_of r, r).

(** [(agreeing / total) * 100], 0.0 when there is no judge. *)
Definition percentage (agreeing total : nat) : Q :=
  if Nat.ltb 0 total then (Qnat agreeing / Qnat total * 100)%Q else 0%Q.

(** [w] has the most votes among the winners [ws] and, among those with
    as many votes, is the one seen first. *)
Definition first_most_voted (w : string) (ws : list string) : Prop :=
  In w ws /\
  (forall p, votes_for p ws <= votes_for w ws)%nat /\
  (forall p, votes_for p ws = votes_for w ws ->
             (first_seen w ws <= first_seen p ws)%nat).

(** The [PanelResult] built from the parts [judge_document] computes. *)
Definition panel_result (now document_name : string)
  (individual_results : Dict.t Judged) (consensus_scores : Dict.t ConsensusScore.t)
  (winner : string) (votes : Dict.t nat) (agreement : InterJudgeAgreement.t)
  : PanelResult.t :=
  {| PanelResult.document_name := document_name;
     PanelResult.timestamp := now;
     PanelResult.judges_used :=
       map (@JudgeResult.judge_name string) (Dict.values individual_results);
     PanelResult.individual_results := individual_results;
     PanelResult.consensus_method := "median_scores_majority_winner";
     PanelResult.consensus_scores := consensus_scores;
     PanelResult.consensus_winner := winner;
     PanelResult.winner_votes := votes;
     PanelResult.agreement := agreement;
     PanelResult.total_cost :=
       Qsum (map (@JudgeResult.cost string) (Dict.values individual_results));
     PanelResult.total_thinking_tokens :=
       Qsum (map (@JudgeResult.thinking_tokens string)
               (Dict.values individual_results)) |}.

Definition succeeded (c : completion) : bool :=
  match snd c with
  | Returned _ => true
  | Raised _ => false
  end.

(** ** A worked evaluation

    Three providers, three judges.  The judges score the providers in the
    same order; two name provider A the winner, the last to arrive names
    B. *)

Definition example_score (p : string) (c a h q o : Q) : Score :=
  {| ProviderScore.provider := p;
     ProviderScore.document_name := "lease.pdf";
     ProviderScore.completeness := c;
     ProviderScore.accuracy := a;
     ProviderScore.hallucinations := h;
     ProviderScore.citation_quality := q;
     ProviderScore.overall_quality := o;
     ProviderScore.reasoning := "scores explained"%string;
     ProviderScore.event_count := 1 |}.

Definition example_result (j : Judge) (scores : list Score) (w : string) : Judged :=
  {| JudgeResult.judge_name := judge_name_of j;
     JudgeResult.model := model_of j;
     JudgeResult.document_name := "lease.pdf";
     JudgeResult.provider_scores := scores;
     JudgeResult.winner := w;
     JudgeResult.timestamp := "2025-01-01T00:00:00";
     JudgeResult.cost := 1 # 100;
     JudgeResult.thinking_tokens := 1000 |}.

Definition gpt5_result : Judged :=
  example_result GPT5Judge
    [example_score "A" 8 9 10 8 9;
     example_score "B" 7 8 9 8 (17 # 2);
     example_score "C" 6 7 9 5 7] "A".

Definition claude_result : Judged :=
  example_result ClaudeOpusJudge
    [example_score "A" 9 9 10 9 (19 # 2);
     example_score "B" 8 8 9 7 8;
     example_score "C" 7 7 8 6 (15 # 2)] "A".

Definition gemini_result : Judged :=
  example_result GeminiProJudge
    [example_score "A" 10 8 9 8 8;
     example_score "B" 9 9 9 9 9;
     example_score "C" 5 6 8 5 6] "B".

Definition example_outputs : provider_outputs_t :=
  [("A", [[("date", JStr "2020-01-01")]]);
   ("B", [[("date", JStr "2020-01-01")]]);
   ("C", [[("date", JStr "2020-01-01")]])]%string.

(** All three judges return. *)
Definition example_completed : list completion :=
  [(GPT5Judge, Returned gpt5_result);
   (ClaudeOpusJudge, Returned claude_result);
   (GeminiProJudge, Returned gemini_result)].

(** The Claude judge raises; the other two return. *)
Definition example_one_failed : list completion :=
  [(GeminiProJudge, Returned gemini_result);
   (ClaudeOpusJudge, Raised APIError);
   (GPT5Judge, Returned gpt5_result)].

(** Every judge raises. *)
Definition example_all_failed : list completion :=
  [(GPT5Judge, Raised APIError);
   (GeminiProJudge, Raised JSONDecodeError);
   (ClaudeOpusJudge, Raised KeyError)].

(** ** Judge responses *)

(** The fields [judge_providers] reads with [provider_data[...]]. *)
Definition required_entry_fields : list string :=
  ["provider"; "completeness"; "accuracy"; "hallucinations";
   "citation_quality"; "overall_quality"; "reasoning"]%string.

Definition numeric_entry_fields : list string :=
  ["completeness"; "accuracy"; "hallucinations"; "citation_quality";
   "overall_quality"]%string.

(** An entry of "providers" that is an object without the field [f]. *)
Definition lacks_field (entry : json) (f : string) : Prop :=
  exists em, entry = JObj em /\ Dict.get em f = None.

(** An entry as the prompt asks for it: an object with a provider name,
    five numeric scores and a reasoning. *)
Definition well_formed_entry (entry : json) : Prop :=
  exists em s,
    entry = JObj em /\
    Dict.get em "provider" = Some (JStr s) /\
    (forall f, In f numeric_entry_fields -> exists q, Dict.get em f = Some (JNum q)) /\
    (exists v, Dict.get em "reasoning" = Some v).

(** [score] is the [ProviderScore] built from the response entry [entry]. *)
Definition entry_scored (float_of_str : string -> option Q)
  (document_name : string) (provider_outputs : provider_outputs_t)
  (entry : json) (score : ProviderScore.t json) : Prop :=
  subscript entry "provider" = Returned (ProviderScore.provider score) /\
  ProviderScore.document_name score = document_name /\
  (v <- subscript entry "completeness" ;; float float_of_str v)
    = Returned (ProviderScore.completeness score) /\
  (v <- subscript entry "accuracy" ;; float float_of_str v)
    = Returned (ProviderScore.accuracy score) /\
  (v <- subscript entry "hallucinations" ;; float float_of_str v)
    = Returned (ProviderScore.hallucinations score) /\
  (v <- subscript entry "citation_quality" ;; float float_of_str v)
    = Returned (ProviderScore.citation_quality score) /\
  (v <- subscript entry "overall_quality" ;; float float_of_str v)
    = Returned (ProviderScore.overall_quality score) /\
  subscript entry "reasoning" = Returned (ProviderScore.reasoning score) /\
  (forall s, ProviderScore.provider score = JStr s ->
             ProviderScore.event_count score
             = length (Dict.get_default provider_outputs s [])).

Definition example_reply : api_reply :=
  {| response_text := "response body";
     last_cost := 3 # 100;
     last_thinking_tokens := 1200 |}.

Definition example_entry (p : string) (o : Q) : json :=
  JObj [("provider", JStr p);
        ("completeness", JNum 8);
        ("accuracy", JNum 9);
        ("hallucinations", JNum 10);
        ("citation_quality", JNum 7);
        ("overall_quality", JNum o);
        ("reasoning", JStr "thorough and well cited")]%string.

(** A response without the "winner" field. *)
Definition response_without_winner : json :=
  JObj [("providers", JArr [example_entry "A" 9; example_entry "B" 8])]%string.

(** The empty object: neither "providers" nor "winner". *)
Definition response_empty_object : json := JObj [].

(** A response that scores a provider nobody submitted. *)
Definition response_with_stranger : json :=
  JObj [("providers", JArr [example_entry "A" 9; example_entry "ghost" 10]);
        ("winner", JStr "ghost")]%string.

(** A response whose second entry has no "accuracy". *)
Definition response_missing_accuracy : json :=
  JObj [("providers",
         JArr [example_entry "A" 9;
               JObj [("provider", JStr "B");
                     ("completeness", JNum 8);
                     ("hallucinations", JNum 10);
                     ("citation_quality", JNum 7);
                     ("overall_quality", JNum 8);
                     ("reasoning", JStr "accuracy was left out")]]);
        ("winner", JStr "A")]%string.

(** ** Vocabulary of the further properties *)

(** The values of [l] strictly below [v], and those up to [v]. *)
Definition below (v : Q) (l : list Q) : list Q :=
  filter (fun x => negb (Qle_bool v x)) l.

Definition upto (v : Q) (l : list Q) : list Q :=
  filter (fun x => Qle_bool x v) l.

(** Two outcomes of a computation on floats agree: the same number, or
    the same exception. *)
Definition same_outcome (a b : result Q) : Prop :=
  match a, b with
  | Returned x, Returned y => (x == y)%Q
  | Raised e, Raised e' => e = e'
  | _, _ => False
  end.

(** Two consensus entries agree: the same provider, the same medians and
    the same spreads. *)
Definition same_consensus (c c' : ConsensusScore.t) : Prop :=
  ConsensusScore.provider c = ConsensusScore.provider c' /\
  (ConsensusScore.completeness c == ConsensusScore.completeness c')%Q /\
  (ConsensusScore.accuracy c == ConsensusScore.accuracy c')%Q /\
  (ConsensusScore.hallucinations c == ConsensusScore.hallucinations c')%Q /\
  (ConsensusScore.citation_quality c == ConsensusScore.citation_quality c')%Q /\
  (ConsensusScore.overall_quality c == ConsensusScore.overall_quality c')%Q /\
  ConsensusScore.score_variance c = ConsensusScore.score_variance c'.

(** Every criterion of a score, or of a consensus entry, lies in [lo, hi]. *)
Definition score_within (lo hi : Q) (s : Score) : Prop :=
  (lo <= ProviderScore.completeness s <= hi)%Q /\
  (lo <= ProviderScore.accuracy s <= hi)%Q /\
  (lo <= ProviderScore.hallucinations s <= hi)%Q /\
  (lo <= ProviderScore.citation_quality s <= hi)%Q /\
  (lo <= ProviderScore.overall_quality s <= hi)%Q.

Definition consensus_within (lo hi : Q) (c : ConsensusScore.t) : Prop :=
  (lo <= ConsensusScore.completeness c <= hi)%Q /\
  (lo <= ConsensusScore.accuracy c <= hi)%Q /\
  (lo <= ConsensusScore.hallucinations c <= hi)%Q /\
  (lo <= ConsensusScore.citation_quality c <= hi)%Q /\
  (lo <= ConsensusScore.overall_quality c <= hi)%Q.

(** Two optional consensus entries agree. *)
Definition same_entry (a b : option ConsensusScore.t) : Prop :=
  match a, b with
  | Some c, Some c' => same_consensus c c'
  | None, None => True
  | _, _ => False
  end.

(** Some judge has an entry for provider [p]. *)
Definition is_scored (p : string) (rs : list Judged) : bool :=
  existsb (scored_by p) rs.

(** The criterion a key of [score_variance] stands for. *)
Definition criterion_of (name : string) : option (Score -> Q) :=
  if String.eqb name "completeness" then Some (@ProviderScore.completeness string)
  else if String.eqb name "accuracy" then Some (@ProviderScore.accuracy string)
  else if String.eqb name "hallucinations"
  then Some (@ProviderScore.hallucinations string)
  else if String.eqb name "citation_quality"
  then Some (@ProviderScore.citation_quality string)
  else if String.eqb name "overall_quality"
  then Some (@ProviderScore.overall_quality string)
  else None.

(** A provider's row of [score_std_dev_per_provider]. *)
Definition variance_row (item : string * ConsensusScore.t) : string * Dict.t R :=
  (fst item, ConsensusScore.score_variance (snd item)).

(** The classes [__init__] tries, in its order. *)
Definition judge_classes : list Judge :=
  [GPT5Judge; ClaudeOpusJudge; GeminiProJudge].

(** The environment variable [__init__] reads for a class. *)
Definition env_var (j : Judge) : string :=
  match j with
  | GPT5Judge => "OPENAI_API_KEY"
  | ClaudeOpusJudge => "ANTHROPIC_API_KEY"
  | GeminiProJudge => "GEMINI_API_KEY"
  end.

(** The argument of [__init__] that belongs to a class. *)
Definition key_argument (args : api_keys) (j : Judge) : option string :=
  match j with
  | GPT5Judge => gpt5_api_key args
  | ClaudeOpusJudge => claude_api_key args
  | GeminiProJudge => gemini_api_key args
  end.

(** The key [__init__] keeps for a class: [argument or os.getenv(...)]. *)
Definition key_for (getenv : string -> option string) (args : api_keys)
  (j : Judge) : option string :=
  py_or (key_argument args j) (getenv (env_var j)).

(** The class has a non-empty key and its constructor accepts it. *)
Definition initializes (construct : Judge -> string -> result unit)
  (j : Judge) (key : option string) : bool :=
  match key with
  | Some (String c k) =>
      match construct j (String c k) with
      | Returned _ => true
      | Raised _ => false
      end
  | _ => false
  end.

(** A decoded value that is a JSON object (a Python [dict]). *)
Definition is_object (v : json) : bool :=
  match v with
  | JObj _ => true
  | _ => false
  end.

(** A decoded value a [for] loop cannot run over: [None], a bool, a number. *)
Definition not_iterable (v : json) : bool :=
  match v with
  | JNull | JBool _ | JNum _ => true
  | _ => false
  end.

(** A decoded value that is a number. *)
Definition is_number (v : json) : bool :=
  match v with
  | JNum _ => true
  | _ => false
  end.

(** The numeric field [f] of a [ProviderScore]. *)
Definition score_field (f : string) (score : ProviderScore.t json) : option Q :=
  if String.eqb f "completeness" then Some (ProviderScore.completeness score)
  else if String.eqb f "accuracy" then Some (ProviderScore.accuracy score)
  else if String.eqb f "hallucinations" then Some (ProviderScore.hallucinations score)
  else if String.eqb f "citation_quality" then Some (ProviderScore.citation_quality score)
  else if String.eqb f "overall_quality" then Some (ProviderScore.overall_quality score)
  else None.

(** * The panel on decoded values

    [judge_providers] stores the response's "winner" and every entry's
    "provider" as they were decoded, whatever their JSON type, and
    [judge_document] works on what it is handed.  [Decoded] is the panel
    on such results: the functions of [judge_panel.py] once more, with
    Python's [==] and hashing on decoded values where the panel on the
    declared types compares strings. *)

Module Decoded.

Definition completion : Type := (Judge * result (JudgeResult.t json))%type.

Definition _run_judges_parallel (completed : list completion)
  : Dict.t (JudgeResult.t json) :=
  fold_left
    (fun results (c : completion) =>
       match snd c with
       | Returned r => Dict.set results (JudgeResult.judge_name r) r
       | Raised _ => results
       end)
    completed Dict.empty.

(** [hash(v)] succeeds: a [list] or a [dict] is unhashable. *)
Definition hashable (v : json) : bool :=
  match v with
  | JArr _ | JObj _ => false
  | _ => true
  end.

(** [a == b]: [None] equals only [None]; numbers compare by value, with
    [True] as 1 and [False] as 0; a string equals only the same string;
    lists compare element by element, dicts key by key. *)
Fixpoint py_eq (a b : json) {struct a} : bool :=
  match a, b with
  | JNull, JNull => true
  | JBool c, JBool d => Bool.eqb c d
  | JBool c, JNum q => Qeq_bool (if c then 1 else 0) q
  | JNum q, JBool c => Qeq_bool q (if c then 1 else 0)
  | JNum p, JNum q => Qeq_bool p q
  | JStr s, JStr t => String.eqb s t
  | JArr xs, JArr ys =>
      (fix all2 (xs ys : list json) {struct xs} : bool :=
         match xs, ys with
         | [], [] => true
         | x :: xs', y :: ys' => py_eq x y && all2 xs' ys'
         | _, _ => false
         end) xs ys
  | JObj m, JObj n =>
      Nat.eqb (length m) (length n) &&
      (fix all (m : list (string * json)) : bool :=
         match m with
         | [] => true
         | (k, v) :: m' =>
             match Dict.get n k with
             | Some w => py_eq v w
             | None => false
             end && all m'
         end) m
  | _, _ => false
  end.

(** ** Consensus scores *)

Definition append_score (acc : score_lists) (score : ProviderScore.t json)
  : score_lists :=
  {| completeness_scores := completeness_scores acc ++ [ProviderScore.completeness score];
     accuracy_scores := accuracy_scores acc ++ [ProviderScore.accuracy score];
     hallucination_scores := hallucination_scores acc ++ [ProviderScore.hallucinations score];
     citation_scores := citation_scores acc ++ [ProviderScore.citation_quality score];
     overall_scores := overall_scores acc ++ [ProviderScore.overall_quality score] |}.

(** [if score.provider == provider]: [provider] is a key of
    [provider_outputs], a string. *)
Definition collect_scores (provider : string)
  (individual_results : Dict.t (JudgeResult.t json)) : score_lists :=
  fold_left
    (fun acc judge_result =>
       fold_left
         (fun acc score =>
            if py_eq (ProviderScore.provider score) (JStr provider)
            then append_score acc score else acc)
         (JudgeResult.provider_scores judge_result) acc)
    (Dict.values individual_results) no_scores.

Definition _calculate_consensus_scores
  (individual_results : Dict.t (JudgeResult.t json))
  (provider_outputs : provider_outputs_t) : result (Dict.t ConsensusScore.t) :=
  for_each
    (fun consensus_scores provider =>
       let c := collect_scores provider individual_results in
       match completeness_scores c with
       | [] => Returned consensus_scores
       | _ :: _ =>
           score <- make_consensus provider c ;;
           Returned (Dict.set consensus_scores provider score)
       end)
    (Dict.keys provider_outputs) Dict.empty.

(** ** Majority vote

    [winner_votes] is a [dict] whose keys are the winners as decoded: a
    key is found by [==] (so [1], [1.0] and [True] are one key, kept as
    first inserted), and looking up an unhashable winner raises
    [TypeError]. *)

Definition votes_t : Type := list (json * nat).

Fixpoint votes_get (d : votes_t) (k : json) (default : nat) : nat :=
  match d with
  | [] => default
  | (k', v) :: d' => if py_eq k' k then v else votes_get d' k default
  end.

Fixpoint votes_set (d : votes_t) (k : json) (v : nat) : votes_t :=
  match d with
  | [] => [(k, v)]
  | (k', v') :: d' =>
      if py_eq k' k then (k', v) :: d' else (k', v') :: votes_set d' k v
  end.

Definition count_votes (individual_results : Dict.t (JudgeResult.t json))
  : result votes_t :=
  for_each
    (fun winner_votes judge_result =>
       let winner := JudgeResult.winner judge_result in
       if hashable winner
       then Returned (votes_set winner_votes winner
                        (votes_get winner_votes winner 0 + 1))
       else Raised TypeError)
    (Dict.values individual_results) [].

Fixpoint max_from (best : json * nat) (rest : list (json * nat)) : json * nat :=
  match rest with
  | [] => best
  | x :: rest' =>
      if Nat.ltb (snd best) (snd x) then max_from x rest' else max_from best rest'
  end.

Definition max_by_votes (items : list (json * nat)) : result (json * nat) :=
  match items with
  | [] => Raised ValueError
  | x :: rest => Returned (max_from x rest)
  end.

Definition _determine_consensus_winner
  (individual_results : Dict.t (JudgeResult.t json)) : result (json * votes_t) :=
  winner_votes <- count_votes individual_results ;;
  best <- max_by_votes winner_votes ;;
  Returned (fst best, winner_votes).

(** ** Inter-judge agreement *)

Definition overall_vector (r : JudgeResult.t json) : list Q :=
  map (@ProviderScore.overall_quality json) (JudgeResult.provider_scores r).

Definition correlate_pair (individual_results : Dict.t (JudgeResult.t json))
  (judge_names : list string) (i : nat) (correlations : Dict.t R) (j : nat)
  : result (Dict.t R) :=
  let judge1 := nth i judge_names EmptyString in
  let judge2 := nth j judge_names EmptyString in
  r1 <- Dict.getitem individual_results judge1 ;;
  let scores1 := overall_vector r1 in
  r2 <- Dict.getitem individual_results judge2 ;;
  let scores2 := overall_vector r2 in
  if Nat.eqb (length scores1) (length scores2) && Nat.ltb 1 (length scores1)
  then corr <- _pearson_correlation scores1 scores2 ;;
       Returned (Dict.set correlations (pair_key judge1 judge2) corr)
  else Returned correlations.

Definition pairwise_correlations
  (individual_results : Dict.t (JudgeResult.t json)) : result (Dict.t R) :=
  let judge_names := Dict.keys individual_results in
  let n := length judge_names in
  for_each
    (fun correlations i =>
       for_each (correlate_pair individual_results judge_names i)
         (seq (i + 1) (n - (i + 1))) correlations)
    (seq 0 n) Dict.empty.

Definition count_first_winner
  (individual_results : Dict.t (JudgeResult.t json)) : result nat :=
  let values := Dict.values individual_results in
  for_each
    (fun winner_votes_count r =>
       match nth_error values 0 with
       | None => Raised IndexError
       | Some first =>
           if py_eq (JudgeResult.winner r) (JudgeResult.winner first)
           then Returned (winner_votes_count + 1)%nat
           else Returned winner_votes_count
       end)
    values 0%nat.

Definition _calculate_agreement
  (individual_results : Dict.t (JudgeResult.t json))
  (consensus_scores : Dict.t ConsensusScore.t) : result InterJudgeAgreement.t :=
  correlations <- pairwise_correlations individual_results ;;
  average_correlation <-
    match correlations with
    | [] => Returned 0%R
    | _ :: _ => meanR (Dict.values correlations)
    end ;;
  let score_std_dev :=
    fold_left
      (fun d (item : string * ConsensusScore.t) =>
         Dict.set d (fst item) (ConsensusScore.score_variance (snd item)))
      (Dict.items consensus_scores) Dict.empty in
  let total_judges := length individual_results in
  winner_votes_count <- count_first_winner individual_results ;;
  let winner_consensus_pct :=
    if Nat.ltb 0 total_judges
    then (Qnat winner_votes_count / Qnat total_judges * 100)%Q
    else 0%Q in
  Returned
    {| InterJudgeAgreement.pearson_correlation := correlations;
       InterJudgeAgreement.average_correlation := average_correlation;
       InterJudgeAgreement.score_std_dev_per_provider := score_std_dev;
       InterJudgeAgreement.winner_consensus_percentage := winner_consensus_pct;
       InterJudgeAgreement.confidence_level :=
         confidence average_correlation winner_consensus_pct |}.

(** ** [judge_document] *)

Module PanelResult.
Record t : Type := mk {
  document_name : string;
  timestamp : string;
  judges_used : list string;
  individual_results : Dict.t (JudgeResult.t json);
  consensus_method : string;
  consensus_scores : Dict.t ConsensusScore.t;
  consensus_winner : json;
  winner_votes : votes_t;
  agreement : InterJudgeAgreement.t;
  total_cost : Q;
  total_thinking_tokens : Q
}.
End PanelResult.

Definition judge_document (completed : list completion) (now : string)
  (document_name : string) (provider_outputs : provider_outputs_t)
  : result PanelResult.t :=
  let individual_results := _run_judges_parallel completed in
  consensus_scores <- _calculate_consensus_scores individual_results provider_outputs ;;
  wv <- _determine_consensus_winner individual_results ;;
  agreement <- _calculate_agreement individual_results consensus_scores ;;
  let total_cost :=
    Qsum (map (@JudgeResult.cost json) (Dict.values individual_results)) in
  let total_thinking_tokens :=
    Qsum (map (@JudgeResult.thinking_tokens json) (Dict.values individual_results)) in
  Returned
    {| PanelResult.document_name := document_name;
       PanelResult.timestamp := now;
       PanelResult.judges_used :=
         map (@JudgeResult.judge_name json) (Dict.values individual_results);
       PanelResult.individual_results := individual_results;
       PanelResult.consensus_method := "median_scores_majority_winner";
       PanelResult.consensus_scores := consensus_scores;
       PanelResult.consensus_winner := fst wv;
       PanelResult.winner_votes := snd wv;
       PanelResult.agreement := agreement;
       PanelResult.total_cost := total_cost;
       PanelResult.total_thinking_tokens := total_thinking_tokens |}.

(** ** Vocabulary *)

(** The results of the judges that returned, in the order they arrived. *)
Definition survivors (completed : list completion) : list (JudgeResult.t json) :=
  flat_map
    (fun c : completion =>
       match snd c with
       | Returned r => [r]
       | Raised _ => []
       end)
    completed.

Definition succeeded (c : completion) : bool :=
  match snd c with
  | Returned _ => true
  | Raised _ => false
  end.

(** Every judge class is submitted once, and a result carries the name
    its class writes. *)
Definition dispatched (completed : list completion) : Prop :=
  NoDup (map fst completed) /\
  Forall
    (fun c : completion =>
       forall r, snd c = Returned r ->
                 JudgeResult.judge_name r = judge_name_of (fst c))
    completed.

Definition name_of : JudgeResult.t json -> string := @JudgeResult.judge_name json.

(** A result filed under its judge name, as [results[result.judge_name]]. *)
Definition filed (r : JudgeResult.t json) : string * JudgeResult.t json :=
  (name_of r, r).

End Decoded.

(** * [_pearson_correlation] on doubles

    The embedding over exact numbers leaves rounding and range out.
    [Binary64] is [_pearson_correlation] once more with Python floats as
    IEEE 754 binary64 numbers: [+], [-], [*] and [/] round to nearest
    and, except for the division by zero, never raise; [**] is CPython's
    float power, which settles the special cases itself and calls the C
    library's [pow] otherwise, raising [OverflowError] when the result
    is infinite.  [statistics.mean] and [pow] are library code and
    taken as parameters. *)

Module Binary64.
Import PrimFloat.

(** What an expression of the function evaluates to: a float, or the
    complex number that [d ** 0.5] is for a negative [d]. *)
Inductive number : Set :=
| AFloat (f : float)
| AComplex.

(** [sum(...)] of floats: from the left, starting at 0.  (The
    compensated sum of Python 3.12 gives the same float wherever every
    addition is exact.) *)
Definition fsum (xs : list float) : float := fold_left add xs 0%float.

Section Pearson.

(** [statistics.mean] *)
Variable statistics_mean : list float -> result float.
(** [pow] of the C library *)
Variable libm_pow : float -> float -> float.

(** [v ** w] once CPython has settled nan, the infinities and zero: the
    library is called on the absolute value, and 1.0 is not passed on. *)
Definition pow_of_positive (a w : float) : result float :=
  if eqb a 1 then Returned 1%float
  else let r := libm_pow a w in
       if is_infinity r then Raised OverflowError else Returned r.

(** [v ** 2] *)
Definition square (v : float) : result float :=
  if is_nan v then Returned v
  else if is_infinity v then Returned infinity
  else if eqb v 0 then Returned 0%float
  else pow_of_positive (abs v) 2.

(** [v ** 0.5] *)
Definition root (v : float) : result number :=
  if is_nan v then Returned (AFloat v)
  else if is_infinity v then Returned (AFloat infinity)
  else if eqb v 0 then Returned (AFloat 0)
  else if ltb v 0 then Returned AComplex
  else r <- pow_of_positive v 0.5 ;; Returned (AFloat r).

(** [a / b] *)
Definition divide (a : float) (b : number) : result number :=
  match b with
  | AFloat f => if eqb f 0 then Raised ZeroDivisionError
                else Returned (AFloat (div a f))
  | AComplex => Returned AComplex
  end.

(** [sum(d ** 2 for d in ds)] *)
Definition sum_of_squares (ds : list float) : result float :=
  for_each (fun total d => s <- square d ;; Returned (add total s)) ds 0%float.

Definition _pearson_correlation (x y : list float) : result number :=
  if negb (Nat.eqb (length x) (length y)) || Nat.ltb (length x) 2
  then Returned (AFloat 0)
  else
    let n := length x in
    mean_x <- statistics_mean x ;;
    mean_y <- statistics_mean y ;;
    let numerator :=
      fsum (map (fun i => mul (sub (nth i x 0%float) mean_x)
                              (sub (nth i y 0%float) mean_y)) (seq 0 n)) in
    denominator_x <-
      sum_of_squares (map (fun i => sub (nth i x 0%float) mean_x) (seq 0 n)) ;;
    denominator_y <-
      sum_of_squares (map (fun i => sub (nth i y 0%float) mean_y) (seq 0 n)) ;;
    if eqb denominator_x 0 || eqb denominator_y 0
    then Returned (AFloat 0)
    else r <- root (mul denominator_x denominator_y) ;;
         divide numerator r.

End Pearson.

(** Two identical score lists, neither constant: 0.0 and 2^-332 (about
    1.14e-100). *)
Definition tiny_scores : list float := [0%float; 0x1p-332%float].

(** A [statistics.mean], and a [pow] for the exponents 2 and 0.5, that
    round to nearest. *)
Definition rounded_mean (xs : list float) : result float :=
  match xs with
  | [] => Raised StatisticsError
  | _ => Returned (div (fsum xs)
                     (fold_left (fun n _ => add n 1%float) xs 0%float))
  end.

Definition rounded_pow (v w : float) : float :=
  if eqb w 2 then mul v v else sqrt v.

End Binary64.

(** A result of the declared types as the decoded values it is made of. *)
Definition as_decoded_score (s : Score) : ProviderScore.t json :=
  {| ProviderScore.provider := JStr (ProviderScore.provider s);
     ProviderScore.document_name := ProviderScore.document_name s;
     ProviderScore.completeness := ProviderScore.completeness s;
     ProviderScore.accuracy := ProviderScore.accuracy s;
     ProviderScore.hallucinations := ProviderScore.hallucinations s;
     ProviderScore.citation_quality := ProviderScore.citation_quality s;
     ProviderScore.overall_quality := ProviderScore.overall_quality s;
     ProviderScore.reasoning := JStr (ProviderScore.reasoning s);
     ProviderScore.event_count := ProviderScore.event_count s |}.

Definition as_decoded (r : Judged) : JudgeResult.t json :=
  {| JudgeResult.judge_name := JudgeResult.judge_name r;
     JudgeResult.model := JudgeResult.model r;
     JudgeResult.document_name := JudgeResult.document_name r;
     JudgeResult.provider_scores := map as_decoded_score (JudgeResult.provider_scores r);
     JudgeResult.winner := JStr (JudgeResult.winner r);
     JudgeResult.timestamp := JudgeResult.timestamp r;
     JudgeResult.cost := JudgeResult.cost r;
     JudgeResult.thinking_tokens := JudgeResult.thinking_tokens r |}.

(** The Claude judge raises; the other two return. *)
Definition decoded_one_failed : list Decoded.completion :=
  [(GeminiProJudge, Returned (as_decoded gemini_result));
   (ClaudeOpusJudge, Raised APIError);
   (GPT5Judge, Returned (as_decoded gpt5_result))].

(** A response that reports a tie as a list of two winners. *)
Definition response_with_two_winners : json :=
  JObj [("providers", JArr [example_entry "A" 9; example_entry "B" 9]);
        ("winner", JArr [JStr "A"; JStr "B"])]%string.

(** A judge that lists provider A twice, with different scores. *)
Definition listed_twice_result : Judged :=
  example_result GPT5Judge
    [example_score "A" 2 9 10 8 4;
     example_score "A" 10 9 10 8 8;
     example_score "B" 7 8 9 8 7] "A".

(** That judge returns; the Claude judge raises. *)
Definition example_listed_twice : list completion :=
  [(GPT5Judge, Returned listed_twice_result);
   (ClaudeOpusJudge, Raised APIError)].

(** [f] on what a call returned; an exception stays. *)
Definition map_result {A B : Type} (f : A -> B) (c : result A) : result B :=
  match c with
  | Returned a => Returned (f a)
  | Raised e => Raised e
  end.

Definition as_decoded_completion (c : completion) : Decoded.completion :=
  (fst c, map_result as_decoded (snd c)).

Definition as_decoded_entry (kv : string * Judged) : string * JudgeResult.t json :=
  (fst kv, as_decoded (snd kv)).

Definition as_decoded_vote (kv : string * nat) : json * nat :=
  (JStr (fst kv), snd kv).

Definition as_decoded_panel (pr : PanelResult.t) : Decoded.PanelResult.t :=
  {| Decoded.PanelResult.document_name := PanelResult.document_name pr;
     Decoded.PanelResult.timestamp := PanelResult.timestamp pr;
     Decoded.PanelResult.judges_used := PanelResult.judges_used pr;
     Decoded.PanelResult.individual_results :=
       map as_decoded_entry (PanelResult.individual_results pr);
     Decoded.PanelResult.consensus_method := PanelResult.consensus_method pr;
     Decoded.PanelResult.consensus_scores := PanelResult.consensus_scores pr;
     Decoded.PanelResult.consensus_winner := JStr (PanelResult.consensus_winner pr);
     Decoded.PanelResult.winner_votes :=
       map as_decoded_vote (PanelResult.winner_votes pr);
     Decoded.PanelResult.agreement := PanelResult.agreement pr;
     Decoded.PanelResult.total_cost := PanelResult.total_cost pr;
     Decoded.PanelResult.total_thinking_tokens :=
       PanelResult.total_thinking_tokens pr |}.

(** * Properties *)

(** ** Sequencing and loops *)

Lemma bind_returned {A B : Type} (c : result A) (k : A -> result B) (b : B) :
  bind c k = Returned b -> exists a, c = Returned a /\ k a = Returned b.
Proof.
  destruct c as [a|e]; simpl; intros H; [exists a; auto | discriminate].
Qed.

(** A loop whose body keeps an invariant and never raises runs to its end. *)
Lemma for_each_invariant {A St : Type} (P : St -> Prop)
  (body : St -> A -> result St) (xs : list A) :
  (forall s x, In x xs -> P s -> exists s', body s x = Returned s' /\ P s') ->
  forall s, P s -> exists s', for_each body xs s = Returned s' /\ P s'.
Proof.
  induction xs as [|x xs IH]; intros Hbody s Hs; simpl.
  - exists s; auto.
  - destruct (Hbody s x (or_introl eq_refl) Hs) as [s1 [E1 H1]].
    rewrite E1; simpl. apply IH; auto.
    intros s0 y Hy; apply Hbody; right; exact Hy.
Qed.

Lemma for_each_app {A St : Type} (body : St -> A -> result St) (xs ys : list A) s :
  for_each body (xs ++ ys) s = (s' <- for_each body xs s ;; for_each body ys s').
Proof.
  revert s; induction xs as [|x xs IH]; intros s; simpl; auto.
  destruct (body s x); simpl; auto.
Qed.

(** A loop whose body cannot raise is a left fold. *)
Lemma for_each_total {A St : Type} (f : St -> A -> St) (xs : list A) s :
  for_each (fun s x => Returned (f s x)) xs s = Returned (fold_left f xs s).
Proof.
  revert s; induction xs as [|x xs IH]; intros s; simpl; auto.
Qed.

Lemma for_each_ext {A St : Type} (f g : St -> A -> result St) (xs : list A) s :
  (forall s x, In x xs -> f s x = g s x) -> for_each f xs s = for_each g xs s.
Proof.
  revert s; induction xs as [|x xs IH]; intros s H; simpl; auto.
  rewrite (H s x (or_introl eq_refl)).
  destruct (g s x); simpl; auto.
  apply IH; intros; apply H; right; auto.
Qed.

(** ** Dictionaries *)

Module DictFacts.

Lemma get_set_same {V : Type} (d : Dict.t V) k v :
  Dict.get (Dict.set d k v) k = Some v.
Proof.
  induction d as [|[k' v'] d IH]; simpl.
  - now rewrite String.eqb_refl.
  - destruct (String.eqb k' k) eqn:E; simpl; rewrite E; auto.
Qed.

Lemma get_set_other {V : Type} (d : Dict.t V) k k' v :
  k <> k' -> Dict.get (Dict.set d k v) k' = Dict.get d k'.
Proof.
  intros Hne; induction d as [|[k0 v0] d IH]; simpl.
  - destruct (String.eqb k k') eqn:E; auto.
    apply String.eqb_eq in E; contradiction.
  - destruct (String.eqb k0 k) eqn:E; simpl.
    + apply String.eqb_eq in E; subst k0.
      destruct (String.eqb k k') eqn:E'; auto.
      apply String.eqb_eq in E'; contradiction.
    + rewrite IH; auto.
Qed.

Lemma get_none_not_in {V : Type} (d : Dict.t V) k :
  Dict.get d k = None <-> ~ In k (Dict.keys d).
Proof.
  induction d as [|[k' v'] d IH]; simpl.
  - tauto.
  - destruct (String.eqb k' k) eqn:E.
    + apply String.eqb_eq in E; subst. split; [discriminate | tauto].
    + apply String.eqb_neq in E. rewrite IH. tauto.
Qed.

Lemma get_some_in {V : Type} (d : Dict.t V) k v :
  Dict.get d k = Some v -> In (k, v) d.
Proof.
  induction d as [|[k' v'] d IH]; simpl; [discriminate|].
  destruct (String.eqb k' k) eqn:E.
  - apply String.eqb_eq in E; subst. intros [= ->]; auto.
  - auto.
Qed.

Lemma in_keys_get {V : Type} (d : Dict.t V) k :
  In k (Dict.keys d) -> exists v, Dict.get d k = Some v.
Proof.
  intros H. destruct (Dict.get d k) eqn:E; eauto.
  apply get_none_not_in in E; contradiction.
Qed.

Lemma in_get {V : Type} (d : Dict.t V) k v :
  NoDup (Dict.keys d) -> In (k, v) d -> Dict.get d k = Some v.
Proof.
  induction d as [|[k' v'] d IH]; simpl; [tauto|].
  intros Hnd [H|H].
  - inversion H; subst. now rewrite String.eqb_refl.
  - inversion Hnd as [|? ? Hnotin Hnd']; subst.
    destruct (String.eqb k' k) eqn:E; auto.
    apply String.eqb_eq in E; subst.
    exfalso; apply Hnotin. unfold Dict.keys. change k with (fst (k, v)).
    now apply in_map.
Qed.

(** A new key is appended. *)
Lemma set_fresh {V : Type} (d : Dict.t V) k v :
  ~ In k (Dict.keys d) -> Dict.set d k v = d ++ [(k, v)].
Proof.
  induction d as [|[k' v'] d IH]; simpl; auto.
  intros H. destruct (String.eqb k' k) eqn:E.
  - apply String.eqb_eq in E; subst; tauto.
  - rewrite IH; auto.
Qed.

Lemma keys_set_fresh {V : Type} (d : Dict.t V) k v :
  ~ In k (Dict.keys d) -> Dict.keys (Dict.set d k v) = Dict.keys d ++ [k].
Proof.
  intros H. rewrite set_fresh by auto. unfold Dict.keys. now rewrite map_app.
Qed.

(** An existing key keeps its place. *)
Lemma keys_set_present {V : Type} (d : Dict.t V) k v :
  In k (Dict.keys d) -> Dict.keys (Dict.set d k v) = Dict.keys d.
Proof.
  induction d as [|[k' v'] d IH]; simpl; [tauto|].
  intros H. destruct (String.eqb k' k) eqn:E; simpl; auto.
  f_equal. apply IH. destruct H as [H|H]; auto.
  apply String.eqb_neq in E; contradiction.
Qed.

Lemma set_nonempty {V : Type} (d : Dict.t V) k v : Dict.set d k v <> [].
Proof.
  destruct d as [|[k' v'] d]; simpl; [discriminate|].
  destruct (String.eqb k' k); discriminate.
Qed.

Lemma keys_set_nodup {V : Type} (d : Dict.t V) k v :
  NoDup (Dict.keys d) -> NoDup (Dict.keys (Dict.set d k v)).
Proof.
  intros H. destruct (in_dec string_dec k (Dict.keys d)) as [Hin|Hin].
  - now rewrite keys_set_present.
  - rewrite keys_set_fresh by auto.
    apply NoDup_app; auto.
    + constructor; [simpl; tauto | constructor].
    + intros x Hx [<-|[]]; contradiction.
Qed.

End DictFacts.

(** ** Running the judges *)

Lemma judge_name_of_inj (a b : Judge) :
  judge_name_of a = judge_name_of b -> a = b.
Proof. destruct a, b; simpl; intros H; try reflexivity; discriminate. Qed.

Lemma run_judges_survivors (completed : list completion) :
  _run_judges_parallel completed =
  fold_left (fun d r => Dict.set d (name_of r) r) (survivors completed) Dict.empty.
Proof.
  unfold _run_judges_parallel. generalize (@Dict.empty Judged).
  induction completed as [|[j o] cs IH]; intros d; simpl; auto.
  destruct o as [r|e]; simpl; apply IH.
Qed.

Lemma fold_set_fresh (rs : list Judged) (d : Dict.t Judged) :
  NoDup (Dict.keys d ++ map name_of rs) ->
  fold_left (fun d r => Dict.set d (name_of r) r) rs d =
  d ++ map (fun r => (name_of r, r)) rs.
Proof.
  revert d; induction rs as [|r rs IH]; intros d Hnd; simpl.
  - now rewrite app_nil_r.
  - assert (Hfresh : ~ In (name_of r) (Dict.keys d)).
    { intros Hin. apply NoDup_remove_2 in Hnd. apply Hnd.
      apply in_or_app; left; exact Hin. }
    rewrite DictFacts.set_fresh by exact Hfresh.
    rewrite IH.
    + now rewrite <- app_assoc.
    + unfold Dict.keys in *. rewrite map_app; simpl.
      rewrite <- app_assoc; simpl. exact Hnd.
Qed.

Lemma survivors_names (completed : list completion) :
  dispatched completed -> NoDup (map name_of (survivors completed)).
Proof.
  intros [Hnd Hnames].
  induction completed as [|[j o] cs IH]; simpl; [constructor|].
  inversion Hnd as [|? ? Hnotin Hnd']; subst.
  inversion Hnames as [|? ? Hname Hnames']; subst.
  destruct o as [r|e]; simpl; auto.
  constructor; auto.
  intros Hin. apply Hnotin.
  clear - Hin Hname Hnames'.
  specialize (Hname r eq_refl). simpl in Hname.
  induction cs as [|[j' o'] cs IH]; simpl in *; [contradiction|].
  inversion Hnames' as [|? ? Hn' Hns']; subst.
  destruct o' as [r'|e']; simpl in *; auto.
  destruct Hin as [Hin|Hin]; auto.
  left. specialize (Hn' r' eq_refl). simpl in Hn'.
  unfold name_of in *. apply judge_name_of_inj. congruence.
Qed.

(** With every judge dispatched once, [individual_results] lists the
    surviving results in arrival order under their judges' names. *)
Lemma run_judges_dispatched (completed : list completion) :
  dispatched completed ->
  _run_judges_parallel completed =
  map (fun r => (name_of r, r)) (survivors completed).
Proof.
  intros H. rewrite run_judges_survivors.
  rewrite fold_set_fresh; auto.
  simpl. now apply survivors_names.
Qed.

Lemma run_judges_values (completed : list completion) :
  dispatched completed ->
  Dict.values (_run_judges_parallel completed) = survivors completed.
Proof.
  intros H. rewrite run_judges_dispatched by exact H.
  unfold Dict.values. rewrite map_map. simpl. apply map_id.
Qed.

Lemma run_judges_keys (completed : list completion) :
  dispatched completed ->
  Dict.keys (_run_judges_parallel completed) = map name_of (survivors completed).
Proof.
  intros H. rewrite run_judges_dispatched by exact H.
  unfold Dict.keys. now rewrite map_map.
Qed.

Lemma run_judges_nodup (completed : list completion) :
  NoDup (Dict.keys (_run_judges_parallel completed)).
Proof.
  rewrite run_judges_survivors. generalize (survivors completed).
  assert (H : NoDup (Dict.keys (@Dict.empty Judged))) by constructor.
  revert H. generalize (@Dict.empty Judged).
  intros d Hd l; revert d Hd.
  induction l as [|r l IH]; intros d Hd; simpl; auto.
  apply IH. now apply DictFacts.keys_set_nodup.
Qed.

Lemma run_judges_empty (completed : list completion) :
  survivors completed = [] -> _run_judges_parallel completed = [].
Proof. intros H. rewrite run_judges_survivors, H. reflexivity. Qed.

Lemma run_judges_nonempty (completed : list completion) :
  survivors completed <> [] -> _run_judges_parallel completed <> [].
Proof.
  rewrite run_judges_survivors.
  destruct (survivors completed) as [|r rs] using rev_ind; [congruence|].
  intros _. rewrite fold_left_app. simpl. apply DictFacts.set_nonempty.
Qed.

(** ** Median and standard deviation *)

Lemma insert_length (x : Q) (l : list Q) : length (insert x l) = S (length l).
Proof.
  induction l as [|y l IH]; simpl; auto.
  destruct (Qle_bool y x); simpl; auto.
Qed.

Lemma sorted_length (xs : list Q) : length (sorted xs) = length xs.
Proof.
  unfold sorted.
  assert (H : forall acc, length (fold_left (fun acc x => insert x acc) xs acc)
                          = (length acc + length xs)%nat).
  { induction xs as [|x xs IH]; intros acc; simpl; [lia|].
    rewrite IH, insert_length. lia. }
  now rewrite H.
Qed.

Lemma median_returns (xs : list Q) : xs <> [] -> returns (median xs).
Proof.
  intros H. unfold median, returns. rewrite sorted_length.
  destruct xs as [|x xs]; [congruence|]. simpl length.
  cbv beta iota zeta. change (Nat.eqb (S (length xs)) 0) with false.
  cbv iota.
  destruct (Nat.eqb (S (length xs) mod 2) 1); eexists; reflexivity.
Qed.

Lemma median_raises_empty : median [] = Raised StatisticsError.
Proof. reflexivity. Qed.

Lemma stdev_or_zero_spec (xs : list Q) :
  xs <> [] -> stdev_or_zero xs = Returned (spread xs).
Proof.
  intros H. unfold stdev_or_zero, stdev, spread.
  destruct xs as [|a [|b xs]]; [congruence| reflexivity | reflexivity].
Qed.

(** ** Gathering a provider's scores *)

Lemma append_score_lists_of (ss : list Score) (s : Score) :
  append_score (lists_of ss) s = lists_of (ss ++ [s]).
Proof. unfold append_score, lists_of; simpl. now rewrite !map_app. Qed.

Lemma collect_inner (p : string) (scores pre : list Score) :
  fold_left
    (fun acc score =>
       if String.eqb (ProviderScore.provider score) p
       then append_score acc score else acc)
    scores (lists_of pre)
  = lists_of (pre ++ filter (scores_provider p) scores).
Proof.
  revert pre; induction scores as [|s scores IH]; intros pre; simpl.
  - now rewrite app_nil_r.
  - unfold scores_provider at 1.
    destruct (String.eqb (ProviderScore.provider s) p).
    + rewrite append_score_lists_of, IH. now rewrite <- app_assoc.
    + apply IH.
Qed.

Lemma collect_scores_entries (p : string) (individual_results : Dict.t Judged) :
  collect_scores p individual_results
  = lists_of (entries_for p (Dict.values individual_results)).
Proof.
  unfold collect_scores. change no_scores with (lists_of []).
  change (entries_for p (Dict.values individual_results))
    with ([] ++ entries_for p (Dict.values individual_results)).
  generalize (@nil Score).
  induction (Dict.values individual_results) as [|r rs IH]; intros pre; simpl.
  - now rewrite app_nil_r.
  - rewrite collect_inner, IH. now rewrite <- app_assoc.
Qed.

Lemma filter_once {A : Type} (f : A -> bool) (g : A -> Q) (ss : list A) :
  (length (filter f ss) <= 1)%nat ->
  map g (filter f ss) =
  if existsb f ss
  then [match find f ss with Some s => g s | None => 0%Q end]
  else [].
Proof.
  induction ss as [|s ss IH]; simpl; auto.
  destruct (f s) eqn:E; simpl; auto.
  intros H. f_equal.
  destruct (filter f ss); simpl in *; [reflexivity | lia].
Qed.

Lemma entries_once (criterion : Score -> Q) (p : string) (rs : list Judged) :
  Forall (scores_once p) rs ->
  map criterion (entries_for p rs) = map (judge_value criterion p) (scorers p rs).
Proof.
  induction 1 as [|r rs Hr Hrs IH]; simpl; auto.
  rewrite map_app, IH, (filter_once _ criterion _ Hr).
  unfold scored_by, judge_value.
  destruct (existsb (scores_provider p) (JudgeResult.provider_scores r));
    reflexivity.
Qed.

Lemma entries_none (p : string) (rs : list Judged) :
  scorers p rs = [] <-> entries_for p rs = [].
Proof.
  induction rs as [|r rs IH]; simpl; [tauto|].
  unfold scored_by at 1.
  assert (Hex : existsb (scores_provider p) (JudgeResult.provider_scores r) = false
                <-> filter (scores_provider p) (JudgeResult.provider_scores r) = []).
  { induction (JudgeResult.provider_scores r) as [|s ss IHs]; simpl; [tauto|].
    destruct (scores_provider p s); simpl; [split; discriminate | exact IHs]. }
  destruct (existsb (scores_provider p) (JudgeResult.provider_scores r)) eqn:E.
  - split; [discriminate|]. intros H. apply app_eq_nil in H.
    destruct H as [H _]. apply Hex in H. discriminate.
  - rewrite IH. destruct Hex as [Hex _]. rewrite (Hex eq_refl). simpl. tauto.
Qed.

(** ** Consensus scores *)

Lemma make_consensus_spec (p : string) (ss : list Score) :
  ss <> [] ->
  exists c,
    make_consensus p (lists_of ss) = Returned c /\
    ConsensusScore.provider c = p /\
    median (map (@ProviderScore.completeness string) ss)
      = Returned (ConsensusScore.completeness c) /\
    median (map (@ProviderScore.accuracy string) ss)
      = Returned (ConsensusScore.accuracy c) /\
    median (map (@ProviderScore.hallucinations string) ss)
      = Returned (ConsensusScore.hallucinations c) /\
    median (map (@ProviderScore.citation_quality string) ss)
      = Returned (ConsensusScore.citation_quality c) /\
    median (map (@ProviderScore.overall_quality string) ss)
      = Returned (ConsensusScore.overall_quality c) /\
    ConsensusScore.score_variance c =
      [("completeness", spread (map (@ProviderScore.completeness string) ss));
       ("accuracy", spread (map (@ProviderScore.accuracy string) ss));
       ("hallucinations", spread (map (@ProviderScore.hallucinations string) ss));
       ("citation_quality", spread (map (@ProviderScore.citation_quality string) ss));
       ("overall_quality", spread (map (@ProviderScore.overall_quality string) ss))]%string.
Proof.
  intros H.
  assert (Hne : forall f : Score -> Q, map f ss <> []).
  { intros f E. apply map_eq_nil in E. contradiction. }
  unfold make_consensus, lists_of.
  cbn [completeness_scores accuracy_scores hallucination_scores
       citation_scores overall_scores].
  destruct (median_returns (Hne (@ProviderScore.completeness string))) as [m1 E1].
  destruct (median_returns (Hne (@ProviderScore.accuracy string))) as [m2 E2].
  destruct (median_returns (Hne (@ProviderScore.hallucinations string))) as [m3 E3].
  destruct (median_returns (Hne (@ProviderScore.citation_quality string))) as [m4 E4].
  destruct (median_returns (Hne (@ProviderScore.overall_quality string))) as [m5 E5].
  rewrite E1, E2, E3, E4, E5. cbn [bind].
  rewrite !stdev_or_zero_spec by apply Hne. cbn [bind].
  eexists; split; [reflexivity|]. cbn. repeat split; reflexivity.
Qed.

Lemma consensus_for_some (p : string) (rs : list Judged) :
  entries_for p rs <> [] ->
  exists c, consensus_for p rs = Some c /\
            make_consensus p (lists_of (entries_for p rs)) = Returned c.
Proof.
  intros H. unfold consensus_for.
  destruct (make_consensus_spec p H) as [c [E _]].
  rewrite E. destruct (entries_for p rs); [congruence|]. eauto.
Qed.

Lemma member_In (p : string) (l : list string) : member p l = true <-> In p l.
Proof.
  unfold member. rewrite existsb_exists. split.
  - intros [x [Hx E]]. apply String.eqb_eq in E. now subst.
  - intros H. exists p. split; auto. apply String.eqb_refl.
Qed.

Lemma consensus_loop (individual_results : Dict.t Judged)
  (providers : list string) (acc : Dict.t ConsensusScore.t) :
  exists cs,
    for_each
      (fun consensus_scores provider =>
         let c := collect_scores provider individual_results in
         match completeness_scores c with
         | [] => Returned consensus_scores
         | _ :: _ =>
             score <- make_consensus provider c ;;
             Returned (Dict.set consensus_scores provider score)
         end)
      providers acc = Returned cs /\
    forall p,
      Dict.get cs p =
      match (if member p providers
             then consensus_for p (Dict.values individual_results) else None) with
      | Some c => Some c
      | None => Dict.get acc p
      end.
Proof.
  revert acc; induction providers as [|k ks IH]; intros acc.
  - exists acc; split; [reflexivity|]. intros p; reflexivity.
  - cbn [for_each]. cbv zeta. rewrite collect_scores_entries.
    destruct (entries_for k (Dict.values individual_results)) as [|s ss] eqn:E.
    + cbn [lists_of completeness_scores map bind].
      destruct (IH acc) as [cs [Ecs Hget]].
      exists cs; split; [exact Ecs|].
      intros p. rewrite Hget. unfold member; cbn [existsb]; fold (member p ks).
      destruct (String.eqb p k) eqn:Epk; cbn [orb]; auto.
      apply String.eqb_eq in Epk; subst p.
      unfold consensus_for at 2. rewrite E.
      destruct (member k ks); auto.
      unfold consensus_for. now rewrite E.
    + assert (Hne : entries_for k (Dict.values individual_results) <> [])
        by (rewrite E; discriminate).
      destruct (consensus_for_some k _ Hne) as [c [Ec Em]].
      rewrite E in Em.
      cbn [lists_of completeness_scores map].
      change (make_consensus k
                {| completeness_scores :=
                     ProviderScore.completeness s
                     :: map (@ProviderScore.completeness string) ss;
                   accuracy_scores := map (@ProviderScore.accuracy string) (s :: ss);
                   hallucination_scores :=
                     map (@ProviderScore.hallucinations string) (s :: ss);
                   citation_scores :=
                     map (@ProviderScore.citation_quality string) (s :: ss);
                   overall_scores :=
                     map (@ProviderScore.overall_quality string) (s :: ss) |})
        with (make_consensus k (lists_of (s :: ss))).
      rewrite Em. cbn [bind].
      destruct (IH (Dict.set acc k c)) as [cs [Ecs Hget]].
      exists cs; split; [exact Ecs|].
      intros p. rewrite Hget. unfold member; cbn [existsb]; fold (member p ks).
      destruct (String.eqb p k) eqn:Epk; cbn [orb].
      * apply String.eqb_eq in Epk; subst p. rewrite Ec.
        destruct (member k ks); [reflexivity|].
        apply DictFacts.get_set_same.
      * apply String.eqb_neq in Epk.
        rewrite DictFacts.get_set_other by congruence. reflexivity.
Qed.

Lemma calculate_consensus_scores_spec (individual_results : Dict.t Judged)
  (provider_outputs : provider_outputs_t) :
  exists cs,
    _calculate_consensus_scores individual_results provider_outputs = Returned cs /\
    forall p,
      Dict.get cs p =
      if member p (Dict.keys provider_outputs)
      then consensus_for p (Dict.values individual_results) else None.
Proof.
  destruct (consensus_loop individual_results (Dict.keys provider_outputs) Dict.empty)
    as [cs [E H]].
  exists cs; split; [exact E|].
  intros p. rewrite H.
  destruct (member p (Dict.keys provider_outputs)); auto.
  destruct (consensus_for p (Dict.values individual_results)); auto.
Qed.

(** ** Votes *)

Lemma count_votes_tally (individual_results : Dict.t Judged) :
  count_votes individual_results
  = tally (map winner_of (Dict.values individual_results)) Dict.empty.
Proof.
  unfold count_votes, tally. generalize (@Dict.empty nat).
  induction (Dict.values individual_results) as [|r rs IH]; intros d; simpl; auto.
Qed.

Lemma tally_get (ws : list string) (acc : Dict.t nat) (p : string) :
  Dict.get (tally ws acc) p =
  match Dict.get acc p with
  | Some n => Some (n + votes_for p ws)
  | None => if Nat.eqb (votes_for p ws) 0 then None else Some (votes_for p ws)
  end.
Proof.
  revert acc; induction ws as [|w ws IH]; intros acc.
  - simpl. destruct (Dict.get acc p); auto; f_equal; lia.
  - change (tally (w :: ws) acc)
      with (tally ws (Dict.set acc w (Dict.get_default acc w 0 + 1))).
    rewrite IH. unfold votes_for. simpl count_occ.
    destruct (string_dec w p) as [->|Hne].
    + rewrite DictFacts.get_set_same. unfold Dict.get_default.
      destruct (Dict.get acc p); simpl; f_equal; lia.
    + rewrite DictFacts.get_set_other by exact Hne. reflexivity.
Qed.

Lemma tally_get_empty (ws : list string) (p : string) :
  Dict.get (tally ws Dict.empty) p =
  if Nat.eqb (votes_for p ws) 0 then None else Some (votes_for p ws).
Proof. now rewrite tally_get. Qed.

Lemma filter_filter_neq (w : string) (f : string -> bool) (l : list string) :
  f w = false ->
  filter f (filter (fun x => negb (String.eqb x w)) l) = filter f l.
Proof.
  intros Hw. induction l as [|x l IH]; simpl; auto.
  destruct (String.eqb x w) eqn:E; simpl.
  - apply String.eqb_eq in E; subst. now rewrite Hw.
  - destruct (f x); simpl; now rewrite IH.
Qed.

Lemma tally_keys (ws : list string) (acc : Dict.t nat) :
  Dict.keys (tally ws acc) =
  Dict.keys acc
  ++ filter (fun x => negb (member x (Dict.keys acc))) (first_occurrences ws).
Proof.
  revert acc; induction ws as [|w ws IH]; intros acc.
  - simpl. now rewrite app_nil_r.
  - change (tally (w :: ws) acc)
      with (tally ws (Dict.set acc w (Dict.get_default acc w 0 + 1))).
    rewrite IH. cbn [first_occurrences filter].
    destruct (member w (Dict.keys acc)) eqn:Hm; cbn [negb].
    + rewrite DictFacts.keys_set_present by (now apply member_In).
      f_equal. symmetry. apply filter_filter_neq. now rewrite Hm.
    + assert (Hnot : ~ In w (Dict.keys acc)).
      { intros Hin. apply member_In in Hin. congruence. }
      rewrite DictFacts.keys_set_fresh by exact Hnot.
      rewrite <- app_assoc. cbn [app]. do 2 f_equal.
      clear IH. induction (first_occurrences ws) as [|x l IHl]; simpl; auto.
      unfold member at 1. rewrite existsb_app. cbn [existsb]. rewrite orb_false_r.
      fold (member x (Dict.keys acc)).
      destruct (String.eqb x w) eqn:E; cbn [negb].
      * rewrite orb_true_r. cbn [negb]. exact IHl.
      * rewrite orb_false_r. cbn [filter].
        destruct (member x (Dict.keys acc)); cbn [negb]; now rewrite IHl.
Qed.

Lemma tally_keys_empty (ws : list string) :
  Dict.keys (tally ws Dict.empty) = first_occurrences ws.
Proof.
  rewrite tally_keys. simpl.
  induction (first_occurrences ws) as [|x l IH]; simpl; auto. now rewrite IH.
Qed.

Lemma filter_split {A : Type} (f : A -> bool) (l k1 k2 : list A) (a : A) :
  filter f l = k1 ++ a :: k2 ->
  exists l1 l2, l = l1 ++ a :: l2 /\ filter f l1 = k1 /\ filter f l2 = k2.
Proof.
  revert k1; induction l as [|x l IH]; intros k1 H; simpl in H.
  - destruct k1; discriminate.
  - destruct (f x) eqn:E.
    + destruct k1 as [|y k1]; simpl in H.
      * inversion H; subst. exists [], l. simpl. auto.
      * inversion H; subst.
        destruct (IH k1 H2) as [l1 [l2 [-> [H1 H3]]]].
        exists (y :: l1), l2. simpl. rewrite E, H1. auto.
    + destruct (IH k1 H) as [l1 [l2 [-> [H1 H3]]]].
      exists (x :: l1), l2. simpl. rewrite E. auto.
Qed.

(** In the order of first occurrences, what comes earlier was seen earlier. *)
Lemma first_occurrences_order (ws k1 k2 : list string) (a b : string) :
  first_occurrences ws = k1 ++ a :: k2 -> In b k2 ->
  (first_seen a ws < first_seen b ws)%nat.
Proof.
  revert k1 k2; induction ws as [|w ws IH]; intros k1 k2 H Hb; simpl in H.
  - destruct k1; discriminate.
  - destruct k1 as [|y k1]; simpl in H; inversion H as [[Hw Hrest]]; subst.
    + simpl. rewrite String.eqb_refl.
      apply filter_In in Hb. destruct Hb as [_ Hb].
      destruct (String.eqb b a) eqn:E; [discriminate|].
      rewrite String.eqb_sym in E. rewrite E. lia.
    + destruct (@filter_split _ _ _ _ _ _ Hrest) as [l1 [l2 [Hl [H1 H2]]]].
      assert (Ha : String.eqb a y = false).
      { assert (Hin : In a (filter (fun x => negb (String.eqb x y)) (first_occurrences ws))).
        { rewrite Hrest. apply in_or_app; right; left; reflexivity. }
        apply filter_In in Hin. destruct Hin as [_ Hin].
        now destruct (String.eqb a y). }
      assert (Hb' : In b l2 /\ String.eqb b y = false).
      { rewrite <- H2 in Hb. apply filter_In in Hb. destruct Hb as [Hb Hn].
        split; auto. now destruct (String.eqb b y). }
      destruct Hb' as [Hb2 Hby].
      simpl. rewrite (String.eqb_sym y a), Ha, (String.eqb_sym y b), Hby.
      apply -> Nat.succ_lt_mono. eapply IH; eauto.
Qed.

Lemma max_from_ge (rest : list (string * nat)) (best : string * nat) :
  (snd best <= snd (max_from best rest))%nat.
Proof.
  revert best; induction rest as [|x rest IH]; intros best; simpl; auto.
  destruct (Nat.ltb (snd best) (snd x)) eqn:E.
  - apply Nat.ltb_lt in E. specialize (IH x). lia.
  - apply IH.
Qed.

(** [max] keeps the first item that no later item exceeds. *)
Lemma max_from_spec (rest : list (string * nat)) (best : string * nat) :
  exists l1 l2,
    best :: rest = l1 ++ max_from best rest :: l2 /\
    (forall y, In y l1 -> (snd y < snd (max_from best rest))%nat) /\
    (forall y, In y l2 -> (snd y <= snd (max_from best rest))%nat).
Proof.
  revert best; induction rest as [|x rest IH]; intros best; simpl.
  - exists [], []. simpl. split; [reflexivity | split; intros y []].
  - destruct (Nat.ltb (snd best) (snd x)) eqn:E.
    + apply Nat.ltb_lt in E.
      destruct (IH x) as [l1 [l2 [Heq [H1 H2]]]].
      exists (best :: l1), l2. rewrite Heq. simpl.
      split; [reflexivity | split; auto].
      intros y [<-|Hy]; auto.
      pose proof (max_from_ge rest x). lia.
    + apply Nat.ltb_ge in E.
      pose proof (max_from_ge rest best) as Hge.
      destruct (IH best) as [l1 [l2 [Heq [H1 H2]]]].
      destruct l1 as [|z l1]; simpl in Heq; injection Heq as Hz Hrest.
      * exists [], (x :: l2). simpl.
        split; [congruence | split; [intros y [] |]].
        intros y [<-|Hy]; [lia|]. apply H2. exact Hy.
      * exists (best :: x :: l1), l2. simpl.
        split; [congruence | split; auto].
        intros y [<-|[<-|Hy]].
        -- apply H1; left; congruence.
        -- assert (Hb : (snd best < snd (max_from best rest))%nat)
             by (apply H1; left; congruence). lia.
        -- apply H1; right; exact Hy.
Qed.

(** ** Sums of floats *)

Open Scope Q_scope.

Lemma fold_Qplus_Qeq (xs : list Q) (a b : Q) :
  a == b -> fold_left Qplus xs a == fold_left Qplus xs b.
Proof.
  revert a b; induction xs as [|x xs IH]; intros a b H; simpl; auto.
  apply IH. now rewrite H.
Qed.

Lemma fold_Qplus_acc (xs : list Q) (a : Q) :
  fold_left Qplus xs a == a + Qsum xs.
Proof.
  unfold Qsum. revert a; induction xs as [|x xs IH]; intros a; simpl.
  - ring.
  - rewrite IH. rewrite (IH (0 + x)). ring.
Qed.

Lemma Qsum_cons (x : Q) (xs : list Q) : Qsum (x :: xs) == x + Qsum xs.
Proof.
  unfold Qsum at 1. simpl. rewrite fold_Qplus_acc. ring.
Qed.

Lemma Qsum_nonneg (xs : list Q) : Forall (fun x => 0 <= x) xs -> 0 <= Qsum xs.
Proof.
  induction 1 as [|x xs Hx Hxs IH].
  - unfold Qsum; simpl. apply Qle_refl.
  - rewrite Qsum_cons. lra.
Qed.

Lemma Qsum_zero (xs : list Q) :
  Forall (fun x => 0 <= x) xs -> Qsum xs == 0 -> Forall (fun x => x == 0) xs.
Proof.
  induction 1 as [|x xs Hx Hxs IH]; intros H; constructor.
  - rewrite Qsum_cons in H. pose proof (Qsum_nonneg Hxs). lra.
  - apply IH. rewrite Qsum_cons in H. pose proof (Qsum_nonneg Hxs). lra.
Qed.

Lemma Qsum_all_zero (xs : list Q) : Forall (fun x => x == 0) xs -> Qsum xs == 0.
Proof.
  induction 1 as [|x xs Hx Hxs IH].
  - reflexivity.
  - rewrite Qsum_cons, Hx, IH. ring.
Qed.

Lemma Qsum_map_Qeq {A : Type} (f g : A -> Q) (l : list A) :
  (forall a, In a l -> f a == g a) -> Qsum (map f l) == Qsum (map g l).
Proof.
  induction l as [|a l IH]; intros H; simpl.
  - reflexivity.
  - rewrite !Qsum_cons, IH, (H a).
    + reflexivity.
    + left; reflexivity.
    + intros b Hb; apply H; right; exact Hb.
Qed.

Lemma Qlen_cons (x : Q) (xs : list Q) : Qlen (x :: xs) == 1 + Qlen xs.
Proof.
  unfold Qlen. simpl length. rewrite Nat2Z.inj_succ, <- Z.add_1_l.
  rewrite inject_Z_plus. reflexivity.
Qed.

Lemma Qlen_nonneg (xs : list Q) : 0 <= Qlen xs.
Proof.
  unfold Qlen. change 0 with (inject_Z 0). rewrite <- Zle_Qle. lia.
Qed.

Lemma Qlen_pos (xs : list Q) : xs <> [] -> 0 < Qlen xs.
Proof.
  destruct xs as [|x xs]; [congruence|]. intros _.
  rewrite Qlen_cons. pose proof (Qlen_nonneg xs). lra.
Qed.

(** The mean of a vector whose entries all equal [c] is [c]. *)
Lemma Qsum_constant (xs : list Q) (c : Q) :
  Forall (fun x => x == c) xs -> Qsum xs == Qlen xs * c.
Proof.
  induction 1 as [|x xs Hx Hxs IH].
  - unfold Qsum, Qlen; simpl. ring.
  - rewrite Qsum_cons, Qlen_cons, IH, Hx. ring.
Qed.

Lemma mean_constant (xs : list Q) (c : Q) :
  xs <> [] -> Forall (fun x => x == c) xs -> Qsum xs / Qlen xs == c.
Proof.
  intros Hne H. rewrite (Qsum_constant H).
  pose proof (Qlen_pos Hne). field. lra.
Qed.

Lemma Qpower_2 (a : Q) : a ^ 2 == a * a.
Proof. reflexivity. Qed.

Lemma Qsquare_nonneg (a : Q) : 0 <= a * a.
Proof. nra. Qed.

Lemma Qsquare_zero (a : Q) : a * a == 0 -> a == 0.
Proof. intros H. apply Qmult_integral in H. tauto. Qed.

Close Scope Q_scope.

(** Reading a list through its indices, as [x[i] for i in range(n)]. *)
Lemma map_nth_seq {A B : Type} (f : A -> B) (d : A) (x pre : list A) :
  map (fun i => f (nth i (pre ++ x) d)) (seq (length pre) (length x)) = map f x.
Proof.
  revert pre; induction x as [|a x IH]; intros pre; simpl; auto.
  f_equal.
  - rewrite app_nth2 by lia. now rewrite Nat.sub_diag.
  - specialize (IH (pre ++ [a])). rewrite <- app_assoc in IH. simpl in IH.
    rewrite length_app in IH. simpl in IH.
    rewrite Nat.add_1_r in IH. exact IH.
Qed.

Lemma map_nth_seq0 {A B : Type} (f : A -> B) (d : A) (x : list A) :
  map (fun i => f (nth i x d)) (seq 0 (length x)) = map f x.
Proof. exact (map_nth_seq f d x []). Qed.

Lemma map_nth_seq2 {A B : Type} (f : A -> A -> B) (d : A) (x y pre pre' : list A) :
  length pre = length pre' -> length x = length y ->
  map (fun i => f (nth i (pre ++ x) d) (nth i (pre' ++ y) d))
      (seq (length pre) (length x))
  = map (fun ab => f (fst ab) (snd ab)) (combine x y).
Proof.
  revert y pre pre'; induction x as [|a x IH]; intros [|b y] pre pre' Hp Hl;
    simpl in *; try discriminate; auto.
  f_equal.
  - rewrite app_nth2 by lia. rewrite Hp at 2. rewrite app_nth2 by lia.
    rewrite <- Hp. now rewrite Nat.sub_diag.
  - specialize (IH y (pre ++ [a]) (pre' ++ [b])).
    rewrite <- !app_assoc in IH. simpl in IH.
    rewrite !length_app in IH. simpl in IH.
    rewrite Nat.add_1_r in IH. apply IH; lia.
Qed.

Lemma map_nth_seq2_0 {A B : Type} (f : A -> A -> B) (d : A) (x y : list A) :
  length x = length y ->
  map (fun i => f (nth i x d) (nth i y d)) (seq 0 (length x))
  = map (fun ab => f (fst ab) (snd ab)) (combine x y).
Proof. exact (@map_nth_seq2 A B f d x y [] [] eq_refl). Qed.

(** ** Pearson correlation *)

Lemma pearson_degenerate (x y : list Q) :
  length x <> length y \/ (length x < 2)%nat ->
  _pearson_correlation x y = Returned 0%R.
Proof.
  intros H. unfold _pearson_correlation.
  destruct (Nat.eqb (length x) (length y)) eqn:E; simpl; auto.
  apply Nat.eqb_eq in E.
  destruct (Nat.ltb (length x) 2) eqn:E2; auto.
  apply Nat.ltb_ge in E2. destruct H; [contradiction | lia].
Qed.

Lemma pearson_unfold (x y : list Q) :
  length x = length y -> (2 <= length x)%nat ->
  _pearson_correlation x y =
  if Qeq_bool (dev_sq x) 0 || Qeq_bool (dev_sq y) 0 then Returned 0%R
  else div_by_root (co_dev x y) (dev_sq x * dev_sq y)%Q.
Proof.
  intros Hlen H2. unfold _pearson_correlation.
  rewrite (proj2 (Nat.eqb_eq _ _) Hlen). cbn [negb orb].
  rewrite (proj2 (Nat.ltb_ge _ _) H2).
  assert (Ex : mean x = Returned (Qsum x / Qlen x)%Q)
    by (destruct x; [simpl in H2; lia | reflexivity]).
  assert (Ey : mean y = Returned (Qsum y / Qlen y)%Q)
    by (destruct y; [simpl in Hlen; rewrite Hlen in H2; simpl in H2; lia
                    | reflexivity]).
  rewrite Ex, Ey. cbn [bind]. unfold dev_sq, co_dev. cbv zeta.
  rewrite (map_nth_seq0 (fun v => (v - Qsum x / Qlen x) ^ 2)%Q 0%Q x).
  replace (map (fun i => (nth i y 0 - Qsum y / Qlen y) ^ 2)%Q (seq 0 (length x)))
    with (map (fun v => (v - Qsum y / Qlen y) ^ 2)%Q y)
    by (rewrite Hlen; symmetry;
        apply (map_nth_seq0 (fun v => (v - Qsum y / Qlen y) ^ 2)%Q 0%Q y)).
  rewrite (@map_nth_seq2_0 Q Q
             (fun a b => (a - Qsum x / Qlen x) * (b - Qsum y / Qlen y))%Q
             0%Q x y Hlen).
  reflexivity.
Qed.

Lemma dev_sq_nonneg (x : list Q) : (0 <= dev_sq x)%Q.
Proof.
  unfold dev_sq. apply Qsum_nonneg. apply Forall_forall.
  intros t Ht. apply in_map_iff in Ht. destruct Ht as [v [<- _]].
  rewrite Qpower_2. apply Qsquare_nonneg.
Qed.

Lemma dev_sq_constant (x : list Q) : x <> [] -> constant x -> (dev_sq x == 0)%Q.
Proof.
  intros Hne Hc. unfold dev_sq. cbv zeta.
  destruct x as [|c x']; [congruence|].
  assert (Hall : Forall (fun v => (v == c)%Q) (c :: x')).
  { apply Forall_forall. intros v Hv. apply Hc; [exact Hv | left; reflexivity]. }
  pose proof (mean_constant Hne Hall) as Hm.
  apply Qsum_all_zero. apply Forall_forall.
  intros t Ht. apply in_map_iff in Ht. destruct Ht as [v [<- Hv]].
  rewrite Qpower_2, Hm.
  rewrite Forall_forall in Hall. rewrite (Hall v Hv). ring.
Qed.

Lemma dev_sq_zero_constant (x : list Q) : (dev_sq x == 0)%Q -> constant x.
Proof.
  unfold dev_sq. cbv zeta. intros H a b Ha Hb.
  apply Qsum_zero in H.
  - rewrite Forall_forall in H.
    assert (Hm : forall v, In v x -> (v == Qsum x / Qlen x)%Q).
    { intros v Hv.
      assert (Hz : ((v - Qsum x / Qlen x) ^ 2 == 0)%Q).
      { apply H. apply in_map_iff. exists v. split; auto. }
      rewrite Qpower_2 in Hz. apply Qsquare_zero in Hz. lra. }
    rewrite (Hm a Ha), (Hm b Hb). reflexivity.
  - apply Forall_forall. intros t Ht. apply in_map_iff in Ht.
    destruct Ht as [v [<- _]]. rewrite Qpower_2. apply Qsquare_nonneg.
Qed.

Lemma combine_diag {A : Type} (x : list A) :
  combine x x = map (fun v => (v, v)) x.
Proof. induction x as [|a x IH]; simpl; auto. now rewrite IH. Qed.

Lemma co_dev_diag (x : list Q) : (co_dev x x == dev_sq x)%Q.
Proof.
  unfold co_dev, dev_sq. cbv zeta. rewrite combine_diag, map_map.
  apply Qsum_map_Qeq. intros a _. cbn [fst snd]. rewrite Qpower_2. reflexivity.
Qed.

Lemma Qeq_bool_false_mult (a b : Q) :
  Qeq_bool a 0 = false -> Qeq_bool b 0 = false -> Qeq_bool (a * b) 0 = false.
Proof.
  intros Ha Hb. apply Qeq_bool_neq in Ha. apply Qeq_bool_neq in Hb.
  destruct (Qeq_bool (a * b) 0) eqn:E; auto.
  apply Qeq_bool_eq in E. apply Qmult_integral in E. tauto.
Qed.

(** [_pearson_correlation] never raises. *)
Lemma pearson_total (x y : list Q) :
  _pearson_correlation x y = Returned (pearson_value x y).
Proof.
  unfold pearson_value.
  destruct (Nat.eq_dec (length x) (length y)) as [Hlen|Hlen].
  - destruct (le_lt_dec 2 (length x)) as [H2|H2].
    + rewrite (pearson_unfold x y Hlen H2).
      destruct (Qeq_bool (dev_sq x) 0) eqn:Ex; simpl; auto.
      destruct (Qeq_bool (dev_sq y) 0) eqn:Ey; simpl; auto.
      unfold div_by_root. now rewrite Qeq_bool_false_mult.
    + rewrite pearson_degenerate; auto.
  - rewrite pearson_degenerate; auto.
Qed.

(** ** The double loop over pairs of judges *)

Lemma correlate_pair_step (d : Dict.t Judged) (i j : nat)
  (x y : string * Judged) (corr : Dict.t R) :
  NoDup (Dict.keys d) ->
  nth_error d i = Some x -> nth_error d j = Some y ->
  correlate_pair d (Dict.keys d) i corr j = Returned (correlate corr (x, y)).
Proof.
  intros Hnd Hx Hy. unfold correlate_pair, correlate. cbv zeta.
  assert (Hkey : forall n z, nth_error d n = Some z ->
                 nth n (Dict.keys d) EmptyString = fst z).
  { intros n z Hz. unfold Dict.keys.
    apply nth_error_nth. now rewrite nth_error_map, Hz. }
  assert (Hget : forall n z, nth_error d n = Some z ->
                 Dict.getitem d (fst z) = Returned (snd z)).
  { intros n z Hz. unfold Dict.getitem.
    rewrite (@DictFacts.in_get _ d (fst z) (snd z)); auto.
    rewrite <- surjective_pairing. eapply nth_error_In; eauto. }
  rewrite (Hkey _ _ Hx), (Hkey _ _ Hy).
  rewrite (Hget _ _ Hx), (Hget _ _ Hy). cbn [bind fst snd].
  unfold comparable.
  destruct (Nat.eqb (length (overall_vector (snd x)))
              (length (overall_vector (snd y)))
            && Nat.ltb 1 (length (overall_vector (snd x)))); auto.
  now rewrite pearson_total.
Qed.

Lemma inner_loop (d : Dict.t Judged) (i : nat) (x : string * Judged)
  (suf pre : list (string * Judged)) (corr : Dict.t R) :
  NoDup (Dict.keys d) -> nth_error d i = Some x -> d = pre ++ suf ->
  for_each (correlate_pair d (Dict.keys d) i) (seq (length pre) (length suf)) corr
  = Returned (fold_left correlate (map (pair x) suf) corr).
Proof.
  intros Hnd Hx. revert pre corr.
  induction suf as [|y suf IH]; intros pre corr Hd; simpl; auto.
  rewrite (@correlate_pair_step d i (length pre) x y corr Hnd Hx).
  - cbn [bind]. specialize (IH (pre ++ [y]) (correlate corr (x, y))).
    rewrite length_app in IH. simpl in IH. rewrite Nat.add_1_r in IH.
    apply IH. rewrite <- app_assoc. exact Hd.
  - rewrite Hd. rewrite nth_error_app2 by lia. now rewrite Nat.sub_diag.
Qed.

Lemma outer_loop (d : Dict.t Judged) (suf pre : list (string * Judged))
  (corr : Dict.t R) :
  NoDup (Dict.keys d) -> d = pre ++ suf ->
  for_each
    (fun correlations i =>
       for_each (correlate_pair d (Dict.keys d) i)
         (seq (i + 1) (length (Dict.keys d) - (i + 1))) correlations)
    (seq (length pre) (length suf)) corr
  = Returned (fold_left correlate (pairs_of suf) corr).
Proof.
  intros Hnd. revert pre corr.
  induction suf as [|x suf IH]; intros pre corr Hd; simpl; auto.
  assert (Hlen : (length (Dict.keys d) - (length pre + 1) = length suf)%nat).
  { unfold Dict.keys. rewrite length_map, Hd, length_app. simpl. lia. }
  rewrite Hlen.
  assert (Hx : nth_error d (length pre) = Some x).
  { rewrite Hd. rewrite nth_error_app2 by lia. now rewrite Nat.sub_diag. }
  pose proof (@inner_loop d (length pre) x suf (pre ++ [x]) corr Hnd Hx) as Hin.
  rewrite length_app in Hin. simpl in Hin.
  rewrite Hin by (rewrite <- app_assoc; exact Hd).
  cbn [bind]. rewrite fold_left_app.
  specialize (IH (pre ++ [x]) (fold_left correlate (map (pair x) suf) corr)).
  rewrite length_app in IH. simpl in IH. rewrite Nat.add_1_r in IH.
  apply IH. rewrite <- app_assoc. exact Hd.
Qed.

Lemma pairwise_correlations_fold (d : Dict.t Judged) :
  NoDup (Dict.keys d) ->
  pairwise_correlations d = Returned (fold_left correlate (pairs_of d) Dict.empty).
Proof.
  intros Hnd. unfold pairwise_correlations. cbv zeta.
  pose proof (@outer_loop d d [] Dict.empty Hnd eq_refl) as H.
  simpl in H. unfold Dict.keys at 3. rewrite length_map. exact H.
Qed.

(** ** Keys of the correlation table *)

Lemma pair_key_judges (a b c d : Judge) :
  pair_key (judge_name_of a) (judge_name_of b)
  = pair_key (judge_name_of c) (judge_name_of d) ->
  a = c /\ b = d.
Proof.
  destruct a, b, c, d; cbv; intros H;
    solve [split; reflexivity | discriminate H].
Qed.

Lemma pairs_of_map {A B : Type} (f : A -> B) (l : list A) :
  pairs_of (map f l) = map (fun pq => (f (fst pq), f (snd pq))) (pairs_of l).
Proof.
  induction l as [|a l IH]; simpl; auto.
  rewrite map_app, IH, !map_map. reflexivity.
Qed.

Lemma pairs_of_in {A : Type} (l : list A) (a b : A) :
  In (a, b) (pairs_of l) -> In a l /\ In b l.
Proof.
  induction l as [|x l IH]; simpl; [tauto|].
  intros H. apply in_app_or in H. destruct H as [H|H].
  - apply in_map_iff in H. destruct H as [y [E Hy]]. inversion E; subst. auto.
  - destruct (IH H); auto.
Qed.

Lemma map_nodup_on {A B : Type} (f : A -> B) (l : list A) :
  (forall a b, In a l -> In b l -> f a = f b -> a = b) ->
  NoDup l -> NoDup (map f l).
Proof.
  intros Hinj H. induction H as [|x l Hx Hl IH]; simpl; constructor.
  - intros Hin. apply in_map_iff in Hin. destruct Hin as [y [E Hy]].
    assert (y = x) by (apply Hinj; simpl; auto). subst. contradiction.
  - apply IH. intros a b Ha Hb. apply Hinj; simpl; auto.
Qed.

Lemma pairs_of_nodup {A : Type} (l : list A) : NoDup l -> NoDup (pairs_of l).
Proof.
  induction 1 as [|x l Hx Hl IH]; simpl; [constructor|].
  apply NoDup_app; auto.
  - apply map_nodup_on; auto. intros a b _ _ E. now inversion E.
  - intros [a b] H1 H2. apply in_map_iff in H1. destruct H1 as [y [E Hy]].
    inversion E; subst. apply pairs_of_in in H2. tauto.
Qed.

Lemma map_filter_nodup {A B : Type} (f : A -> B) (g : A -> bool) (l : list A) :
  NoDup (map f l) -> NoDup (map f (filter g l)).
Proof.
  induction l as [|x l IH]; simpl; auto.
  intros H. inversion H as [|? ? Hx Hl]; subst.
  destruct (g x); simpl; auto.
  constructor; auto.
  intros Hin. apply Hx. apply in_map_iff in Hin. destruct Hin as [y [E Hy]].
  apply filter_In in Hy. apply in_map_iff. exists y. tauto.
Qed.

(** The names of the surviving judges are names of judge classes. *)
Lemma survivors_known (completed : list completion) :
  dispatched completed ->
  Forall (fun r => exists j, name_of r = judge_name_of j) (survivors completed).
Proof.
  intros [_ Hnames]. induction completed as [|[j o] cs IH]; simpl; [constructor|].
  inversion Hnames as [|? ? Hn Hns]; subst.
  destruct o as [r|e]; simpl; auto.
  constructor; auto. exists j. apply (Hn r eq_refl).
Qed.

Lemma pair_keys_nodup (rs : list Judged) :
  NoDup (map name_of rs) ->
  Forall (fun r => exists j, name_of r = judge_name_of j) rs ->
  NoDup (map key_of_pair (pairs_of rs)).
Proof.
  intros Hnd Hknown. rewrite Forall_forall in Hknown.
  assert (Hrs : NoDup rs) by (eapply NoDup_map_inv; eauto).
  assert (Hname : forall a b, In a rs -> In b rs -> name_of a = name_of b -> a = b).
  { clear Hknown Hrs. induction rs as [|x rs IH]; simpl; [tauto|].
    inversion Hnd as [|? ? Hx Hl]; subst.
    intros a b [->|Ha] [->|Hb] E; auto.
    - exfalso. apply Hx. rewrite E. now apply in_map.
    - exfalso. apply Hx. rewrite <- E. now apply in_map. }
  apply map_nodup_on; [|now apply pairs_of_nodup].
  intros [a b] [c d] Hab Hcd E. unfold key_of_pair in E. simpl in E.
  apply pairs_of_in in Hab. apply pairs_of_in in Hcd.
  destruct Hab as [Ha Hb], Hcd as [Hc Hd].
  destruct (Hknown a Ha) as [ja Ea], (Hknown b Hb) as [jb Eb],
           (Hknown c Hc) as [jc Ec], (Hknown d Hd) as [jd Ed].
  rewrite Ea, Eb, Ec, Ed in E. apply pair_key_judges in E. destruct E; subst.
  f_equal; apply Hname; auto; congruence.
Qed.

Lemma fold_correlate_fresh (ps : list (Judged * Judged)) (acc : Dict.t R) :
  NoDup (Dict.keys acc
         ++ map key_of_pair (filter (fun pq => comparable (fst pq) (snd pq)) ps)) ->
  fold_left correlate (map (fun pq => (filed (fst pq), filed (snd pq))) ps) acc
  = acc ++ map correlation_entry
             (filter (fun pq => comparable (fst pq) (snd pq)) ps).
Proof.
  revert acc; induction ps as [|[r1 r2] ps IH]; intros acc Hnd; simpl.
  - now rewrite app_nil_r.
  - unfold correlate at 2. cbn [fst snd filed]. simpl in Hnd.
    destruct (comparable r1 r2) eqn:E.
    + simpl in Hnd.
      assert (Hfresh : ~ In (pair_key (name_of r1) (name_of r2)) (Dict.keys acc)).
      { intros Hin. apply NoDup_remove_2 in Hnd. apply Hnd.
        apply in_or_app; left; exact Hin. }
      rewrite DictFacts.set_fresh by exact Hfresh.
      rewrite IH.
      * rewrite <- app_assoc. reflexivity.
      * unfold Dict.keys in *. rewrite map_app. simpl.
        rewrite <- app_assoc. exact Hnd.
    + apply IH. exact Hnd.
Qed.

Lemma correlations_of_survivors (rs : list Judged) :
  NoDup (map name_of rs) ->
  Forall (fun r => exists j, name_of r = judge_name_of j) rs ->
  fold_left correlate (pairs_of (map filed rs)) Dict.empty
  = map correlation_entry (comparable_pairs rs).
Proof.
  intros Hnd Hknown. rewrite pairs_of_map.
  rewrite fold_correlate_fresh; [reflexivity|].
  simpl. apply map_filter_nodup. now apply pair_keys_nodup.
Qed.

(** ** Agreement *)

Lemma count_fold {A : Type} (f : A -> bool) (l : list A) (c : nat) :
  fold_left (fun c r => if f r then (c + 1)%nat else c) l c
  = (c + length (filter f l))%nat.
Proof.
  revert c; induction l as [|x l IH]; intros c; simpl; [lia|].
  rewrite IH. destruct (f x); simpl; lia.
Qed.

Lemma count_first_winner_spec (d : Dict.t Judged) :
  count_first_winner d = Returned (length (agree_with_first (Dict.values d))).
Proof.
  unfold count_first_winner. cbv zeta.
  destruct (Dict.values d) as [|first rest] eqn:E; [reflexivity|].
  cbn [nth_error].
  rewrite (@for_each_ext _ _ _
             (fun c r => Returned
                (if String.eqb (JudgeResult.winner r) (JudgeResult.winner first)
                 then (c + 1)%nat else c))).
  - rewrite (for_each_total
               (fun c r => if String.eqb (JudgeResult.winner r)
                                (JudgeResult.winner first)
                           then (c + 1)%nat else c)).
    rewrite (count_fold
               (fun r => String.eqb (JudgeResult.winner r) (JudgeResult.winner first))).
    reflexivity.
  - intros c r _.
    destruct (String.eqb (JudgeResult.winner r) (JudgeResult.winner first));
      reflexivity.
Qed.

Lemma calculate_agreement_spec (d : Dict.t Judged) (cs : Dict.t ConsensusScore.t) :
  NoDup (Dict.keys d) ->
  exists ag,
    _calculate_agreement d cs = Returned ag /\
    InterJudgeAgreement.pearson_correlation ag
      = fold_left correlate (pairs_of d) Dict.empty /\
    InterJudgeAgreement.average_correlation ag
      = mean_or_zero (Dict.values (fold_left correlate (pairs_of d) Dict.empty)) /\
    InterJudgeAgreement.winner_consensus_percentage ag
      = percentage (length (agree_with_first (Dict.values d))) (length d).
Proof.
  intros Hnd. unfold _calculate_agreement.
  rewrite (pairwise_correlations_fold d Hnd). cbn [bind].
  set (corr := fold_left correlate (pairs_of d) Dict.empty).
  assert (Em : match corr with
               | [] => Returned 0%R
               | _ :: _ => meanR (Dict.values corr)
               end = Returned (mean_or_zero (Dict.values corr))).
  { destruct corr as [|c corr']; reflexivity. }
  rewrite Em. cbn [bind]. rewrite count_first_winner_spec. cbn [bind].
  eexists. split; [reflexivity|]. cbn. auto.
Qed.

(** ** The winner *)

Lemma tally_nodup (ws : list string) (acc : Dict.t nat) :
  NoDup (Dict.keys acc) -> NoDup (Dict.keys (tally ws acc)).
Proof.
  revert acc; induction ws as [|w ws IH]; intros acc H; simpl; auto.
  apply IH. now apply DictFacts.keys_set_nodup.
Qed.

Lemma votes_for_in (p : string) (ws : list string) :
  votes_for p ws <> 0%nat -> In p ws.
Proof.
  unfold votes_for. intros H. apply (count_occ_In string_dec). lia.
Qed.

Lemma tally_item (ws : list string) (p : string) (n : nat) :
  In (p, n) (tally ws Dict.empty) -> n = votes_for p ws /\ n <> 0%nat.
Proof.
  intros H. apply DictFacts.in_get in H; [|apply tally_nodup; constructor].
  rewrite tally_get_empty in H.
  destruct (Nat.eqb (votes_for p ws) 0) eqn:E; [discriminate|].
  apply Nat.eqb_neq in E. inversion H; subst. auto.
Qed.

Lemma tally_has (ws : list string) (p : string) :
  votes_for p ws <> 0%nat -> In (p, votes_for p ws) (tally ws Dict.empty).
Proof.
  intros H. apply DictFacts.get_some_in. rewrite tally_get_empty.
  apply Nat.eqb_neq in H. now rewrite H.
Qed.

Lemma determine_consensus_winner_spec (d : Dict.t Judged) :
  d <> [] ->
  exists w,
    _determine_consensus_winner d = Returned (w, count_votes d) /\
    first_most_voted w (map winner_of (Dict.values d)).
Proof.
  intros Hne. unfold _determine_consensus_winner. cbv zeta.
  rewrite count_votes_tally.
  set (ws := map winner_of (Dict.values d)).
  destruct (tally ws Dict.empty) as [|x rest] eqn:Et.
  { exfalso. assert (Hk : Dict.keys (tally ws Dict.empty) = []) by now rewrite Et.
    rewrite tally_keys_empty in Hk. unfold ws in Hk.
    destruct d as [|[k r] d']; [congruence|]. discriminate Hk. }
  unfold Dict.items, max_by_votes. cbn [bind].
  exists (fst (max_from x rest)). split; [reflexivity|].
  destruct (max_from_spec rest x) as [l1 [l2 [Hsplit [H1 H2]]]].
  destruct (max_from x rest) as [w n] eqn:Em. cbn [fst snd] in *.
  assert (Hw : In (w, n) (tally ws Dict.empty)).
  { rewrite Et, Hsplit. apply in_or_app; right; left; reflexivity. }
  destruct (tally_item _ _ _ Hw) as [Hn Hn0].
  assert (Hle : forall p, (votes_for p ws <= n)%nat).
  { intros p. destruct (Nat.eq_dec (votes_for p ws) 0) as [E0|E0]; [lia|].
    pose proof (tally_has ws p E0) as Hp. rewrite Et, Hsplit in Hp.
    apply in_app_or in Hp. destruct Hp as [Hp|[Hp|Hp]].
    - specialize (H1 _ Hp). simpl in H1. lia.
    - inversion Hp; lia.
    - specialize (H2 _ Hp). simpl in H2. lia. }
  split; [apply votes_for_in; congruence|].
  split; [intros p; rewrite <- Hn; apply Hle|].
  intros p Hp. destruct (string_dec p w) as [->|Hpw]; [lia|].
  apply Nat.lt_le_incl.
  assert (Hp0 : votes_for p ws <> 0%nat) by congruence.
  pose proof (tally_has ws p Hp0) as Hin. rewrite Et, Hsplit in Hin.
  apply in_app_or in Hin. destruct Hin as [Hin|[Hin|Hin]].
  - specialize (H1 _ Hin). simpl in H1. lia.
  - inversion Hin; congruence.
  - apply (@first_occurrences_order ws (Dict.keys l1) (Dict.keys l2) w p).
    + rewrite <- tally_keys_empty, Et, Hsplit. unfold Dict.keys.
      rewrite map_app. reflexivity.
    + unfold Dict.keys. change p with (fst (p, votes_for p ws)).
      now apply in_map.
Qed.

Lemma determine_consensus_winner_empty :
  _determine_consensus_winner [] = Raised ValueError.
Proof. reflexivity. Qed.

(** ** [judge_document] *)

Lemma judge_document_spec (completed : list completion) (now document_name : string)
  (provider_outputs : provider_outputs_t) :
  survivors completed <> [] ->
  let d := _run_judges_parallel completed in
  exists cs w ag,
    _calculate_consensus_scores d provider_outputs = Returned cs /\
    _determine_consensus_winner d = Returned (w, count_votes d) /\
    first_most_voted w (map winner_of (Dict.values d)) /\
    _calculate_agreement d cs = Returned ag /\
    judge_document completed now document_name provider_outputs
    = Returned (panel_result now document_name d cs w (count_votes d) ag).
Proof.
  intros Hne d.
  destruct (calculate_consensus_scores_spec d provider_outputs) as [cs [Ecs _]].
  destruct (determine_consensus_winner_spec (run_judges_nonempty _ Hne))
    as [w [Ew Hw]].
  destruct (calculate_agreement_spec d cs (run_judges_nodup completed))
    as [ag [Eag _]].
  exists cs, w, ag. repeat (split; [assumption|]).
  unfold judge_document. cbv zeta. unfold d in *. rewrite Ecs. cbn [bind].
  rewrite Ew. cbn [bind]. rewrite Eag. cbn [bind]. reflexivity.
Qed.

Lemma judge_document_depends_on_results (c1 c2 : list completion)
  (now document_name : string) (provider_outputs : provider_outputs_t) :
  _run_judges_parallel c1 = _run_judges_parallel c2 ->
  judge_document c1 now document_name provider_outputs
  = judge_document c2 now document_name provider_outputs.
Proof. intros H. unfold judge_document. now rewrite H. Qed.

Lemma survivors_succeeded (completed : list completion) :
  survivors (filter succeeded completed) = survivors completed.
Proof.
  induction completed as [|[j o] cs IH]; simpl; auto.
  unfold succeeded at 1. simpl. destruct o as [r|e]; simpl; now rewrite IH.
Qed.

Lemma survivors_none (completed : list completion) :
  (forall c, In c completed -> exists e, snd c = Raised e) ->
  survivors completed = [].
Proof.
  induction completed as [|c cs IH]; intros H; simpl; auto.
  destruct (H c (or_introl eq_refl)) as [e E]. rewrite E. simpl.
  apply IH. intros c' Hc'. apply H. right; exact Hc'.
Qed.

Lemma failed_not_survivor (completed : list completion) (j : Judge) (e : exn) :
  dispatched completed -> In (j, Raised e) completed ->
  forall r, In r (survivors completed) -> name_of r <> judge_name_of j.
Proof.
  intros [Hnd Hnames] Hin r Hr Hname.
  unfold survivors in Hr. apply in_flat_map in Hr.
  destruct Hr as [[j' o] [Hc Hr]]. simpl in Hr.
  destruct o as [r'|e']; simpl in Hr; [|contradiction].
  destruct Hr as [->|[]].
  rewrite Forall_forall in Hnames.
  pose proof (Hnames _ Hc r eq_refl) as Hn. simpl in Hn.
  unfold name_of in Hname. rewrite Hn in Hname.
  apply judge_name_of_inj in Hname. subst j'.
  clear - Hnd Hin Hc.
  induction completed as [|[j0 o0] cs IH]; simpl in *; [contradiction|].
  inversion Hnd as [|? ? Hx Hl]; subst.
  destruct Hin as [Hin|Hin], Hc as [Hc|Hc].
  - congruence.
  - inversion Hin; subst. apply Hx. change j with (fst (j, Returned r)).
    now apply in_map.
  - inversion Hc; subst. apply Hx. change j with (fst (j, @Raised Judged e)).
    now apply in_map.
  - auto.
Qed.

(** * The claims *)

(** C10.  When every dispatched judge raises, [individual_results] is
    empty; the consensus scores are still computed (an empty table), and
    the winner step then raises [ValueError] by taking the maximum of an
    empty vote table, so [judge_document] raises and returns no
    [PanelResult]. *)
Theorem judge_document_raises_when_all_judges_fail
  (completed : list completion) (now document_name : string)
  (provider_outputs : provider_outputs_t) :
  (forall c, In c completed -> exists e, snd c = Raised e) ->
  _run_judges_parallel completed = [] /\
  _calculate_consensus_scores (_run_judges_parallel completed) provider_outputs
    = Returned [] /\
  _determine_consensus_winner (_run_judges_parallel completed) = Raised ValueError /\
  judge_document completed now document_name provider_outputs = Raised ValueError.
Proof.
  intros H. pose proof (run_judges_empty _ (survivors_none _ H)) as E.
  assert (Ecs : _calculate_consensus_scores [] provider_outputs = Returned []).
  { unfold _calculate_consensus_scores.
    induction (Dict.keys provider_outputs) as [|k ks IH]; simpl; auto. }
  unfold judge_document. rewrite E, Ecs. repeat split; reflexivity.
Qed.

Lemma judge_document_raises_when_all_judges_fail_witness :
  judge_document example_all_failed "now" "lease.pdf" example_outputs
  = Raised ValueError.
Proof.
  apply (judge_document_raises_when_all_judges_fail
           example_all_failed "now" "lease.pdf" example_outputs).
  intros c [<-|[<-|[<-|[]]]]; simpl; eauto.
Defined.

Lemma example_completed_dispatched : dispatched example_completed.
Proof.
  split.
  - repeat constructor; simpl; intuition discriminate.
  - repeat constructor; simpl; intros r E; inversion E; reflexivity.
Qed.

Lemma example_one_failed_dispatched : dispatched example_one_failed.
Proof.
  split.
  - repeat constructor; simpl; intuition discriminate.
  - repeat constructor; simpl; intros r E; inversion E; reflexivity.
Qed.

(** ** The panel on decoded values: failed judges *)

Lemma decoded_run_judges_survivors (completed : list Decoded.completion) :
  Decoded._run_judges_parallel completed =
  fold_left (fun d r => Dict.set d (Decoded.name_of r) r)
    (Decoded.survivors completed) Dict.empty.
Proof.
  unfold Decoded._run_judges_parallel.
  generalize (@Dict.empty (JudgeResult.t json)).
  induction completed as [|[j o] cs IH]; intros d; simpl; auto.
  destruct o as [r|e]; simpl; apply IH.
Qed.

Lemma decoded_fold_set_fresh (rs : list (JudgeResult.t json))
  (d : Dict.t (JudgeResult.t json)) :
  NoDup (Dict.keys d ++ map Decoded.name_of rs) ->
  fold_left (fun d r => Dict.set d (Decoded.name_of r) r) rs d =
  d ++ map Decoded.filed rs.
Proof.
  revert d; induction rs as [|r rs IH]; intros d Hnd; simpl.
  - now rewrite app_nil_r.
  - assert (Hfresh : ~ In (Decoded.name_of r) (Dict.keys d)).
    { intros Hin. apply NoDup_remove_2 in Hnd. apply Hnd.
      apply in_or_app; left; exact Hin. }
    rewrite DictFacts.set_fresh by exact Hfresh.
    rewrite IH.
    + now rewrite <- app_assoc.
    + unfold Dict.keys in *. rewrite map_app; simpl.
      rewrite <- app_assoc; simpl. exact Hnd.
Qed.

Lemma decoded_survivor_judge (completed : list Decoded.completion)
  (r : JudgeResult.t json) :
  Decoded.dispatched completed -> In r (Decoded.survivors completed) ->
  exists j, In (j, Returned r) completed /\
            Decoded.name_of r = judge_name_of j.
Proof.
  intros [_ Hnames] Hr. unfold Decoded.survivors in Hr.
  apply in_flat_map in Hr. destruct Hr as [[j o] [Hc Hr]]. simpl in Hr.
  destruct o as [r'|e]; simpl in Hr; [|contradiction].
  destruct Hr as [->|[]].
  exists j. split; [exact Hc|].
  rewrite Forall_forall in Hnames. exact (Hnames _ Hc r eq_refl).
Qed.

Lemma decoded_survivors_names (completed : list Decoded.completion) :
  Decoded.dispatched completed ->
  NoDup (map Decoded.name_of (Decoded.survivors completed)).
Proof.
  intros [Hnd Hnames].
  induction completed as [|[j o] cs IH]; simpl; [constructor|].
  inversion Hnd as [|? ? Hnotin Hnd']; subst.
  inversion Hnames as [|? ? Hname Hnames']; subst.
  assert (Hd' : Decoded.dispatched cs) by (split; assumption).
  destruct o as [r|e]; simpl; [|now apply IH].
  constructor; [|now apply IH].
  intros Hin. apply in_map_iff in Hin. destruct Hin as [r' [Heq Hr']].
  destruct (@decoded_survivor_judge cs r' Hd' Hr') as [j' [Hc' Hn']].
  specialize (Hname r eq_refl). simpl in Hname.
  assert (j' = j).
  { apply judge_name_of_inj. unfold Decoded.name_of in *. congruence. }
  subst j'. apply Hnotin.
  change j with (fst (j, @Returned (JudgeResult.t json) r')).
  now apply in_map.
Qed.

Lemma decoded_run_judges_dispatched (completed : list Decoded.completion) :
  Decoded.dispatched completed ->
  Decoded._run_judges_parallel completed
  = map Decoded.filed (Decoded.survivors completed).
Proof.
  intros H. rewrite decoded_run_judges_survivors.
  rewrite decoded_fold_set_fresh; auto.
  simpl. now apply decoded_survivors_names.
Qed.

Lemma decoded_survivors_succeeded (completed : list Decoded.completion) :
  Decoded.survivors (filter Decoded.succeeded completed)
  = Decoded.survivors completed.
Proof.
  induction completed as [|[j o] cs IH]; simpl; auto.
  unfold Decoded.succeeded at 1. simpl. destruct o as [r|e]; simpl; now rewrite IH.
Qed.

Lemma decoded_failed_not_survivor (completed : list Decoded.completion)
  (j : Judge) (e : exn) :
  Decoded.dispatched completed -> In (j, Raised e) completed ->
  ~ In (judge_name_of j) (map Decoded.name_of (Decoded.survivors completed)).
Proof.
  intros Hd Hin Hname. apply in_map_iff in Hname.
  destruct Hname as [r [Heq Hr]].
  destruct (@decoded_survivor_judge completed r Hd Hr) as [j' [Hc Hn]].
  assert (j' = j) by (apply judge_name_of_inj; congruence). subst j'.
  destruct Hd as [Hnd _]. clear - Hnd Hin Hc.
  induction completed as [|[j0 o0] cs IH]; simpl in *; [contradiction|].
  inversion Hnd as [|? ? Hx Hl]; subst.
  destruct Hin as [Hin|Hin], Hc as [Hc|Hc].
  - congruence.
  - inversion Hin; subst. apply Hx.
    change j with (fst (j, @Returned (JudgeResult.t json) r)).
    now apply in_map.
  - inversion Hc; subst. apply Hx.
    change j with (fst (j, @Raised (JudgeResult.t json) e)).
    now apply in_map.
  - auto.
Qed.




(** ** The two panels agree on the declared types *)

Lemma set_as_decoded (d : Dict.t Judged) (k : string) (r : Judged) :
  map as_decoded_entry (Dict.set d k r)
  = Dict.set (map as_decoded_entry d) k (as_decoded r).
Proof.
  induction d as [|[k' r'] d IH]; simpl; auto.
  destruct (String.eqb k' k); simpl; auto. now rewrite IH.
Qed.

Lemma get_as_decoded (d : Dict.t Judged) (k : string) :
  Dict.get (map as_decoded_entry d) k = option_map as_decoded (Dict.get d k).
Proof.
  induction d as [|[k' r'] d IH]; simpl; auto.
  destruct (String.eqb k' k); simpl; auto.
Qed.

Lemma keys_as_decoded (d : Dict.t Judged) :
  Dict.keys (map as_decoded_entry d) = Dict.keys d.
Proof. unfold Dict.keys. rewrite map_map. reflexivity. Qed.

Lemma values_as_decoded (d : Dict.t Judged) :
  Dict.values (map as_decoded_entry d) = map as_decoded (Dict.values d).
Proof. unfold Dict.values. rewrite !map_map. reflexivity. Qed.

Lemma run_judges_as_decoded (completed : list completion) :
  Decoded._run_judges_parallel (map as_decoded_completion completed)
  = map as_decoded_entry (_run_judges_parallel completed).
Proof.
  unfold Decoded._run_judges_parallel, _run_judges_parallel.
  change (@Dict.empty (JudgeResult.t json))
    with (map as_decoded_entry (@Dict.empty Judged)).
  generalize (@Dict.empty Judged).
  induction completed as [|[j o] cs IH]; intros d; simpl; auto.
  destruct o as [r|e]; simpl; [|apply IH].
  rewrite <- set_as_decoded. apply IH.
Qed.

Lemma collect_entries_as_decoded (p : string) (ss : list Score)
  (acc : score_lists) :
  fold_left
    (fun acc score =>
       if Decoded.py_eq (ProviderScore.provider score) (JStr p)
       then Decoded.append_score acc score else acc)
    (map as_decoded_score ss) acc
  = fold_left
      (fun acc score =>
         if String.eqb (ProviderScore.provider score) p
         then append_score acc score else acc)
      ss acc.
Proof.
  revert acc; induction ss as [|s ss IH]; intros acc; [reflexivity|].
  simpl. apply IH.
Qed.

Lemma collect_scores_as_decoded (p : string) (d : Dict.t Judged) :
  Decoded.collect_scores p (map as_decoded_entry d) = collect_scores p d.
Proof.
  unfold Decoded.collect_scores, collect_scores.
  rewrite values_as_decoded. generalize no_scores.
  induction (Dict.values d) as [|r rs IH]; intros acc; [reflexivity|].
  simpl. rewrite collect_entries_as_decoded. apply IH.
Qed.

Lemma consensus_scores_as_decoded (d : Dict.t Judged)
  (provider_outputs : provider_outputs_t) :
  Decoded._calculate_consensus_scores (map as_decoded_entry d) provider_outputs
  = _calculate_consensus_scores d provider_outputs.
Proof.
  unfold Decoded._calculate_consensus_scores, _calculate_consensus_scores.
  apply for_each_ext. intros s p _. cbv zeta.
  now rewrite collect_scores_as_decoded.
Qed.

Lemma votes_get_as_decoded (votes : Dict.t nat) (w : string) :
  Decoded.votes_get (map as_decoded_vote votes) (JStr w) 0
  = Dict.get_default votes w 0.
Proof.
  unfold Dict.get_default.
  induction votes as [|[k n] votes IH]; simpl; auto.
  destruct (String.eqb k w); auto.
Qed.

Lemma votes_set_as_decoded (votes : Dict.t nat) (w : string) (n : nat) :
  Decoded.votes_set (map as_decoded_vote votes) (JStr w) n
  = map as_decoded_vote (Dict.set votes w n).
Proof.
  induction votes as [|[k m] votes IH]; simpl; auto.
  destruct (String.eqb k w); simpl; auto. now rewrite IH.
Qed.

Lemma count_votes_as_decoded (d : Dict.t Judged) :
  Decoded.count_votes (map as_decoded_entry d)
  = Returned (map as_decoded_vote (count_votes d)).
Proof.
  unfold Decoded.count_votes, count_votes.
  rewrite values_as_decoded.
  change (@nil (json * nat)) with (map as_decoded_vote (@Dict.empty nat)).
  generalize (@Dict.empty nat).
  induction (Dict.values d) as [|r rs IH]; intros votes; simpl; auto.
  rewrite votes_get_as_decoded, votes_set_as_decoded. apply IH.
Qed.

Lemma max_from_as_decoded (best : string * nat) (rest : list (string * nat)) :
  Decoded.max_from (as_decoded_vote best) (map as_decoded_vote rest)
  = as_decoded_vote (max_from best rest).
Proof.
  revert best; induction rest as [|x rest IH]; intros best; simpl; auto.
  destruct (Nat.ltb (snd best) (snd x)); apply IH.
Qed.

Lemma consensus_winner_as_decoded (d : Dict.t Judged) :
  Decoded._determine_consensus_winner (map as_decoded_entry d)
  = map_result (fun wv => (JStr (fst wv), map as_decoded_vote (snd wv)))
      (_determine_consensus_winner d).
Proof.
  unfold Decoded._determine_consensus_winner, _determine_consensus_winner.
  rewrite count_votes_as_decoded. cbv zeta. cbn [bind].
  unfold Dict.items.
  destruct (count_votes d) as [|x rest]; [reflexivity|].
  cbn [map Decoded.max_by_votes max_by_votes bind map_result].
  rewrite max_from_as_decoded. reflexivity.
Qed.

Lemma overall_vector_as_decoded (r : Judged) :
  Decoded.overall_vector (as_decoded r) = overall_vector r.
Proof.
  unfold Decoded.overall_vector, overall_vector. cbn [as_decoded JudgeResult.provider_scores].
  rewrite map_map. reflexivity.
Qed.

Lemma correlate_pair_as_decoded (d : Dict.t Judged) (names : list string)
  (i j : nat) (correlations : Dict.t R) :
  Decoded.correlate_pair (map as_decoded_entry d) names i correlations j
  = correlate_pair d names i correlations j.
Proof.
  unfold Decoded.correlate_pair, correlate_pair, Dict.getitem. cbv zeta.
  rewrite !get_as_decoded.
  destruct (Dict.get d (nth i names EmptyString)) as [r1|]; [|reflexivity].
  cbn [option_map bind].
  destruct (Dict.get d (nth j names EmptyString)) as [r2|]; [|reflexivity].
  cbn [option_map bind]. now rewrite !overall_vector_as_decoded.
Qed.

Lemma pairwise_correlations_as_decoded (d : Dict.t Judged) :
  Decoded.pairwise_correlations (map as_decoded_entry d)
  = pairwise_correlations d.
Proof.
  unfold Decoded.pairwise_correlations, pairwise_correlations. cbv zeta.
  rewrite keys_as_decoded.
  apply for_each_ext. intros correlations i _.
  apply for_each_ext. intros c j _. apply correlate_pair_as_decoded.
Qed.

Lemma count_first_as_decoded (all rs : list Judged) (count : nat) :
  for_each
    (fun winner_votes_count r =>
       match nth_error (map as_decoded all) 0 with
       | None => Raised IndexError
       | Some first =>
           if Decoded.py_eq (JudgeResult.winner r) (JudgeResult.winner first)
           then Returned (winner_votes_count + 1)%nat
           else Returned winner_votes_count
       end)
    (map as_decoded rs) count
  = for_each
      (fun winner_votes_count r =>
         match nth_error all 0 with
         | None => Raised IndexError
         | Some first =>
             if String.eqb (JudgeResult.winner r) (JudgeResult.winner first)
             then Returned (winner_votes_count + 1)%nat
             else Returned winner_votes_count
         end)
      rs count.
Proof.
  destruct all as [|first all]; cbn [map nth_error].
  - destruct rs; reflexivity.
  - revert count; induction rs as [|r rs IH]; intros count; [reflexivity|].
    cbn [map for_each as_decoded JudgeResult.winner Decoded.py_eq].
    destruct (String.eqb (JudgeResult.winner r) (JudgeResult.winner first));
      cbn [bind]; apply IH.
Qed.

Lemma count_first_winner_as_decoded (d : Dict.t Judged) :
  Decoded.count_first_winner (map as_decoded_entry d) = count_first_winner d.
Proof.
  unfold Decoded.count_first_winner, count_first_winner. cbv zeta.
  rewrite values_as_decoded. apply count_first_as_decoded.
Qed.

Lemma calculate_agreement_as_decoded (d : Dict.t Judged)
  (consensus_scores : Dict.t ConsensusScore.t) :
  Decoded._calculate_agreement (map as_decoded_entry d) consensus_scores
  = _calculate_agreement d consensus_scores.
Proof.
  unfold Decoded._calculate_agreement, _calculate_agreement.
  rewrite pairwise_correlations_as_decoded, count_first_winner_as_decoded.
  now rewrite length_map.
Qed.

(** On results of the declared types the panel on decoded values does
    what the panel on the declared types does. *)
Lemma judge_document_as_decoded (completed : list completion)
  (now document_name : string) (provider_outputs : provider_outputs_t) :
  Decoded.judge_document (map as_decoded_completion completed) now
    document_name provider_outputs
  = map_result as_decoded_panel
      (judge_document completed now document_name provider_outputs).
Proof.
  unfold Decoded.judge_document, judge_document. cbv zeta.
  rewrite run_judges_as_decoded, consensus_scores_as_decoded.
  destruct (_calculate_consensus_scores (_run_judges_parallel completed)
              provider_outputs) as [cs|e]; [|reflexivity].
  cbn [bind]. rewrite consensus_winner_as_decoded.
  destruct (_determine_consensus_winner (_run_judges_parallel completed))
    as [wv|e]; [|reflexivity].
  cbn [bind map_result]. rewrite calculate_agreement_as_decoded.
  destruct (_calculate_agreement (_run_judges_parallel completed) cs)
    as [ag|e]; [|reflexivity].
  cbn [bind map_result]. unfold as_decoded_panel.
  cbn [PanelResult.document_name PanelResult.timestamp PanelResult.judges_used
       PanelResult.individual_results PanelResult.consensus_method
       PanelResult.consensus_scores PanelResult.consensus_winner
       PanelResult.winner_votes PanelResult.agreement PanelResult.total_cost
       PanelResult.total_thinking_tokens fst snd].
  rewrite values_as_decoded, !map_map. reflexivity.
Qed.





(** ** The library median on small samples *)

Lemma median_one (a : Q) : median [a] = Returned a.
Proof. reflexivity. Qed.

Lemma median_two (a b : Q) :
  exists m, median [a; b] = Returned m /\ (m == (a + b) / 2)%Q.
Proof.
  unfold median, sorted. simpl.
  destruct (Qle_bool a b); simpl; eexists; split; try reflexivity.
  field.
Qed.

Lemma median_example_odd : median [9; 7; 8]%Q = Returned 8%Q.
Proof. reflexivity. Qed.

Lemma median_example_even : median [9; 7; 8; 10]%Q = Returned ((8 + 9) / 2)%Q.
Proof. reflexivity. Qed.

Lemma spread_example : spread [8; 9; 10]%Q = 1%R.
Proof.
  unfold spread. simpl.
  assert (E : (sample_variance [8; 9; 10]%Q == 1)%Q) by reflexivity.
  rewrite (Qeq_eqR _ _ E), RMicromega.Q2R_1. apply sqrt_1.
Qed.

Lemma spread_one (a : Q) : spread [a] = 0%R.
Proof. reflexivity. Qed.

Lemma insert_perm (x : Q) (l : list Q) : Permutation (insert x l) (x :: l).
Proof.
  induction l as [|y l IH]; simpl; auto.
  destruct (Qle_bool y x); auto.
  rewrite IH. apply perm_swap.
Qed.

Lemma sorted_perm (xs : list Q) : Permutation (sorted xs) xs.
Proof.
  unfold sorted.
  assert (H : forall acc,
            Permutation (fold_left (fun acc x => insert x acc) xs acc) (acc ++ xs)).
  { induction xs as [|x xs IH]; intros acc; simpl.
    - now rewrite app_nil_r.
    - rewrite IH, insert_perm. apply Permutation_middle. }
  apply (H []).
Qed.

Lemma insert_sorted (x : Q) (l : list Q) :
  StronglySorted Qle l -> StronglySorted Qle (insert x l).
Proof.
  induction 1 as [|y l Hl IH Hy]; simpl.
  - repeat constructor.
  - destruct (Qle_bool y x) eqn:E.
    + constructor; auto.
      apply Qle_bool_iff in E.
      rewrite Forall_forall in *. intros z Hz.
      apply (Permutation_in _ (insert_perm x l)) in Hz.
      destruct Hz as [<-|Hz]; auto.
    + assert (Hxy : (x <= y)%Q).
      { destruct (Qlt_le_dec x y) as [H|H]; [now apply Qlt_le_weak|].
        apply Qle_bool_iff in H. congruence. }
      constructor; [constructor; auto|].
      constructor; auto.
      rewrite Forall_forall in *. intros z Hz.
      eapply Qle_trans; eauto.
Qed.

Lemma sorted_is_sorted (xs : list Q) : StronglySorted Qle (sorted xs).
Proof.
  unfold sorted.
  assert (H : forall acc, StronglySorted Qle acc ->
            StronglySorted Qle (fold_left (fun acc x => insert x acc) xs acc)).
  { induction xs as [|x xs IH]; intros acc Hacc; simpl; auto.
    apply IH. now apply insert_sorted. }
  apply H. constructor.
Qed.

Lemma judge_document_consensus (completed : list completion)
  (now document_name : string) (provider_outputs : provider_outputs_t)
  (pr : PanelResult.t) :
  judge_document completed now document_name provider_outputs = Returned pr ->
  _calculate_consensus_scores (_run_judges_parallel completed) provider_outputs
  = Returned (PanelResult.consensus_scores pr).
Proof.
  intros Hpr. unfold judge_document in Hpr. cbv zeta in Hpr.
  apply bind_returned in Hpr. destruct Hpr as [cs [Ecs Hpr]].
  apply bind_returned in Hpr. destruct Hpr as [wv [_ Hpr]].
  apply bind_returned in Hpr. destruct Hpr as [ag [_ Hpr]].
  inversion Hpr. exact Ecs.
Qed.

(** C1, as stated, fails: nothing keeps a judge from listing a provider
    more than once, and the panel takes every entry.  Here one judge
    returns and lists provider A twice, with completeness 2 and 10 and
    overall quality 4 and 8; provider A is scored by k = 1 judge, and
    its spreads are not 0: they are the standard deviations of the
    judge's two entries. *)
Lemma provider_listed_twice_has_a_spread :
  exists pr c v,
    judge_document example_listed_twice "now" "lease.pdf" example_outputs
      = Returned pr /\
    length (scorers "A" (survivors example_listed_twice)) = 1%nat /\
    Dict.get (PanelResult.consensus_scores pr) "A" = Some c /\
    (ConsensusScore.completeness c == 6)%Q /\
    Dict.get (ConsensusScore.score_variance c) "completeness" = Some v /\
    v <> 0%R.
Proof.
  assert (Hne : survivors example_listed_twice <> []) by (simpl; discriminate).
  destruct (judge_document_spec example_listed_twice "now" "lease.pdf"
              example_outputs Hne)
    as [cs [w [ag [Ecs [_ [_ [_ Ejd]]]]]]].
  destruct (calculate_consensus_scores_spec
              (_run_judges_parallel example_listed_twice) example_outputs)
    as [cs' [Ecs' Hget]].
  rewrite Ecs in Ecs'. inversion Ecs'; subst cs'. clear Ecs'.
  assert (Hentries : entries_for "A"
                       (Dict.values (_run_judges_parallel example_listed_twice))
                     = [example_score "A" 2 9 10 8 4;
                        example_score "A" 10 9 10 8 8]) by reflexivity.
  assert (Hsome : entries_for "A"
                    (Dict.values (_run_judges_parallel example_listed_twice))
                  <> []) by (rewrite Hentries; discriminate).
  destruct (consensus_for_some "A" _ Hsome) as [c [Ec Emade]].
  destruct (make_consensus_spec "A" Hsome)
    as [c' [E' [_ [Hm [_ [_ [_ [_ Hvar]]]]]]]].
  rewrite Emade in E'. inversion E'; subst c'. clear E'.
  rewrite Hentries in Hm, Hvar. cbn [map] in Hm, Hvar.
  eexists. exists c. eexists.
  split; [exact Ejd|].
  split; [reflexivity|].
  cbn [panel_result PanelResult.consensus_scores].
  split; [rewrite Hget; exact Ec|].
  split.
  { assert (E6 : median [ProviderScore.completeness (example_score "A" 2 9 10 8 4);
                         ProviderScore.completeness (example_score "A" 10 9 10 8 8)]
                 = Returned ((2 + 10) / 2)%Q) by reflexivity.
    rewrite E6 in Hm. inversion Hm as [Hc]. reflexivity. }
  split; [rewrite Hvar; reflexivity|].
  unfold spread. cbn [length Nat.eqb].
  assert (E : (sample_variance
                 [ProviderScore.completeness (example_score "A" 2 9 10 8 4);
                  ProviderScore.completeness (example_score "A" 10 9 10 8 8)]
               == 32)%Q) by reflexivity.
  rewrite (Qeq_eqR _ _ E).
  assert (Hpos : (0 < sqrt (Q2R 32))%R).
  { apply sqrt_lt_R0. rewrite <- RMicromega.Q2R_0. apply Qlt_Rlt. reflexivity. }
  Lra.lra.
Qed.

(** C1, amended.  For a provider [p] of [provider_outputs], the entries
    for [p] are all the score entries naming [p] in the surviving judges'
    results, a judge that lists [p] more than once contributing each of
    its entries.  Whenever [judge_document] returns, each criterion of
    [consensus_scores[p]] is the median of the entries' values for that
    criterion, and its [score_variance] is 0 for a single entry and the
    sample standard deviation of the values for two or more.  Where every
    judge lists [p] at most once, the entries' values are the scoring
    judges' values, one per judge.  A provider without an entry (that is,
    scored by no judge) is absent from [consensus_scores], and computing
    its consensus raises nothing. *)
Theorem consensus_scores_are_medians_of_all_entries
  (completed : list completion) (now document_name : string)
  (provider_outputs : provider_outputs_t) (p : string) (pr : PanelResult.t) :
  dispatched completed ->
  In p (Dict.keys provider_outputs) ->
  judge_document completed now document_name provider_outputs = Returned pr ->
  let entries := entries_for p (survivors completed) in
  let values := fun criterion : Score -> Q => map criterion entries in
  (entries = [] <-> scorers p (survivors completed) = []) /\
  (Forall (scores_once p) (survivors completed) ->
   forall criterion,
     values criterion
     = map (judge_value criterion p) (scorers p (survivors completed))) /\
  (entries = [] ->
   Dict.get (PanelResult.consensus_scores pr) p = None /\
   forall events,
     _calculate_consensus_scores (_run_judges_parallel completed) [(p, events)]
     = Returned []) /\
  (entries <> [] ->
   exists c,
     Dict.get (PanelResult.consensus_scores pr) p = Some c /\
     ConsensusScore.provider c = p /\
     median (values (@ProviderScore.completeness string))
       = Returned (ConsensusScore.completeness c) /\
     median (values (@ProviderScore.accuracy string))
       = Returned (ConsensusScore.accuracy c) /\
     median (values (@ProviderScore.hallucinations string))
       = Returned (ConsensusScore.hallucinations c) /\
     median (values (@ProviderScore.citation_quality string))
       = Returned (ConsensusScore.citation_quality c) /\
     median (values (@ProviderScore.overall_quality string))
       = Returned (ConsensusScore.overall_quality c) /\
     ConsensusScore.score_variance c =
       [("completeness", spread (values (@ProviderScore.completeness string)));
        ("accuracy", spread (values (@ProviderScore.accuracy string)));
        ("hallucinations", spread (values (@ProviderScore.hallucinations string)));
        ("citation_quality",
         spread (values (@ProviderScore.citation_quality string)));
        ("overall_quality",
         spread (values (@ProviderScore.overall_quality string)))]%string /\
     forall criterion : Score -> Q,
       length (values criterion) = length entries /\
       (length entries = 1%nat -> spread (values criterion) = 0%R) /\
       ((2 <= length entries)%nat ->
        spread (values criterion)
        = sqrt (Q2R (sample_variance (values criterion))))).
Proof.
  intros Hd Hp Hpr entries values.
  pose proof (@judge_document_consensus _ _ _ _ _ Hpr) as Ecs.
  destruct (calculate_consensus_scores_spec (_run_judges_parallel completed)
              provider_outputs) as [cs [Ecs' Hget]].
  rewrite Ecs in Ecs'. inversion Ecs' as [Hcs]. clear Ecs'.
  specialize (Hget p). rewrite <- Hcs in Hget.
  rewrite (proj2 (member_In p (Dict.keys provider_outputs)) Hp) in Hget.
  rewrite (run_judges_values Hd) in Hget.
  split; [split; intros H; now apply entries_none|].
  split.
  { intros Honce criterion. unfold values, entries.
    now apply entries_once. }
  split.
  { intros Hnone. split.
    - rewrite Hget. unfold consensus_for. fold entries. now rewrite Hnone.
    - intros events. unfold _calculate_consensus_scores.
      cbn [Dict.keys map fst for_each].
      rewrite collect_scores_entries, (run_judges_values Hd).
      fold entries. rewrite Hnone. reflexivity. }
  intros Hne. unfold entries in Hne.
  destruct (consensus_for_some p _ Hne) as [c [Ec Em]].
  destruct (make_consensus_spec p Hne) as [c' [Em' Hc]].
  rewrite Em in Em'. inversion Em'; subst c'. clear Em'.
  exists c. split; [congruence|].
  destruct Hc as [H0 [H1 [H2 [H3 [H4 [H5 H6]]]]]].
  repeat (split; [assumption|]).
  intros criterion. unfold values.
  split; [apply length_map|].
  unfold spread. rewrite length_map.
  split; intros Hk.
  - now rewrite Hk.
  - destruct (Nat.eqb (length entries) 1) eqn:E; auto.
    apply Nat.eqb_eq in E. lia.
Qed.

Lemma consensus_scores_are_medians_of_all_entries_witness :
  exists pr c,
    judge_document example_completed "now" "lease.pdf" example_outputs
      = Returned pr /\
    Dict.get (PanelResult.consensus_scores pr) "A" = Some c /\
    ConsensusScore.overall_quality c = 9%Q /\
    ConsensusScore.completeness c = 9%Q.
Proof.
  assert (Hne : survivors example_completed <> []) by (simpl; discriminate).
  destruct (judge_document_spec example_completed "now" "lease.pdf"
              example_outputs Hne)
    as [cs [w [ag [_ [_ [_ [_ Ejd]]]]]]].
  destruct (@consensus_scores_are_medians_of_all_entries example_completed
              "now" "lease.pdf" example_outputs "A" _
              example_completed_dispatched (or_introl eq_refl) Ejd)
    as [_ [_ [_ H]]].
  destruct H as [c [Hget [_ [Hc [_ [_ [_ [Ho _]]]]]]]].
  - simpl. discriminate.
  - eexists. exists c. split; [exact Ejd|]. split; [exact Hget|].
    match type of Ho with
    | ?l = _ => let v := eval vm_compute in l in change l with v in Ho
    end.
    match type of Hc with
    | ?l = _ => let v := eval vm_compute in l in change l with v in Hc
    end.
    injection Ho as Ho. injection Hc as Hc. split; symmetry; assumption.
Defined.

Section PearsonOnDoubles.
Import PrimFloat.

(** C6.  On doubles [_pearson_correlation] is not total.  For the two
    identical, non-constant score lists [0.0, 2^-332] the mean is 2^-333,
    both sums of squares are 2^-665 and pass the zero-variance guard,
    their product underflows to 0.0, and the division raises
    [ZeroDivisionError].  This holds for every [statistics.mean] and
    every C library [pow] that return the exact mean and the exact
    square, both doubles, on this input. *)
Theorem pearson_correlation_raises_on_underflow
  (statistics_mean : list float -> result float)
  (libm_pow : float -> float -> float) :
  statistics_mean Binary64.tiny_scores = Returned 0x1p-333%float ->
  libm_pow 0x1p-333%float 2%float = 0x1p-666%float ->
  Binary64._pearson_correlation statistics_mean libm_pow
    Binary64.tiny_scores Binary64.tiny_scores = Raised ZeroDivisionError.
Proof.
  intros Hmean Hpow.
  assert (Hsq : Binary64.sum_of_squares libm_pow
                  [(-0x1p-333)%float; 0x1p-333%float]
                = Returned 0x1p-665%float).
  { unfold Binary64.sum_of_squares, Binary64.square, Binary64.pow_of_positive.
    cbn [for_each].
    change (is_nan (-0x1p-333)%float) with false.
    change (is_infinity (-0x1p-333)%float) with false.
    change (eqb (-0x1p-333) 0)%float with false.
    change (abs (-0x1p-333)%float) with 0x1p-333%float.
    change (is_nan 0x1p-333%float) with false.
    change (is_infinity 0x1p-333%float) with false.
    change (eqb 0x1p-333 0)%float with false.
    change (abs 0x1p-333%float) with 0x1p-333%float.
    change (eqb 0x1p-333 1)%float with false.
    cbv iota zeta. rewrite Hpow. reflexivity. }
  unfold Binary64._pearson_correlation.
  rewrite Hmean. unfold Binary64.tiny_scores.
  cbn [length Nat.eqb Nat.ltb Nat.leb negb orb bind seq map nth].
  change (0 - 0x1p-333)%float with (-0x1p-333)%float.
  change (0x1p-332 - 0x1p-333)%float with 0x1p-333%float.
  rewrite Hsq. reflexivity.
Qed.

Lemma pearson_correlation_raises_on_underflow_witness :
  Binary64._pearson_correlation Binary64.rounded_mean Binary64.rounded_pow
    Binary64.tiny_scores Binary64.tiny_scores = Raised ZeroDivisionError.
Proof.
  apply (pearson_correlation_raises_on_underflow
           Binary64.rounded_mean Binary64.rounded_pow); reflexivity.
Defined.
End PearsonOnDoubles.

(** The unordered pairs, each once. *)
Lemma pairs_of_spec {A : Type} (l : list A) (a b : A) :
  In (a, b) (pairs_of l) <-> exists l1 l2 l3, l = l1 ++ a :: l2 ++ b :: l3.
Proof.
  induction l as [|x l IH]; simpl.
  - split; [tauto|]. intros [l1 [l2 [l3 H]]]. destruct l1; discriminate.
  - rewrite in_app_iff, in_map_iff, IH. split.
    + intros [[y [E Hy]]|[l1 [l2 [l3 H]]]].
      * inversion E; subst. apply in_split in Hy. destruct Hy as [l2 [l3 ->]].
        exists [], l2, l3. reflexivity.
      * exists (x :: l1), l2, l3. now rewrite H.
    + intros [l1 [l2 [l3 H]]]. destruct l1 as [|z l1]; simpl in H.
      * injection H as -> ->. left. exists b. split; auto.
        apply in_or_app; right; left; reflexivity.
      * injection H as -> ->. right. exists l1, l2, l3. reflexivity.
Qed.

Lemma comparable_spec (r1 r2 : Judged) :
  comparable r1 r2 = true <->
  length (overall_vector r1) = length (overall_vector r2) /\
  (2 <= length (overall_vector r1))%nat.
Proof.
  unfold comparable. rewrite andb_true_iff, Nat.eqb_eq, Nat.ltb_lt. lia.
Qed.

(** Judges that list the same providers in opposite orders, with the same
    score per provider, correlate at -1: the vectors are compared
    position by position. *)
Lemma positional_alignment_example :
  _pearson_correlation [9; 7]%Q [7; 9]%Q = Returned (-1)%R.
Proof.
  rewrite pearson_unfold by (simpl; lia).
  assert (Ex : Qeq_bool (dev_sq [9; 7]%Q) 0 = false) by reflexivity.
  assert (Ey : Qeq_bool (dev_sq [7; 9]%Q) 0 = false) by reflexivity.
  rewrite Ex, Ey. cbn [orb]. unfold div_by_root.
  rewrite (Qeq_bool_false_mult _ _ Ex Ey). f_equal.
  assert (En : (co_dev [9; 7] [7; 9] == -2 # 1)%Q) by reflexivity.
  assert (Ed : (dev_sq [9; 7] * dev_sq [7; 9] == 2 * 2)%Q) by reflexivity.
  rewrite (Qeq_eqR _ _ En), (Qeq_eqR _ _ Ed), Q2R_mult.
  assert (E2 : Q2R 2 = 2%R) by (unfold Q2R; simpl; Lra.lra).
  assert (Em : Q2R (-2 # 1) = (-2)%R) by (unfold Q2R; simpl; Lra.lra).
  rewrite E2, Em, sqrt_square by Lra.lra. Lra.lra.
Qed.



(** ** Construction *)

Lemma try_append_shape (getenv : string -> option string)
  (construct : Judge -> string -> result unit)
  (judges : list Judge) (j : Judge) (key : option string) :
  exists b : bool,
    try_append construct judges j key = judges ++ (if b then [j] else []) /\
    (truthy key = false -> b = false).
Proof.
  unfold try_append, truthy.
  destruct key as [[|c k]|].
  - exists false. rewrite app_nil_r. auto.
  - destruct (construct j (String c k)).
    + exists true. split; [reflexivity | discriminate].
    + exists false. rewrite app_nil_r. split; [reflexivity | discriminate].
  - exists false. rewrite app_nil_r. auto.
Qed.

Lemma initialized_judges_shape (getenv : string -> option string)
  (construct : Judge -> string -> result unit) (args : api_keys) :
  exists a b c : bool,
    initialized_judges getenv construct args
    = (if a then [GPT5Judge] else [])
      ++ (if b then [ClaudeOpusJudge] else [])
      ++ (if c then [GeminiProJudge] else []) /\
    (truthy (py_or (gpt5_api_key args) (getenv "OPENAI_API_KEY"%string)) = false ->
     a = false) /\
    (truthy (py_or (claude_api_key args) (getenv "ANTHROPIC_API_KEY"%string)) = false ->
     b = false) /\
    (truthy (py_or (gemini_api_key args) (getenv "GEMINI_API_KEY"%string)) = false ->
     c = false).
Proof.
  unfold initialized_judges. cbv zeta.
  destruct (try_append_shape getenv construct [] GPT5Judge
              (py_or (gpt5_api_key args) (getenv "OPENAI_API_KEY"%string)))
    as [a [Ea Ha]].
  rewrite Ea.
  destruct (try_append_shape getenv construct ([] ++ (if a then [GPT5Judge] else []))
              ClaudeOpusJudge
              (py_or (claude_api_key args) (getenv "ANTHROPIC_API_KEY"%string)))
    as [b [Eb Hb]].
  rewrite Eb.
  destruct (try_append_shape getenv construct
              (([] ++ (if a then [GPT5Judge] else []))
               ++ (if b then [ClaudeOpusJudge] else []))
              GeminiProJudge
              (py_or (gemini_api_key args) (getenv "GEMINI_API_KEY"%string)))
    as [c [Ec Hc]].
  rewrite Ec.
  exists a, b, c. split; [|auto].
  simpl. now rewrite <- app_assoc.
Qed.



(** ** The judges *)

Lemma for_each_raises {A St : Type} (body : St -> A -> result St)
  (xs : list A) (x : A) :
  In x xs -> (forall s, exists e, body s x = Raised e) ->
  forall s, exists e, for_each body xs s = Raised e.
Proof.
  intros Hin Hx. induction xs as [|a xs IH]; [contradiction|].
  intros s. simpl.
  destruct Hin as [->|Hin].
  - destruct (Hx s) as [e E]. rewrite E. simpl. eauto.
  - destruct (body s a) as [s'|e]; simpl; eauto.
Qed.

(** A loop that appends what [f] returns collects one item per element. *)
Lemma for_each_collect {A B : Type} (f : A -> result B) (xs : list A)
  (acc out : list B) :
  for_each (fun acc x => y <- f x ;; Returned (acc ++ [y])) xs acc = Returned out ->
  exists ys, out = acc ++ ys /\ Forall2 (fun x y => f x = Returned y) xs ys.
Proof.
  revert acc; induction xs as [|x xs IH]; intros acc H; simpl in H.
  - inversion H; subst. exists []. rewrite app_nil_r. auto.
  - destruct (f x) as [y|e] eqn:E; simpl in H; [|discriminate].
    destruct (IH _ H) as [ys [-> Hys]].
    exists (y :: ys). rewrite <- app_assoc. auto.
Qed.

Lemma for_each_collect_returns {A B : Type} (f : A -> result B) (xs : list A)
  (acc : list B) :
  Forall (fun x => returns (f x)) xs ->
  returns (for_each (fun acc x => y <- f x ;; Returned (acc ++ [y])) xs acc).
Proof.
  intros H; revert acc; induction H as [|x xs [y Hx] Hxs IH]; intros acc; simpl.
  - now exists acc.
  - rewrite Hx. simpl. apply IH.
Qed.

Section JudgeFacts.

Variable json_loads : string -> option json.
Variable float_of_str : string -> option Q.

Lemma make_score_lacks (document_name : string)
  (provider_outputs : provider_outputs_t) (entry : json) (f : string) :
  In f required_entry_fields -> lacks_field entry f ->
  exists e, make_score float_of_str document_name provider_outputs entry = Raised e.
Proof.
  intros Hf [em [-> Hnone]].
  unfold make_score, subscript, Dict.getitem.
  simpl in Hf.
  repeat (destruct Hf as [<-|Hf]; [rewrite !Hnone|]); try contradiction;
    repeat match goal with
           | |- context [Dict.get em ?k] =>
               destruct (Dict.get em k); cbn [bind]
           | |- context [float float_of_str ?v] =>
               destruct (float float_of_str v); cbn [bind]
           end;
    eauto.
Qed.

Lemma make_score_scored (document_name : string)
  (provider_outputs : provider_outputs_t) (entry : json)
  (score : ProviderScore.t json) :
  make_score float_of_str document_name provider_outputs entry = Returned score ->
  entry_scored float_of_str document_name provider_outputs entry score.
Proof.
  unfold make_score, entry_scored. intros H.
  destruct (subscript entry "provider") as [pv|] eqn:Ep; cbn [bind] in H;
    [|discriminate].
  destruct (v <- subscript entry "completeness" ;; float float_of_str v)
    as [c1|] eqn:E1; cbn [bind] in H; [|discriminate].
  destruct (v <- subscript entry "accuracy" ;; float float_of_str v)
    as [c2|] eqn:E2; cbn [bind] in H; [|discriminate].
  destruct (v <- subscript entry "hallucinations" ;; float float_of_str v)
    as [c3|] eqn:E3; cbn [bind] in H; [|discriminate].
  destruct (v <- subscript entry "citation_quality" ;; float float_of_str v)
    as [c4|] eqn:E4; cbn [bind] in H; [|discriminate].
  destruct (v <- subscript entry "overall_quality" ;; float float_of_str v)
    as [c5|] eqn:E5; cbn [bind] in H; [|discriminate].
  destruct (subscript entry "reasoning") as [rv|] eqn:Er; cbn [bind] in H;
    [|discriminate].
  destruct (outputs_get provider_outputs pv) as [events|] eqn:Eo;
    cbn [bind] in H; [|discriminate].
  inversion H; subst; clear H. cbn.
  repeat (split; [reflexivity|]).
  intros s ->. simpl in Eo. now inversion Eo.
Qed.

Lemma make_score_well_formed (document_name : string)
  (provider_outputs : provider_outputs_t) (entry : json) :
  well_formed_entry entry ->
  returns (make_score float_of_str document_name provider_outputs entry).
Proof.
  intros [em [s [-> [Hp [Hnum [v Hr]]]]]].
  unfold make_score, subscript, Dict.getitem, returns.
  destruct (Hnum "completeness"%string) as [q1 E1]; [simpl; tauto|].
  destruct (Hnum "accuracy"%string) as [q2 E2]; [simpl; tauto|].
  destruct (Hnum "hallucinations"%string) as [q3 E3]; [simpl; tauto|].
  destruct (Hnum "citation_quality"%string) as [q4 E4]; [simpl; tauto|].
  destruct (Hnum "overall_quality"%string) as [q5 E5]; [simpl; tauto|].
  rewrite Hp, E1, E2, E3, E4, E5, Hr. cbn. eexists; reflexivity.
Qed.

(** What the call does once the response decodes to an object whose
    "providers" is a list. *)
Lemma judge_providers_on_entries (self : Judge) (reply : api_reply)
  (now document_name : string) (provider_outputs : provider_outputs_t)
  (m : list (string * json)) (entries : list json) :
  json_loads (response_text reply) = Some (JObj m) ->
  Dict.get_default m "providers" (JArr []) = JArr entries ->
  judge_providers json_loads float_of_str self (Returned reply) now
    document_name provider_outputs
  = (provider_scores <-
       for_each
         (fun provider_scores provider_data =>
            score <- make_score float_of_str document_name provider_outputs
                       provider_data ;;
            Returned (provider_scores ++ [score]))
         entries [] ;;
     Returned
       {| JudgeResult.judge_name := judge_name_of self;
          JudgeResult.model := model_of self;
          JudgeResult.document_name := document_name;
          JudgeResult.provider_scores := provider_scores;
          JudgeResult.winner := Dict.get_default m "winner" (JStr "unknown");
          JudgeResult.timestamp := now;
          JudgeResult.cost := last_cost reply;
          JudgeResult.thinking_tokens :=
            match self with
            | GeminiProJudge => 0%Q
            | _ => last_thinking_tokens reply
            end |}).
Proof.
  intros Hloads Hproviders. unfold judge_providers. cbn [bind].
  rewrite Hloads. cbn [bind]. unfold dict_get. cbn [bind].
  rewrite Hproviders. cbn [iterate bind]. reflexivity.
Qed.

End JudgeFacts.







(** * Further properties of the panel *)

(** ** Pearson correlation: symmetry *)

Lemma map_fst_combine_eq {A B : Type} (x : list A) (y : list B) :
  length x = length y -> map fst (combine x y) = x.
Proof.
  revert y; induction x as [|a x IH]; intros [|b y] H; simpl in *;
    try discriminate; auto.
  f_equal. apply IH. lia.
Qed.

Lemma map_snd_combine_eq {A B : Type} (x : list A) (y : list B) :
  length x = length y -> map snd (combine x y) = y.
Proof.
  revert y; induction x as [|a x IH]; intros [|b y] H; simpl in *;
    try discriminate; auto.
  f_equal. apply IH. lia.
Qed.

Lemma combine_swap {A B : Type} (x : list A) (y : list B) :
  combine y x = map (fun ab => (snd ab, fst ab)) (combine x y).
Proof.
  revert y; induction x as [|a x IH]; intros [|b y]; simpl; auto.
  now rewrite IH.
Qed.

Lemma co_dev_sym (x y : list Q) : (co_dev x y == co_dev y x)%Q.
Proof.
  unfold co_dev. cbv zeta. rewrite (combine_swap x y), map_map.
  apply Qsum_map_Qeq. intros [a b] _. cbn [fst snd]. ring.
Qed.

(** X1.  The correlation of two score vectors does not depend on which
    judge comes first: [_pearson_correlation x y] and
    [_pearson_correlation y x] return the same number. *)
Theorem pearson_correlation_symmetric (x y : list Q) :
  _pearson_correlation x y = _pearson_correlation y x.
Proof.
  destruct (Nat.eq_dec (length x) (length y)) as [Hlen|Hlen].
  - destruct (le_lt_dec 2 (length x)) as [H2|H2].
    + rewrite (pearson_unfold x y Hlen H2).
      rewrite (pearson_unfold y x (eq_sym Hlen)) by (rewrite <- Hlen; exact H2).
      rewrite orb_comm.
      destruct (Qeq_bool (dev_sq y) 0) eqn:Ey; [reflexivity|].
      destruct (Qeq_bool (dev_sq x) 0) eqn:Ex; [reflexivity|].
      cbn [orb]. unfold div_by_root.
      rewrite (Qeq_bool_false_mult _ _ Ex Ey), (Qeq_bool_false_mult _ _ Ey Ex).
      f_equal.
      rewrite (Qeq_eqR _ _ (co_dev_sym x y)).
      assert (E : (dev_sq x * dev_sq y == dev_sq y * dev_sq x)%Q) by ring.
      now rewrite (Qeq_eqR _ _ E).
    + rewrite !pearson_degenerate; auto. right. now rewrite <- Hlen.
  - rewrite !pearson_degenerate; auto.
Qed.

(** ** The median: range and independence of the order *)

Lemma sorted_nth_le (s : list Q) (i j : nat) :
  StronglySorted Qle s -> (i <= j)%nat -> (j < length s)%nat ->
  (nth i s 0 <= nth j s 0)%Q.
Proof.
  intros Hs. revert i j. induction Hs as [|a s Hs IH Ha]; intros i j Hij Hj.
  - simpl in Hj. lia.
  - destruct i as [|i], j as [|j]; simpl in *; try lia.
    + apply Qle_refl.
    + rewrite Forall_forall in Ha. apply Ha. apply nth_In. lia.
    + apply IH; lia.
Qed.

Lemma filter_length_perm {A : Type} (f : A -> bool) (l l' : list A) :
  Permutation l l' -> length (filter f l) = length (filter f l').
Proof.
  induction 1 as [|x l l' _ IH|x y l|l l' l'' _ IH1 _ IH2]; simpl; auto.
  - destruct (f x); simpl; auto.
  - destruct (f x), (f y); reflexivity.
  - congruence.
Qed.

Lemma filter_length_impl {A : Type} (f g : A -> bool) (l : list A) :
  (forall x, f x = true -> g x = true) ->
  (length (filter f l) <= length (filter g l))%nat.
Proof.
  intros H. induction l as [|x l IH]; simpl; auto.
  destruct (f x) eqn:E.
  - rewrite (H x E). simpl. lia.
  - destruct (g x); simpl; lia.
Qed.

(** In a sorted list, fewer than [k + 1] values are below the one at
    position [k], and more than [k] are up to it. *)
Lemma sorted_rank (s : list Q) (k : nat) :
  StronglySorted Qle s -> (k < length s)%nat ->
  (length (below (nth k s 0%Q) s) <= k)%nat /\
  (k < length (upto (nth k s 0%Q) s))%nat.
Proof.
  intros Hs. revert k. induction Hs as [|a s Hs IH Ha]; intros k Hk.
  - simpl in Hk. lia.
  - rewrite Forall_forall in Ha. destruct k as [|k]; simpl nth.
    + split.
      * unfold below. simpl.
        rewrite (proj2 (Qle_bool_iff a a) (Qle_refl a)). simpl.
        assert (E : filter (fun x => negb (Qle_bool a x)) s = []).
        { clear - Ha. induction s as [|x s IH]; simpl; auto.
          rewrite (proj2 (Qle_bool_iff a x)) by (apply Ha; left; reflexivity).
          simpl. apply IH. intros y Hy. apply Ha. right; exact Hy. }
        rewrite E. simpl. lia.
      * unfold upto. simpl.
        rewrite (proj2 (Qle_bool_iff a a) (Qle_refl a)). simpl. lia.
    + simpl in Hk. assert (Hk' : (k < length s)%nat) by lia.
      destruct (IH k Hk') as [H1 H2].
      assert (Hav : (a <= nth k s 0)%Q) by (apply Ha; apply nth_In; exact Hk').
      split.
      * unfold below in *. simpl.
        destruct (negb (Qle_bool (nth k s 0%Q) a)); simpl; lia.
      * unfold upto in *. simpl.
        rewrite (proj2 (Qle_bool_iff a (nth k s 0%Q)) Hav). simpl. lia.
Qed.

(** The rank determines the value. *)
Lemma rank_unique (l : list Q) (k : nat) (v v' : Q) :
  (length (below v l) <= k)%nat -> (k < length (upto v l))%nat ->
  (length (below v' l) <= k)%nat -> (k < length (upto v' l))%nat ->
  (v == v')%Q.
Proof.
  intros H1 H2 H3 H4.
  assert (Hno : forall a b,
            (length (below b l) <= k)%nat -> (k < length (upto a l))%nat ->
            ~ (a < b)%Q).
  { intros a b Hb Ha Hlt.
    assert (Hle : (length (upto a l) <= length (below b l))%nat).
    { unfold upto, below. apply filter_length_impl. intros x Hx.
      apply Qle_bool_iff in Hx.
      destruct (Qle_bool b x) eqn:E; auto.
      apply Qle_bool_iff in E. exfalso.
      apply (Qlt_irrefl a). eapply Qlt_le_trans; [exact Hlt|].
      eapply Qle_trans; eauto. }
    lia. }
  destruct (Q_dec v v') as [[H|H]|H]; auto.
  - exfalso. exact (Hno v v' H3 H2 H).
  - exfalso. exact (Hno v' v H1 H4 H).
Qed.

Lemma sorted_nth_perm (l l' : list Q) (k : nat) :
  Permutation l l' -> (k < length l)%nat ->
  (nth k (sorted l) 0 == nth k (sorted l') 0)%Q.
Proof.
  intros Hp Hk.
  assert (Hk1 : (k < length (sorted l))%nat) by now rewrite sorted_length.
  assert (Hk2 : (k < length (sorted l'))%nat)
    by (rewrite sorted_length, <- (Permutation_length Hp); exact Hk).
  destruct (sorted_rank (sorted_is_sorted l) Hk1) as [H1 H2].
  destruct (sorted_rank (sorted_is_sorted l') Hk2) as [H3 H4].
  assert (Hss : Permutation (sorted l') (sorted l)).
  { rewrite (sorted_perm l'), (sorted_perm l). now symmetry. }
  unfold below, upto in *.
  rewrite (filter_length_perm _ Hss) in H3.
  rewrite (filter_length_perm _ Hss) in H4.
  eapply rank_unique; eauto.
Qed.

Lemma median_bounds (l : list Q) (lo hi m : Q) :
  (forall v, In v l -> (lo <= v <= hi)%Q) ->
  median l = Returned m -> (lo <= m <= hi)%Q.
Proof.
  intros Hall. unfold median. cbv zeta. rewrite sorted_length.
  assert (Hin : forall k, (k < length l)%nat ->
                          (lo <= nth k (sorted l) 0 <= hi)%Q).
  { intros k Hk. apply Hall. apply (Permutation_in _ (sorted_perm l)).
    apply nth_In. now rewrite sorted_length. }
  destruct (Nat.eqb (length l) 0) eqn:E0; [discriminate|].
  apply Nat.eqb_neq in E0.
  assert (Hhalf : (length l / 2 < length l)%nat)
    by (apply Nat.div_lt; lia).
  destruct (Nat.eqb (length l mod 2) 1); intros H.
  - assert (Hm : m = nth (length l / 2) (sorted l) 0%Q) by congruence.
    rewrite Hm. now apply Hin.
  - assert (Hm : m = ((nth (length l / 2 - 1) (sorted l) 0
                       + nth (length l / 2) (sorted l) 0) / 2)%Q) by congruence.
    rewrite Hm. clear H Hm.
    pose proof (Hin (length l / 2)%nat Hhalf) as H1.
    assert (H2 : (lo <= nth (length l / 2 - 1) (sorted l) 0 <= hi)%Q)
      by (apply Hin; lia).
    destruct H1, H2. split.
    + apply Qle_shift_div_l; [reflexivity | lra].
    + apply Qle_shift_div_r; [reflexivity | lra].
Qed.

Lemma median_perm (l l' : list Q) :
  Permutation l l' -> same_outcome (median l) (median l').
Proof.
  intros Hp. unfold median. cbv zeta. rewrite !sorted_length.
  rewrite <- (Permutation_length Hp).
  destruct (Nat.eqb (length l) 0) eqn:E0; [reflexivity|].
  apply Nat.eqb_neq in E0.
  assert (Hhalf : (length l / 2 < length l)%nat)
    by (apply Nat.div_lt; lia).
  destruct (Nat.eqb (length l mod 2) 1); unfold same_outcome.
  - now apply sorted_nth_perm.
  - rewrite (sorted_nth_perm Hp Hhalf).
    rewrite (@sorted_nth_perm l l' (length l / 2 - 1) Hp) by lia.
    reflexivity.
Qed.

Lemma Qsum_perm (l l' : list Q) : Permutation l l' -> (Qsum l == Qsum l')%Q.
Proof.
  induction 1 as [|x l l' _ IH|x y l|l l' l'' _ IH1 _ IH2].
  - reflexivity.
  - rewrite !Qsum_cons, IH. reflexivity.
  - rewrite !Qsum_cons. ring.
  - now rewrite IH1.
Qed.

Lemma sample_variance_perm (l l' : list Q) :
  Permutation l l' -> (sample_variance l == sample_variance l')%Q.
Proof.
  intros Hp. unfold sample_variance, sum_sq_dev, Qlen. cbv zeta.
  rewrite <- (Permutation_length Hp).
  set (n := inject_Z (Z.of_nat (length l))).
  assert (Hm : (Qsum l / n == Qsum l' / n)%Q) by now rewrite (Qsum_perm Hp).
  assert (Hs : (Qsum (map (fun x => (x - Qsum l / n) * (x - Qsum l / n)) l)
                == Qsum (map (fun x => (x - Qsum l' / n) * (x - Qsum l' / n)) l'))%Q).
  { rewrite (Qsum_map_Qeq
               (fun x => (x - Qsum l / n) * (x - Qsum l / n))%Q
               (fun x => (x - Qsum l' / n) * (x - Qsum l' / n))%Q l).
    - apply Qsum_perm. now apply Permutation_map.
    - intros a _. now rewrite Hm. }
  now rewrite Hs.
Qed.

Lemma spread_perm (l l' : list Q) : Permutation l l' -> spread l = spread l'.
Proof.
  intros Hp. unfold spread. rewrite <- (Permutation_length Hp).
  destruct (Nat.eqb (length l) 1); auto.
  now rewrite (Qeq_eqR _ _ (sample_variance_perm Hp)).
Qed.

Lemma survivors_perm (c c' : list completion) :
  Permutation c c' -> Permutation (survivors c) (survivors c').
Proof. intros H. unfold survivors. now apply Permutation_flat_map. Qed.

Lemma entries_for_perm (p : string) (rs rs' : list Judged) :
  Permutation rs rs' -> Permutation (entries_for p rs) (entries_for p rs').
Proof. intros H. unfold entries_for. now apply Permutation_flat_map. Qed.

Lemma dispatched_perm (c c' : list completion) :
  Permutation c c' -> dispatched c -> dispatched c'.
Proof.
  intros Hp [Hnd Hall]. split.
  - eapply Permutation_NoDup; [|exact Hnd]. now apply Permutation_map.
  - eapply Permutation_Forall; eauto.
Qed.

Lemma consensus_for_perm (p : string) (rs rs' : list Judged) :
  Permutation rs rs' ->
  same_entry (consensus_for p rs) (consensus_for p rs').
Proof.
  intros Hp. pose proof (entries_for_perm p Hp) as He.
  destruct (entries_for p rs) as [|s ss] eqn:E.
  - apply Permutation_nil in He. unfold consensus_for. rewrite E, He. exact I.
  - assert (Hne : entries_for p rs <> []) by (rewrite E; discriminate).
    assert (Hne' : entries_for p rs' <> []).
    { intros H. rewrite H in He. apply Permutation_sym, Permutation_nil in He.
      discriminate. }
    rewrite <- E in He.
    destruct (consensus_for_some p rs Hne) as [c [Ec Em]].
    destruct (consensus_for_some p rs' Hne') as [c' [Ec' Em']].
    rewrite Ec, Ec'. unfold same_entry.
    destruct (make_consensus_spec p Hne) as [c0 [E0 [Hp0 [H1 [H2 [H3 [H4 [H5 H6]]]]]]]].
    destruct (make_consensus_spec p Hne')
      as [c1 [E1 [Hp1 [G1 [G2 [G3 [G4 [G5 G6]]]]]]]].
    rewrite Em in E0. inversion E0; subst c0.
    rewrite Em' in E1. inversion E1; subst c1.
    assert (Hmed : forall (f : Score -> Q) m m',
              median (map f (entries_for p rs)) = Returned m ->
              median (map f (entries_for p rs')) = Returned m' -> (m == m')%Q).
    { intros f m m' Hm Hm'.
      pose proof (median_perm (Permutation_map f He)) as Hsame.
      rewrite Hm, Hm' in Hsame. exact Hsame. }
    unfold same_consensus.
    split; [congruence|].
    split; [eapply Hmed; eauto|].
    split; [eapply Hmed; eauto|].
    split; [eapply Hmed; eauto|].
    split; [eapply Hmed; eauto|].
    split; [eapply Hmed; eauto|].
    rewrite H6, G6.
    now rewrite !(spread_perm (Permutation_map _ He)).
Qed.

Lemma consensus_entry_made (d : Dict.t Judged) (provider_outputs : provider_outputs_t)
  (cs : Dict.t ConsensusScore.t) (p : string) (c : ConsensusScore.t) :
  _calculate_consensus_scores d provider_outputs = Returned cs ->
  Dict.get cs p = Some c ->
  In p (Dict.keys provider_outputs) /\
  entries_for p (Dict.values d) <> [] /\
  make_consensus p (lists_of (entries_for p (Dict.values d))) = Returned c.
Proof.
  intros Ecs Hget.
  destruct (calculate_consensus_scores_spec d provider_outputs) as [cs' [E H]].
  rewrite Ecs in E. inversion E; subst cs'. clear E.
  rewrite H in Hget.
  destruct (member p (Dict.keys provider_outputs)) eqn:Em; [|discriminate].
  split; [now apply member_In|].
  unfold consensus_for in Hget.
  destruct (entries_for p (Dict.values d)) as [|s ss] eqn:Ee; [discriminate|].
  split; [discriminate|].
  destruct (make_consensus p (lists_of (s :: ss))); congruence.
Qed.





(** ** Votes: totals and majorities *)

Lemma set_increment_sum (d : Dict.t nat) (k : string) :
  list_sum (Dict.values (Dict.set d k (Dict.get_default d k 0 + 1)))
  = S (list_sum (Dict.values d)).
Proof.
  unfold Dict.get_default.
  induction d as [|[k' v'] d IH]; simpl; [reflexivity|].
  destruct (String.eqb k' k) eqn:E; simpl.
  - lia.
  - unfold Dict.values in *. rewrite IH. lia.
Qed.

Lemma tally_sum (ws : list string) (acc : Dict.t nat) :
  list_sum (Dict.values (tally ws acc))
  = (list_sum (Dict.values acc) + length ws)%nat.
Proof.
  revert acc; induction ws as [|w ws IH]; intros acc; simpl; [lia|].
  change (tally (w :: ws) acc)
    with (tally ws (Dict.set acc w (Dict.get_default acc w 0 + 1))).
  rewrite IH, set_increment_sum. lia.
Qed.

Lemma votes_for_bound (p : string) (ws : list string) :
  (votes_for p ws <= length ws)%nat.
Proof.
  unfold votes_for. induction ws as [|w ws IH]; simpl; auto.
  destruct (string_dec w p); lia.
Qed.

Lemma votes_for_two (p q : string) (ws : list string) :
  p <> q -> (votes_for p ws + votes_for q ws <= length ws)%nat.
Proof.
  intros Hne. unfold votes_for. induction ws as [|w ws IH]; simpl; auto.
  destruct (string_dec w p), (string_dec w q); try lia. congruence.
Qed.

Lemma determine_consensus_winner_returned (d : Dict.t Judged) (w : string)
  (votes : Dict.t nat) :
  _determine_consensus_winner d = Returned (w, votes) ->
  d <> [] /\
  votes = tally (map winner_of (Dict.values d)) Dict.empty /\
  first_most_voted w (map winner_of (Dict.values d)).
Proof.
  intros H. destruct d as [|x d']; [discriminate|].
  assert (Hne : x :: d' <> []) by discriminate.
  destruct (determine_consensus_winner_spec Hne) as [w' [E Hw]].
  rewrite H in E. inversion E; subst.
  split; [exact Hne|]. split; [apply count_votes_tally | exact Hw].
Qed.

(** X5.  The votes add up: when [_determine_consensus_winner] returns,
    the counts of [winner_votes] sum to the number of judges that
    returned, and every provider in the table has between 1 and that many
    votes. *)
Theorem winner_votes_add_up (individual_results : Dict.t Judged) (w : string)
  (votes : Dict.t nat) :
  _determine_consensus_winner individual_results = Returned (w, votes) ->
  list_sum (Dict.values votes) = length individual_results /\
  forall p n, Dict.get votes p = Some n ->
              (1 <= n <= length individual_results)%nat.
Proof.
  intros H. destruct (determine_consensus_winner_returned _ H) as [_ [-> _]].
  assert (Hlen : length (map winner_of (Dict.values individual_results))
                 = length individual_results)
    by (unfold Dict.values; now rewrite !length_map).
  split.
  - rewrite tally_sum. simpl. exact Hlen.
  - intros p n Hget. rewrite tally_get_empty in Hget.
    destruct (Nat.eqb (votes_for p (map winner_of (Dict.values individual_results))) 0)
      eqn:E; [discriminate|].
    apply Nat.eqb_neq in E. inversion Hget; subst.
    pose proof (votes_for_bound p (map winner_of (Dict.values individual_results))).
    lia.
Qed.

Lemma winner_votes_add_up_witness :
  exists w votes,
    _determine_consensus_winner (_run_judges_parallel example_completed)
      = Returned (w, votes) /\
    list_sum (Dict.values votes) = 3%nat.
Proof.
  exists "A"%string, [("A", 2%nat); ("B", 1%nat)]%string.
  split; [reflexivity|].
  apply (@winner_votes_add_up (_run_judges_parallel example_completed) "A"
           [("A", 2%nat); ("B", 1%nat)]%string eq_refl).
Defined.

(** X6.  A strict majority decides: a provider that more than half of the
    returning judges named as winner is the consensus winner, in whatever
    order the judges arrived. *)
Theorem strict_majority_wins (individual_results : Dict.t Judged) (w p : string)
  (votes : Dict.t nat) :
  _determine_consensus_winner individual_results = Returned (w, votes) ->
  (length individual_results
   < 2 * votes_for p (map winner_of (Dict.values individual_results)))%nat ->
  w = p.
Proof.
  intros H Hmaj.
  destruct (determine_consensus_winner_returned _ H) as [_ [_ [_ [Hmost _]]]].
  destruct (string_dec w p) as [E|Hne]; [exact E|].
  pose proof (votes_for_two (map winner_of (Dict.values individual_results)) Hne)
    as Htwo.
  specialize (Hmost p).
  assert (Hlen : length (map winner_of (Dict.values individual_results))
                 = length individual_results)
    by (unfold Dict.values; now rewrite !length_map).
  lia.
Qed.

Lemma strict_majority_wins_witness :
  exists w votes,
    _determine_consensus_winner (_run_judges_parallel example_completed)
      = Returned (w, votes) /\
    w = "A"%string.
Proof.
  destruct (determine_consensus_winner_spec
              (d := _run_judges_parallel example_completed))
    as [w [E _]]; [discriminate|].
  exists w, (count_votes (_run_judges_parallel example_completed)).
  split; [exact E|].
  apply (@strict_majority_wins (_run_judges_parallel example_completed) w "A"
           (count_votes (_run_judges_parallel example_completed)) E).
  vm_compute. lia.
Defined.

(** ** What else does not depend on the arrival order *)

Lemma votes_for_perm (p : string) (ws ws' : list string) :
  Permutation ws ws' -> votes_for p ws = votes_for p ws'.
Proof.
  unfold votes_for.
  induction 1 as [|x l l' _ IH|x y l|l l' l'' _ IH1 _ IH2]; simpl; auto.
  - destruct (string_dec x p); congruence.
  - destruct (string_dec x p), (string_dec y p); reflexivity.
  - congruence.
Qed.



(** ** The winner-consensus percentage and the confidence level *)

Lemma Qnat_le (a b : nat) : (a <= b)%nat <-> (Qnat a <= Qnat b)%Q.
Proof. unfold Qnat. rewrite <- Zle_Qle. lia. Qed.

Lemma Qnat_eq (a b : nat) : a = b <-> (Qnat a == Qnat b)%Q.
Proof. unfold Qnat. rewrite inject_Z_injective. lia. Qed.

Lemma Qnat_pos (n : nat) : (0 < n)%nat -> (0 < Qnat n)%Q.
Proof.
  intros H. unfold Qnat. change 0%Q with (inject_Z 0). rewrite <- Zlt_Qlt. lia.
Qed.

Lemma share_bounds (a n : nat) :
  (0 < a)%nat -> (a <= n)%nat ->
  (0 < Qnat a / Qnat n * 100)%Q /\
  (Qnat a / Qnat n * 100 <= 100)%Q /\
  ((Qnat a / Qnat n * 100 == 100)%Q <-> a = n).
Proof.
  intros Ha Han.
  assert (Hn : (0 < Qnat n)%Q) by (apply Qnat_pos; lia).
  assert (Hx : (0 < Qnat a)%Q) by (apply Qnat_pos; lia).
  assert (Hle : (Qnat a <= Qnat n)%Q) by now apply Qnat_le.
  assert (Hq : (Qnat a / Qnat n * Qnat n == Qnat a)%Q) by (field; lra).
  set (q := (Qnat a / Qnat n)%Q) in *.
  assert (Hq0 : (0 < q)%Q).
  { destruct (Qlt_le_dec 0 q); [assumption|]. nra. }
  assert (Hq1 : (q <= 1)%Q).
  { destruct (Qlt_le_dec 1 q); [|assumption]. nra. }
  split; [lra|]. split; [lra|].
  rewrite Qnat_eq. split; intros H.
  - assert (q == 1)%Q by lra. nra.
  - assert (q == 1)%Q by nra. lra.
Qed.

Lemma filter_length_all {A : Type} (f : A -> bool) (l : list A) :
  length (filter f l) = length l <-> forall x, In x l -> f x = true.
Proof.
  induction l as [|x l IH]; simpl; [tauto|].
  pose proof (filter_length_le f l) as Hle.
  destruct (f x) eqn:E; simpl.
  - split.
    + intros H y [<-|Hy]; auto. apply IH; [lia | exact Hy].
    + intros H. f_equal. apply IH. intros y Hy. apply H. right; exact Hy.
  - split; [lia|]. intros H. specialize (H x (or_introl eq_refl)). congruence.
Qed.

Lemma agree_with_first_bounds (rs : list Judged) :
  rs <> [] ->
  (0 < length (agree_with_first rs) <= length rs)%nat /\
  (length (agree_with_first rs) = length rs <->
   forall r r', In r rs -> In r' rs -> winner_of r = winner_of r').
Proof.
  destruct rs as [|first rest]; [congruence|]. intros _.
  unfold agree_with_first.
  set (f := fun r => String.eqb (winner_of r) (winner_of first)).
  split.
  - split; [|apply filter_length_le].
    simpl. unfold f at 1. rewrite String.eqb_refl. simpl. lia.
  - rewrite filter_length_all. unfold f. split.
    + intros H r r' Hr Hr'. apply H in Hr. apply H in Hr'.
      apply String.eqb_eq in Hr. apply String.eqb_eq in Hr'. congruence.
    + intros H r Hr. apply String.eqb_eq. apply H; [exact Hr | left; reflexivity].
Qed.

Lemma calculate_agreement_confidence (d : Dict.t Judged)
  (cs : Dict.t ConsensusScore.t) (ag : InterJudgeAgreement.t) :
  _calculate_agreement d cs = Returned ag ->
  InterJudgeAgreement.confidence_level ag
  = confidence (InterJudgeAgreement.average_correlation ag)
      (InterJudgeAgreement.winner_consensus_percentage ag).
Proof.
  unfold _calculate_agreement. intros H.
  apply bind_returned in H. destruct H as [corr [_ H]].
  apply bind_returned in H. destruct H as [avg [_ H]].
  apply bind_returned in H. destruct H as [cnt [_ H]].
  inversion H. reflexivity.
Qed.



Lemma confidence_cases (avg : R) (pct : Q) :
  (confidence avg pct = "HIGH"%string /\
   (8 / 10 <= avg)%R /\ (pct == 100)%Q) \/
  (confidence avg pct = "MEDIUM"%string /\
   (6 / 10 <= avg)%R /\ (67 <= pct)%Q) \/
  (confidence avg pct = "LOW"%string /\
   ((avg < 6 / 10)%R \/ (pct < 67)%Q)).
Proof.
  unfold confidence, Rge_bool.
  destruct (Rle_dec (8 / 10) avg) as [H8|H8];
    destruct (Qeq_bool pct 100) eqn:E100; cbn [andb].
  - left. split; [reflexivity|]. split; [exact H8|]. now apply Qeq_bool_eq.
  - destruct (Rle_dec (6 / 10) avg) as [H6|H6]; [|exfalso; Lra.lra].
    destruct (Qle_bool 67 pct) eqn:E67; cbn [andb].
    + right; left. split; [reflexivity|]. split; [exact H6|].
      now apply Qle_bool_iff.
    + right; right. split; [reflexivity|]. right.
      destruct (Qlt_le_dec pct 67) as [H|H]; [exact H|].
      apply Qle_bool_iff in H. congruence.
  - destruct (Rle_dec (6 / 10) avg) as [H6|H6].
    + destruct (Qle_bool 67 pct) eqn:E67; cbn [andb].
      * right; left. split; [reflexivity|]. split; [exact H6|].
        now apply Qle_bool_iff.
      * right; right. split; [reflexivity|]. right.
        destruct (Qlt_le_dec pct 67) as [H|H]; [exact H|].
        apply Qle_bool_iff in H. congruence.
    + right; right. split; [reflexivity|]. left. Lra.lra.
  - destruct (Rle_dec (6 / 10) avg) as [H6|H6].
    + destruct (Qle_bool 67 pct) eqn:E67; cbn [andb].
      * right; left. split; [reflexivity|]. split; [exact H6|].
        now apply Qle_bool_iff.
      * right; right. split; [reflexivity|]. right.
        destruct (Qlt_le_dec pct 67) as [H|H]; [exact H|].
        apply Qle_bool_iff in H. congruence.
    + right; right. split; [reflexivity|]. left. Lra.lra.
Qed.

(** What [judge_document] returns, with the agreement figures spelled
    out over the surviving judges. *)
Lemma judge_document_agreement (completed : list completion)
  (now document_name : string) (provider_outputs : provider_outputs_t) :
  dispatched completed ->
  survivors completed <> [] ->
  exists pr,
    judge_document completed now document_name provider_outputs = Returned pr /\
    In (PanelResult.consensus_winner pr) (map winner_of (survivors completed)) /\
    InterJudgeAgreement.average_correlation (PanelResult.agreement pr)
      = mean_or_zero
          (map snd (map correlation_entry (comparable_pairs (survivors completed)))) /\
    InterJudgeAgreement.winner_consensus_percentage (PanelResult.agreement pr)
      = (Qnat (length (agree_with_first (survivors completed)))
         / Qnat (length (survivors completed)) * 100)%Q /\
    InterJudgeAgreement.confidence_level (PanelResult.agreement pr)
      = confidence
          (InterJudgeAgreement.average_correlation (PanelResult.agreement pr))
          (InterJudgeAgreement.winner_consensus_percentage (PanelResult.agreement pr)).
Proof.
  intros Hd Hne.
  destruct (judge_document_spec completed now document_name provider_outputs Hne)
    as [cs [w [ag [_ [_ [Hw [Eag Ejd]]]]]]].
  destruct (calculate_agreement_spec (_run_judges_parallel completed) cs
              (run_judges_nodup completed))
    as [ag' [Eag' [_ [Havg Hpct]]]].
  rewrite Eag in Eag'. inversion Eag'; subst ag'. clear Eag'.
  rewrite (run_judges_values Hd) in Hpct, Hw.
  assert (Hlen : length (_run_judges_parallel completed)
                 = length (survivors completed)).
  { rewrite (run_judges_dispatched Hd). apply length_map. }
  rewrite Hlen in Hpct.
  rewrite (run_judges_dispatched Hd) in Havg.
  rewrite correlations_of_survivors in Havg
    by (now apply survivors_names || now apply survivors_known).
  eexists. split; [exact Ejd|].
  cbn [panel_result PanelResult.agreement PanelResult.consensus_winner].
  split; [apply Hw|]. split; [exact Havg|].
  split.
  - rewrite Hpct. unfold percentage.
    destruct (survivors completed); [contradiction | reflexivity].
  - now apply (calculate_agreement_confidence _ _ Eag).
Qed.





(** ** The consensus table: its providers and its spreads *)

Lemma is_scored_entries (p : string) (rs : list Judged) :
  is_scored p rs = false <-> entries_for p rs = [].
Proof.
  rewrite <- entries_none. unfold is_scored, scorers.
  induction rs as [|r rs IH]; simpl; [tauto|].
  destruct (scored_by p r); simpl; [split; discriminate | exact IH].
Qed.

Lemma consensus_loop_keys (d : Dict.t Judged) (ks : list string)
  (acc cs : Dict.t ConsensusScore.t) :
  for_each
    (fun consensus_scores provider =>
       let c := collect_scores provider d in
       match completeness_scores c with
       | [] => Returned consensus_scores
       | _ :: _ =>
           score <- make_consensus provider c ;;
           Returned (Dict.set consensus_scores provider score)
       end)
    ks acc = Returned cs ->
  NoDup ks -> (forall k, In k ks -> ~ In k (Dict.keys acc)) ->
  Dict.keys cs
  = Dict.keys acc ++ filter (fun p => is_scored p (Dict.values d)) ks.
Proof.
  revert acc; induction ks as [|k ks IH]; intros acc H Hnd Hfresh.
  - simpl in H. inversion H; subst. simpl. now rewrite app_nil_r.
  - cbn [for_each] in H. cbv zeta in H. rewrite collect_scores_entries in H.
    inversion Hnd as [|? ? Hk Hnd']; subst.
    cbn [filter].
    destruct (entries_for k (Dict.values d)) as [|s ss] eqn:E.
    + cbn [lists_of completeness_scores map bind] in H.
      rewrite (proj2 (is_scored_entries k (Dict.values d)) E).
      apply IH; auto. intros k' Hk'. apply Hfresh. right; exact Hk'.
    + assert (Hs : is_scored k (Dict.values d) = true).
      { destruct (is_scored k (Dict.values d)) eqn:Es; auto.
        apply is_scored_entries in Es. congruence. }
      rewrite Hs.
      assert (Hne : entries_for k (Dict.values d) <> [])
        by (rewrite E; discriminate).
      destruct (consensus_for_some k _ Hne) as [c [_ Em]]. rewrite E in Em.
      cbn [lists_of completeness_scores map] in H.
      change (make_consensus k
                {| completeness_scores :=
                     ProviderScore.completeness s
                     :: map (@ProviderScore.completeness string) ss;
                   accuracy_scores := map (@ProviderScore.accuracy string) (s :: ss);
                   hallucination_scores :=
                     map (@ProviderScore.hallucinations string) (s :: ss);
                   citation_scores :=
                     map (@ProviderScore.citation_quality string) (s :: ss);
                   overall_scores :=
                     map (@ProviderScore.overall_quality string) (s :: ss) |})
        with (make_consensus k (lists_of (s :: ss))) in H.
      rewrite Em in H. cbn [bind] in H.
      assert (Hfk : ~ In k (Dict.keys acc)) by (apply Hfresh; left; reflexivity).
      rewrite (IH (Dict.set acc k c) H Hnd').
      * rewrite DictFacts.keys_set_fresh by exact Hfk.
        now rewrite <- app_assoc.
      * intros k' Hk'. rewrite DictFacts.keys_set_fresh by exact Hfk.
        intros Hin. apply in_app_or in Hin. destruct Hin as [Hin|[->|[]]].
        -- apply (Hfresh k'); [right; exact Hk' | exact Hin].
        -- contradiction.
Qed.

(** X11.  [consensus_scores] lists exactly the providers of
    [provider_outputs] that some judge scored, in the order of
    [provider_outputs]: a provider that only the judges mention (scored or
    named winner) but that is not in [provider_outputs] never gets a
    consensus score. *)
Theorem consensus_scores_providers
  (individual_results : Dict.t Judged) (provider_outputs : provider_outputs_t)
  (cs : Dict.t ConsensusScore.t) :
  NoDup (Dict.keys provider_outputs) ->
  _calculate_consensus_scores individual_results provider_outputs = Returned cs ->
  Dict.keys cs
  = filter (fun p => is_scored p (Dict.values individual_results))
      (Dict.keys provider_outputs) /\
  (forall p, In p (Dict.keys cs) -> In p (Dict.keys provider_outputs)) /\
  (forall p c, Dict.get cs p = Some c -> ConsensusScore.provider c = p).
Proof.
  intros Hnd H.
  assert (Hkeys : Dict.keys cs
                  = filter (fun p => is_scored p (Dict.values individual_results))
                      (Dict.keys provider_outputs)).
  { unfold _calculate_consensus_scores in H.
    rewrite (@consensus_loop_keys individual_results (Dict.keys provider_outputs)
               Dict.empty cs H Hnd); [reflexivity|].
    intros k _ []. }
  split; [exact Hkeys|]. split.
  - intros p Hp. rewrite Hkeys in Hp. apply filter_In in Hp. tauto.
  - intros p c Hget.
    destruct (consensus_entry_made _ _ _ H Hget) as [_ [Hne Hmade]].
    destruct (make_consensus_spec p Hne) as [c' [E [Hp _]]].
    congruence.
Qed.

Lemma consensus_scores_providers_witness :
  exists cs,
    _calculate_consensus_scores (_run_judges_parallel example_completed)
      [("B", []); ("Z", []); ("A", [])]%string = Returned cs /\
    Dict.keys cs = ["B"; "A"]%string.
Proof.
  destruct (calculate_consensus_scores_spec
              (_run_judges_parallel example_completed)
              [("B", []); ("Z", []); ("A", [])]%string) as [cs [E _]].
  exists cs. split; [exact E|].
  destruct (@consensus_scores_providers (_run_judges_parallel example_completed)
              [("B", []); ("Z", []); ("A", [])]%string cs) as [H _].
  - repeat constructor; simpl; intuition discriminate.
  - exact E.
  - rewrite H. reflexivity.
Defined.

Lemma consensus_loop_nodup (d : Dict.t Judged) (ks : list string)
  (acc cs : Dict.t ConsensusScore.t) :
  for_each
    (fun consensus_scores provider =>
       let c := collect_scores provider d in
       match completeness_scores c with
       | [] => Returned consensus_scores
       | _ :: _ =>
           score <- make_consensus provider c ;;
           Returned (Dict.set consensus_scores provider score)
       end)
    ks acc = Returned cs ->
  NoDup (Dict.keys acc) -> NoDup (Dict.keys cs).
Proof.
  revert acc; induction ks as [|k ks IH]; intros acc H Hnd.
  - simpl in H. now inversion H; subst.
  - cbn [for_each] in H. cbv zeta in H.
    destruct (completeness_scores (collect_scores k d)).
    + cbn [bind] in H. eapply IH; eauto.
    + destruct (make_consensus k (collect_scores k d)) as [c|e];
        cbn [bind] in H; [|discriminate].
      eapply IH; [exact H|]. now apply DictFacts.keys_set_nodup.
Qed.

Lemma fold_rows_fresh (items : list (string * ConsensusScore.t))
  (acc : Dict.t (Dict.t R)) :
  NoDup (Dict.keys acc ++ map fst items) ->
  fold_left
    (fun d (item : string * ConsensusScore.t) =>
       Dict.set d (fst item) (ConsensusScore.score_variance (snd item)))
    items acc
  = acc ++ map variance_row items.
Proof.
  revert acc; induction items as [|item items IH]; intros acc Hnd; simpl.
  - now rewrite app_nil_r.
  - assert (Hfresh : ~ In (fst item) (Dict.keys acc)).
    { intros Hin. apply NoDup_remove_2 in Hnd. apply Hnd.
      apply in_or_app; left; exact Hin. }
    rewrite DictFacts.set_fresh by exact Hfresh.
    rewrite IH.
    + rewrite <- app_assoc. reflexivity.
    + unfold Dict.keys in *. rewrite map_app. simpl.
      rewrite <- app_assoc. exact Hnd.
Qed.

Lemma calculate_agreement_rows (d : Dict.t Judged)
  (cs : Dict.t ConsensusScore.t) (ag : InterJudgeAgreement.t) :
  _calculate_agreement d cs = Returned ag ->
  InterJudgeAgreement.score_std_dev_per_provider ag
  = fold_left
      (fun t (item : string * ConsensusScore.t) =>
         Dict.set t (fst item) (ConsensusScore.score_variance (snd item)))
      (Dict.items cs) Dict.empty.
Proof.
  unfold _calculate_agreement. intros H.
  apply bind_returned in H. destruct H as [corr [_ H]].
  apply bind_returned in H. destruct H as [avg [_ H]].
  apply bind_returned in H. destruct H as [cnt [_ H]].
  inversion H. reflexivity.
Qed.



(** ** A spread of zero *)

Lemma sum_sq_dev_dev_sq (xs : list Q) : (sum_sq_dev xs == dev_sq xs)%Q.
Proof.
  unfold sum_sq_dev, dev_sq. cbv zeta. apply Qsum_map_Qeq.
  intros a _. symmetry. apply Qpower_2.
Qed.

Lemma constant_single (a : Q) : constant [a].
Proof. intros x y [<-|[]] [<-|[]]. reflexivity. Qed.

Lemma spread_zero (xs : list Q) :
  xs <> [] -> (spread xs = 0%R <-> constant xs).
Proof.
  intros Hne. unfold spread.
  destruct xs as [|a [|b xs]]; [congruence | |].
  - simpl. split; [intros _; apply constant_single | reflexivity].
  - set (l := a :: b :: xs) in *.
    assert (Hlen : (2 <= length l)%nat) by (simpl; lia).
    change (Nat.eqb (length l) 1) with false. cbv iota.
    assert (Hn : (0 < Qlen l - 1)%Q).
    { unfold l. rewrite !Qlen_cons. pose proof (Qlen_nonneg xs). lra. }
    pose proof (dev_sq_nonneg l) as Hd.
    assert (Hvar : (sample_variance l == dev_sq l / (Qlen l - 1))%Q).
    { unfold sample_variance. now rewrite sum_sq_dev_dev_sq. }
    assert (Hv0 : (0 <= sample_variance l)%Q).
    { rewrite Hvar. apply Qle_shift_div_l; [exact Hn | lra]. }
    split.
    + intros Hs. apply dev_sq_zero_constant.
      apply sqrt_eq_0 in Hs.
      * rewrite <- RMicromega.Q2R_0 in Hs. apply eqR_Qeq in Hs.
        rewrite Hvar in Hs.
        assert (Hm : (dev_sq l / (Qlen l - 1) * (Qlen l - 1) == dev_sq l)%Q)
          by (field; lra).
        rewrite Hs in Hm. lra.
      * rewrite <- RMicromega.Q2R_0. now apply Qle_Rle.
    + intros Hc.
      assert (Hz : (sample_variance l == 0)%Q).
      { rewrite Hvar, (dev_sq_constant Hne Hc). field. lra. }
      rewrite (Qeq_eqR _ _ Hz), RMicromega.Q2R_0. apply sqrt_0.
Qed.



(** ** The judges a panel is built from *)

Lemma try_append_initializes (construct : Judge -> string -> result unit)
  (judges : list Judge) (j : Judge) (key : option string) :
  try_append construct judges j key
  = judges ++ (if initializes construct j key then [j] else []).
Proof.
  unfold try_append, initializes.
  destruct key as [[|c k]|]; try (now rewrite app_nil_r).
  destruct (construct j (String c k)); [reflexivity | now rewrite app_nil_r].
Qed.

(** X15.  The judges of a panel are initialized independently of one
    another: a class is in [self.judges] exactly when its own key is
    non-empty and its own constructor returns, whatever happens to the
    other two, and the classes keep the order GPT-5, Claude, Gemini.  The
    key is the argument when that is a non-empty string, whatever the
    environment holds; a missing or empty argument falls back to the
    class's environment variable. *)
Theorem judges_are_initialized_independently
  (getenv : string -> option string)
  (construct : Judge -> string -> result unit) (args : api_keys) :
  initialized_judges getenv construct args
  = filter (fun j => initializes construct j (key_for getenv args j))
      judge_classes /\
  (forall j,
     In j (initialized_judges getenv construct args) <->
     exists k, key_for getenv args j = Some k /\ k <> EmptyString /\
               returns (construct j k)) /\
  (forall j k,
     key_argument args j = Some k -> k <> EmptyString ->
     key_for getenv args j = Some k) /\
  (forall j,
     key_argument args j = None \/ key_argument args j = Some EmptyString ->
     key_for getenv args j = getenv (env_var j)).
Proof.
  assert (Hfilter :
    initialized_judges getenv construct args
    = filter (fun j => initializes construct j (key_for getenv args j))
        judge_classes).
  { unfold initialized_judges. cbv zeta.
    rewrite !try_append_initializes.
    unfold judge_classes, key_for. cbn [filter key_argument env_var app].
    destruct (initializes construct GPT5Judge _),
             (initializes construct ClaudeOpusJudge _),
             (initializes construct GeminiProJudge _); reflexivity. }
  split; [exact Hfilter|].
  split.
  { intros j. rewrite Hfilter, filter_In.
    assert (Hin : In j judge_classes)
      by (destruct j; simpl; auto).
    unfold initializes, returns.
    destruct (key_for getenv args j) as [[|c k]|].
    - split; [intros [_ H]; discriminate|].
      intros [k [E [Hk _]]]. inversion E; subst. now contradiction Hk.
    - destruct (construct j (String c k)) as [[]|e] eqn:E.
      + split; [|intros _; split; auto].
        intros _. exists (String c k). rewrite E.
        repeat split; [discriminate | now exists tt].
      + split; [intros [_ H]; discriminate|].
        intros [k' [E' [_ [u Hu]]]]. inversion E'; subst.
        rewrite E in Hu. discriminate.
    - split; [intros [_ H]; discriminate|].
      intros [k [E _]]. discriminate. }
  split.
  - intros j k E Hk. unfold key_for, py_or. rewrite E.
    destruct k; [now contradiction Hk | reflexivity].
  - intros j [E|E]; unfold key_for, py_or; rewrite E; reflexivity.
Qed.

Lemma judges_are_initialized_independently_witness :
  initialized_judges
    (fun v => if String.eqb v "GEMINI_API_KEY" then Some "from-env" else None)%string
    (fun j _ => match j with
                | GPT5Judge => Raised APIError
                | _ => Returned tt
                end)
    (mk_api_keys (Some "sk-one") (Some "sk-two") (Some EmptyString))%string
  = [ClaudeOpusJudge; GeminiProJudge].
Proof.
  rewrite (proj1 (judges_are_initialized_independently _ _ _)).
  reflexivity.
Defined.

(** ** Responses of the wrong shape *)

Section ShapeFacts.

Variable json_loads : string -> option json.
Variable float_of_str : string -> option Q.

Lemma make_score_not_object (document_name : string)
  (provider_outputs : provider_outputs_t) (entry : json) :
  is_object entry = false ->
  make_score float_of_str document_name provider_outputs entry = Raised TypeError.
Proof. destruct entry; simpl; intros H; try reflexivity; discriminate. Qed.

Lemma scores_loop_stops (document_name : string)
  (provider_outputs : provider_outputs_t) (good : list json) (bad : json)
  (rest : list json) (e : exn) (acc : list (ProviderScore.t json)) :
  Forall (fun x => returns (make_score float_of_str document_name
                              provider_outputs x)) good ->
  make_score float_of_str document_name provider_outputs bad = Raised e ->
  for_each
    (fun provider_scores provider_data =>
       score <- make_score float_of_str document_name provider_outputs
                  provider_data ;;
       Returned (provider_scores ++ [score]))
    (good ++ bad :: rest) acc
  = Raised e.
Proof.
  intros Hgood Hbad. revert acc.
  induction Hgood as [|x good [y Hx] _ IH]; intros acc.
  - cbn [app for_each]. rewrite Hbad. reflexivity.
  - cbn [app for_each]. rewrite Hx. cbn [bind]. apply IH.
Qed.

Lemma example_entry_well_formed (p : string) (o : Q) :
  well_formed_entry (example_entry p o).
Proof.
  unfold well_formed_entry, example_entry.
  eexists; eexists; (split; [reflexivity|]); (split; [reflexivity|]);
    (split; [|eexists; reflexivity]).
  intros f Hf; simpl in Hf.
  repeat (destruct Hf as [<-|Hf]; [eexists; reflexivity|]); contradiction.
Qed.

End ShapeFacts.



(** ** Scores that are not numbers *)



(** ** A panel reduced to one judge *)

(** X19.  A panel result that comes from a single returning judge is
    that judge's verdict: its winner with one vote, its scores as the
    consensus scores of every provider it scored once, with all spreads
    0; there is no correlation, the average correlation is 0, the
    winner-consensus percentage is 100 and the confidence is LOW. *)
Theorem single_judge_panel_result
  (completed : list completion) (now document_name : string)
  (provider_outputs : provider_outputs_t) (r : Judged) (pr : PanelResult.t) :
  dispatched completed ->
  survivors completed = [r] ->
  judge_document completed now document_name provider_outputs = Returned pr ->
    PanelResult.judges_used pr = [name_of r] /\
    PanelResult.consensus_winner pr = winner_of r /\
    PanelResult.winner_votes pr = [(winner_of r, 1%nat)] /\
    (PanelResult.total_cost pr == JudgeResult.cost r)%Q /\
    InterJudgeAgreement.pearson_correlation (PanelResult.agreement pr) = [] /\
    InterJudgeAgreement.average_correlation (PanelResult.agreement pr) = 0%R /\
    (InterJudgeAgreement.winner_consensus_percentage (PanelResult.agreement pr)
     == 100)%Q /\
    InterJudgeAgreement.confidence_level (PanelResult.agreement pr) = "LOW"%string /\
    forall p score,
      In p (Dict.keys provider_outputs) ->
      filter (scores_provider p) (JudgeResult.provider_scores r) = [score] ->
      exists c,
        Dict.get (PanelResult.consensus_scores pr) p = Some c /\
        ConsensusScore.completeness c = ProviderScore.completeness score /\
        ConsensusScore.accuracy c = ProviderScore.accuracy score /\
        ConsensusScore.hallucinations c = ProviderScore.hallucinations score /\
        ConsensusScore.citation_quality c = ProviderScore.citation_quality score /\
        ConsensusScore.overall_quality c = ProviderScore.overall_quality score /\
        Forall (fun v => v = 0%R) (Dict.values (ConsensusScore.score_variance c)).
Proof.
  intros Hd Hone Hpr.
  assert (Hne : survivors completed <> []) by (rewrite Hone; discriminate).
  destruct (judge_document_spec completed now document_name provider_outputs Hne)
    as [cs [w [ag [Ecs [Ewin [_ [Eag Ejd]]]]]]].
  destruct (judge_document_agreement now document_name provider_outputs Hd Hne)
    as [pr0 [E [_ [Havg [Hpct Hlevel]]]]].
  rewrite Ejd in E. inversion E as [Epr]. clear E.
  destruct (calculate_agreement_spec (_run_judges_parallel completed) cs
              (run_judges_nodup completed))
    as [ag' [Eag' [Hcorr _]]].
  rewrite Eag in Eag'. inversion Eag'; subst ag'. clear Eag'.
  assert (Hrun : _run_judges_parallel completed = [(name_of r, r)])
    by (rewrite (run_judges_dispatched Hd), Hone; reflexivity).
  rewrite <- Epr in Havg, Hpct, Hlevel.
  cbn [panel_result PanelResult.agreement] in Havg, Hpct, Hlevel.
  rewrite Hone in Havg, Hpct.
  assert (Hagree : agree_with_first [r] = [r]).
  { unfold agree_with_first. cbn [filter]. now rewrite String.eqb_refl. }
  rewrite Hagree in Hpct.
  cbn [pairs_of comparable_pairs map filter app mean_or_zero] in Havg.
  rewrite Hrun in Ewin, Hcorr.
  assert (Hw : w = winner_of r /\
               count_votes (_run_judges_parallel completed)
               = [(winner_of r, 1%nat)]).
  { rewrite Hrun.
    assert (Hcv : count_votes [(name_of r, r)] = [(winner_of r, 1%nat)])
      by reflexivity.
    split; [|exact Hcv].
    unfold _determine_consensus_winner in Ewin. cbv zeta in Ewin.
    rewrite Hcv in Ewin.
    cbn [max_by_votes Dict.items max_from bind fst] in Ewin.
    congruence. }
  destruct Hw as [-> Hvotes].
  rewrite Ejd in Hpr. injection Hpr as Hpr'. subst pr.
  cbn [panel_result PanelResult.judges_used PanelResult.consensus_winner
       PanelResult.winner_votes PanelResult.total_cost PanelResult.agreement
       PanelResult.consensus_scores].
  rewrite Hvotes, Hrun.
  split; [reflexivity|]. split; [reflexivity|]. split; [reflexivity|].
  split; [unfold Qsum; cbn [Dict.values map snd fold_left]; ring|].
  split; [rewrite Hcorr; reflexivity|].
  split; [exact Havg|].
  split; [rewrite Hpct; reflexivity|].
  split.
  { rewrite Hlevel, Havg, Hpct. unfold confidence, Rge_bool.
    destruct (Rle_dec (8 / 10) 0) as [H|_]; [exfalso; Lra.lra|].
    destruct (Rle_dec (6 / 10) 0) as [H|_]; [exfalso; Lra.lra|].
    reflexivity. }
  intros p score Hin Hscore.
  destruct (calculate_consensus_scores_spec (_run_judges_parallel completed)
              provider_outputs) as [cs' [Ecs' Hget]].
  rewrite Ecs in Ecs'. inversion Ecs'; subst cs'. clear Ecs'.
  rewrite Hget, (proj2 (member_In p _) Hin), Hrun.
  assert (Hentries : entries_for p (Dict.values [(name_of r, r)]) = [score]).
  { unfold entries_for. cbn [Dict.values map snd flat_map].
    now rewrite app_nil_r. }
  assert (Hsome : entries_for p (Dict.values [(name_of r, r)]) <> [])
    by (rewrite Hentries; discriminate).
  destruct (consensus_for_some p _ Hsome) as [c [Ec Emade]].
  exists c. split; [exact Ec|].
  rewrite Hentries in Emade.
  assert (Hs : [score] <> []) by discriminate.
  destruct (make_consensus_spec p Hs)
    as [c' [E' [_ [H1 [H2 [H3 [H4 [H5 Hvar]]]]]]]].
  rewrite Emade in E'. inversion E'; subst c'. clear E'.
  cbn [map] in H1, H2, H3, H4, H5, Hvar.
  rewrite median_one in H1, H2, H3, H4, H5.
  repeat (split; [congruence|]).
  rewrite Hvar. unfold spread. cbn [length Nat.eqb Dict.values map snd].
  repeat constructor.
Qed.

Lemma single_judge_panel_result_witness :
  exists pr,
    judge_document
      [(GPT5Judge, Raised APIError); (ClaudeOpusJudge, Returned claude_result);
       (GeminiProJudge, Raised JSONDecodeError)]
      "now" "lease.pdf" example_outputs = Returned pr /\
    PanelResult.consensus_winner pr = winner_of claude_result /\
    InterJudgeAgreement.confidence_level (PanelResult.agreement pr) = "LOW"%string.
Proof.
  assert (Hne : survivors
                  [(GPT5Judge, Raised APIError);
                   (ClaudeOpusJudge, Returned claude_result);
                   (GeminiProJudge, Raised JSONDecodeError)] <> [])
    by (simpl; discriminate).
  destruct (judge_document_spec _ "now" "lease.pdf" example_outputs Hne)
    as [cs [w [ag [_ [_ [_ [_ Ejd]]]]]]].
  assert (Hd : dispatched
                 [(GPT5Judge, Raised APIError);
                  (ClaudeOpusJudge, Returned claude_result);
                  (GeminiProJudge, Raised JSONDecodeError)]).
  { split; [repeat constructor; simpl; intuition discriminate|].
    repeat constructor; cbn [fst snd]; intros res Hres;
      inversion Hres; subst; reflexivity. }
  destruct (@single_judge_panel_result
              [(GPT5Judge, Raised APIError); (ClaudeOpusJudge, Returned claude_result);
               (GeminiProJudge, Raised JSONDecodeError)]
              "now" "lease.pdf" example_outputs claude_result _ Hd eq_refl Ejd)
    as [_ [Hw [_ [_ [_ [_ [_ [Hl _]]]]]]]].
  eexists. split; [exact Ejd|]. split; [exact Hw | exact Hl].
Defined.
